(** * Bay Area News Digest: the story processor

    A shallow embedding of [process_digest.py] (theme tagging, national
    significance, enterprise detection, recency decay, ranking), of the
    acquisition stage of [fetch_rss.py] (county detection, the entry
    loop, the title de-duplication) and of the page updater
    [update_html.py], with the properties of the digest specification
    stated and proved over it.

    Conventions of the embedding.
    - A Python [str] is a [string]; one [ascii] stands for one code point
      below 256.
    - A Python [int] is a [Z]; a Python [float] is the rational [Q] it
      stands for, and every operation on floats rounds its exact result
      to binary64 ([fl]); [round(x, n)] is the float nearest to [x]
      rounded to [n] decimals, ties to even.
    - A story is a record whose keys [title], [summary], [link],
      [source] and [county] hold strings, as the acquisition stage
      writes them; the key [published] may be missing or hold [null].
    - An exception that leaves [process_stories] is a [Raise]; the ones
      caught inside it do not appear.
    - The library calls [re.search], [datetime.fromisoformat] and
      [hashlib.md5] are the fields of the class [Runtime]; every general
      theorem holds for all of its instances. *)

From Stdlib Require Import Ascii String ZArith QArith Qround Qminmax Qabs Lqa.
From Stdlib Require Import Qpower Qreduction.
From Stdlib Require Import Sorting.Sorted.
From stdpp Require Import gmap strings list sorting.

#[local] Open Scope string_scope.
#[local] Open Scope list_scope.
#[local] Open Scope Z_scope.

(** ** Strings *)

Module Str.

Definition code (c : ascii) : nat := nat_of_ascii c.

Definition is_upper (c : ascii) : bool :=
  let n := code c in
  ((65 <=? n) && (n <=? 90))%nat
  || ((192 <=? n) && (n <=? 222) && negb (n =? 215))%nat.

(** [str.lower()] on one code point below 256. *)
Definition lower_char (c : ascii) : ascii :=
  if is_upper c then ascii_of_nat (code c + 32) else c.

Fixpoint map (f : ascii -> ascii) (s : string) : string :=
  match s with
  | EmptyString => EmptyString
  | String c r => String (f c) (map f r)
  end.

Fixpoint filter (p : ascii -> bool) (s : string) : string :=
  match s with
  | EmptyString => EmptyString
  | String c r => if p c then String c (filter p r) else filter p r
  end.

(** [s.lower()] *)
Definition lower (s : string) : string := map lower_char s.

(** [s[:n]] *)
Definition take (n : nat) (s : string) : string := substring 0 n s.

(** The class [[a-z0-9]]. *)
Definition is_az09 (c : ascii) : bool :=
  let n := code c in
  ((97 <=? n) && (n <=? 122))%nat || ((48 <=? n) && (n <=? 57))%nat.

(** [re.sub(r"[^a-z0-9]", "", s)] *)
Definition strip_non_az09 (s : string) : string := filter is_az09 s.

(** [s.replace("Z", "+00:00")] *)
Fixpoint replace_Z (s : string) : string :=
  match s with
  | EmptyString => EmptyString
  | String c r =>
      if Ascii.eqb c "Z"%char then "+00:00" +:+ replace_Z r
      else String c (replace_Z r)
  end.

Fixpoint repeat (c : ascii) (n : nat) : string :=
  match n with
  | O => EmptyString
  | S k => String c (repeat c k)
  end.

(** [strip p s]: [s] without its prefix [p], when it starts with it. *)
Fixpoint strip (p s : string) : option string :=
  match p with
  | EmptyString => Some s
  | String c p' =>
      match s with
      | String d s' => if Ascii.eqb c d then strip p' s' else None
      | EmptyString => None
      end
  end.

End Str.

(** ** Input records *)

(** The value found under the key ["published"] of a story: the key may
    be absent, or hold JSON [null], or hold a string. *)
Inductive field : Type :=
| Absent
| Null
| Text (s : string).

Record story : Type := {
  s_title : string;
  s_summary : string;
  s_link : string;
  s_source : string;
  s_county : string;
  s_published : field
}.

#[global] Instance field_eq_dec : EqDecision field.
Proof. solve_decision. Defined.

#[global] Instance story_eq_dec : EqDecision story.
Proof. solve_decision. Defined.

(** ** Title keys *)

(** [process_stories]: [norm = re.sub(r"[^a-z0-9]", "", s["title"].lower())] *)
Definition norm (title : string) : string :=
  Str.strip_non_az09 (Str.lower title).

(** [fetch_all_feeds]:
    [key = re.sub(r"[^a-z0-9]", "", s["title"].lower())[:60]] *)
Definition key (title : string) : string :=
  Str.take 60 (Str.strip_non_az09 (Str.lower title)).

(** ** De-duplication *)

(** The filter of the loop of [process_stories]: a story is skipped when
    its [norm] is in [seen_titles], and its [norm] is added otherwise. *)
Fixpoint dedup_from (seen_titles : gset string) (stories : list story)
  : list story :=
  match stories with
  | [] => []
  | s :: rest =>
      let n := norm (s_title s) in
      if decide (n ∈ seen_titles) then dedup_from seen_titles rest
      else s :: dedup_from ({[ n ]} ∪ seen_titles) rest
  end.

Definition dedup (stories : list story) : list story := dedup_from ∅ stories.

(** The same loop in [fetch_all_feeds], on the truncated [key]. *)
Fixpoint unique_from (seen_titles : gset string) (all_stories : list story)
  : list story :=
  match all_stories with
  | [] => []
  | s :: rest =>
      let k := key (s_title s) in
      if decide (k ∈ seen_titles) then unique_from seen_titles rest
      else s :: unique_from ({[ k ]} ∪ seen_titles) rest
  end.

Definition unique (all_stories : list story) : list story :=
  unique_from ∅ all_stories.

(** The normalized title key of a record, as the engine computes it. *)
Definition title_key (s : story) : string := norm (s_title s).

(** The claim's words: the records whose key no earlier record of the
    batch has. [earlier] holds every record met so far, kept or not. *)
Fixpoint first_occurrences_after (earlier rest : list story) : list story :=
  match rest with
  | [] => []
  | s :: rest' =>
      (if decide (title_key s ∈ title_key <$> earlier) then [] else [s])
      ++ first_occurrences_after (earlier ++ [s]) rest'
  end.

Definition first_occurrences (stories : list story) : list story :=
  first_occurrences_after [] stories.

(** ** Exceptions *)

(** The exceptions that can leave [process_stories]. *)
Inductive exn : Type :=
| KeyError
| TypeError.

Inductive result (A : Type) : Type :=
| Ok (a : A)
| Raise (e : exn).

Arguments Ok {A} a.
Arguments Raise {A} e.

#[global] Instance result_ret : MRet result := fun A a => Ok a.

#[global] Instance result_bind : MBind result := fun A B k r =>
  match r with
  | Ok a => k a
  | Raise e => Raise e
  end.

(** ** Numbers *)

Definition Qltb (a b : Q) : bool := negb (Qle_bool b a).

(** [max(a, b)] of Python returns [a] unless [b > a]. *)
Definition py_max (a b : Q) : Q := if Qltb a b then b else a.

(** [min(a, b)] of Python returns [a] unless [b < a]. *)
Definition py_min (a b : Q) : Q := if Qltb b a then b else a.

(** The integer nearest to [q], a tie going to the even one. *)
Definition round_half_even (q : Q) : Z :=
  let f := Qfloor q in
  match ((q - inject_Z f) ?= (1 # 2))%Q with
  | Lt => f
  | Gt => f + 1
  | Eq => if Z.even f then f else f + 1
  end.

(** ** Floating point *)

(** A [float] of Python is a binary64 number. The model keeps the value
    of the float, a rational number with 53 significant bits, and rounds
    the exact result of each operation as binary64 does: to the nearest
    such number, a tie going to the even significand. The range of the
    exponents of binary64 is not modelled: for the [datetime]s of Python
    (years 1 to 9999) no value of [process_stories] comes near its
    ends. *)

(** The exponent of [x > 0]: [2 ^ ilog2 x <= x < 2 ^ (ilog2 x + 1)]. *)
Definition ilog2 (x : Q) : Z :=
  let d := Z.log2 (Qnum x) - Z.log2 (Zpos (Qden x)) in
  if Qle_bool (2 ^ d) x then d else d - 1.

(** The number with 53 significant bits nearest to [x > 0]. *)
Definition fl_pos (x : Q) : Q :=
  let e := ilog2 x - 52 in
  (inject_Z (round_half_even (x * 2 ^ (- e))) * 2 ^ e)%Q.

(** [fl x]: the binary64 number nearest to [x], as a fraction in lowest
    terms. *)
Definition fl (x : Q) : Q :=
  match Qnum x with
  | Z0 => 0%Q
  | Zpos _ => Qred (fl_pos x)
  | Zneg _ => Qred (- fl_pos (- x))
  end.

(** The multiple of [10 ^ - ndigits] nearest to [q], a tie going to the
    even one. *)
Definition round_dec (q : Q) (ndigits : nat) : Q :=
  let scale := inject_Z (10 ^ Z.of_nat ndigits) in
  (inject_Z (round_half_even (q * scale)) / scale)%Q.

(** [round(q, ndigits)] on a float: the float nearest to the decimal
    number nearest to [q]. *)
Definition py_round (q : Q) (ndigits : nat) : Q := fl (round_dec q ndigits).

(** [sum(xs)] *)
Definition py_sum (xs : list Z) : Z := fold_left Z.add xs 0.

(** [max(xs, default=d)] *)
Definition py_max_default (d : Z) (xs : list Z) : Z :=
  match xs with
  | [] => d
  | x :: r => fold_left Z.max r x
  end.

(** ** Time *)

(** A [datetime], as microseconds since the epoch: [Aware] carries a UTC
    offset (the instant is already normalised to UTC), [Naive] does not. *)
Inductive datetime : Type :=
| Aware (us : Z)
| Naive (us : Z).

(** [(now - pub_dt)] for an aware [now]: a [timedelta] in microseconds,
    or the [TypeError] of mixing aware and naive operands. *)
Definition sub_datetime (now : Z) (pub_dt : datetime) : result Z :=
  match pub_dt with
  | Aware t => Ok (now - t)
  | Naive _ => Raise TypeError
  end.

(** [timedelta.total_seconds()]: the microseconds divided by [10 ** 6],
    a division of two integers that gives the nearest float. *)
Definition total_seconds (delta_us : Z) : Q := fl (inject_Z delta_us / 1000000).

(** ** The library calls *)

Class Runtime : Type := {
  (** [re.search(pattern, text, re.IGNORECASE)] found a match *)
  re_search : string -> string -> bool;
  (** [datetime.fromisoformat(text)]; [None] stands for its [ValueError] *)
  fromisoformat : string -> option datetime;
  (** [hashlib.md5(text.encode()).hexdigest()] *)
  md5_hexdigest : string -> string
}.

(** ** Stable sorting *)

(** [list.sort] is stable and compares with [<] only. [insert_by lt x l]
    puts [x], which stood before every element of [l], behind the
    elements strictly below it and before the others. *)
Fixpoint insert_by {A : Type} (lt : A -> A -> bool) (x : A) (l : list A)
  : list A :=
  match l with
  | [] => [x]
  | y :: l' => if lt y x then y :: insert_by lt x l' else x :: y :: l'
  end.

Fixpoint stable_sort {A : Type} (lt : A -> A -> bool) (l : list A) : list A :=
  match l with
  | [] => []
  | x :: l' => insert_by lt x (stable_sort lt l')
  end.

(** The same sort when the comparison of two keys can raise. *)
Fixpoint insert_by_M {A : Type} (lt : A -> A -> result bool) (x : A)
  (l : list A) : result (list A) :=
  match l with
  | [] => Ok [x]
  | y :: l' =>
      b ← lt y x;
      if b : bool then r ← insert_by_M lt x l'; Ok (y :: r)
      else Ok (x :: y :: l')
  end.

Fixpoint stable_sort_M {A : Type} (lt : A -> A -> result bool) (l : list A)
  : result (list A) :=
  match l with
  | [] => Ok []
  | x :: l' => r ← stable_sort_M lt l'; insert_by_M lt x r
  end.

(** [a < b] on two values of the key ["published"]: strings compare by
    code points, [None] compares with nothing. *)
Definition field_lt (a b : field) : result bool :=
  match a, b with
  | Text x, Text y => Ok (String.ltb x y)
  | _, _ => Raise TypeError
  end.

(** ** Keyword tables *)

(** [THEME_KEYWORDS], in the order of the dictionary. *)
Definition THEME_KEYWORDS : list (string * list string) := [
  ("Tech & Economy", [
    "\bA\.?I\.?\b"; "\bartificial intelligence\b"; "\bstartup"; "\blayoff";
    "\bventure capital\b"; "\bVC\s"; "\bIPO\b"; "\btech worker";
    "\bSilicon Valley\b"; "\bgig economy\b"; "\bautomation\b";
    "\bhousing cost"; "\bcost of living\b"; "\bwage\b"; "\bjob market\b";
    "\beconom"; "\binflation\b"; "\bGoogle\b"; "\bMeta\b"; "\bApple\b";
    "\bOpenAI\b"; "\bAnthrop"; "\bSalesforce\b"; "\bUber\b"; "\bLyft\b";
    "\bAirbnb\b"; "\bNvidia\b"; "\btech industr"; "\bcrypto";
    "\bblockchain\b"; "\bfunding round\b"; "\bunicorn\b"; "\bvaluation\b";
    "\bdowntown.{0,15}recover"; "\boffice.{0,10}vacanc";
    "\breturn.{0,10}office\b"; "\bremote work"; "\bgig\s+work"; "\bforeclos";
    "\bjob loss"; "\bjobs\b"; "\bhiring\b"; "\bworkforce\b"; "\bdata center";
    "\benergy capacity\b"
  ]);
  ("Housing & Displacement", [
    "\bhousing\b"; "\brent\b"; "\bevict"; "\bgentrific"; "\bzon(?:e|ing)\b";
    "\bhomeless"; "\btenant"; "\blandlord"; "\baffordab"; "\bdisplace";
    "\bshelter\b"; "\bencampment"; "\bunhoused\b"; "\bproperty tax\b";
    "\brent control\b"; "\bpublic housing\b"; "\bsection 8\b"; "\bADU\b";
    "\bNIMBY\b"; "\bYIMBY\b"; "\bmodular\s+home"; "\bpermit\b.*\bhousing\b";
    "\bhome.?buyer"; "\bcommunity land trust\b"; "\binterim housing\b";
    "\breal estate\b"; "\bcondo"; "\bresidential unit"
  ]);
  ("Climate & Environment", [
    "\bwildfire"; "\bdrought\b"; "\bwater\b.*\bsupply\b"; "\bsea level\b";
    "\bemission"; "\bpollut"; "\bclimate\b"; "\benvironment"; "\bflood";
    "\bair quality\b"; "\bsmoke\b"; "\bfire season\b"; "\brenewable\b";
    "\bsolar\b"; "\belectric vehicle\b"; "\bcoastal erosion\b"; "\bwetland";
    "\brestoration\b"; "\bPG&E\b"; "\bpower grid\b"; "\bblackout\b";
    "\bcontaminat"; "\btoxic\b"; "\bking tide\b"; "\bwatershed\b";
    "\bstormwater\b"; "\bcarbon\b"; "\bnative plant"; "\breef\b";
    "\bconservation\b"; "\bsustainab"; "\bFEMA\b"; "\bNOAA\b"; "\bpollinat";
    "\borganic\b"; "\bagricultur"; "\brefinery\b"; "\bmarine reserve\b"
  ]);
  ("Governance & Power", [
    "\bcity council\b"; "\bmayor\b"; "\bpolice\b"; "\bbudget\b";
    "\bballot\b"; "\bmeasure [A-Z]\b"; "\brecall\b"; "\belection";
    "\bsupervisor"; "\bdistrict attorney\b"; "\bcorrupt"; "\btransparenc";
    "\baccountab"; "\bpublic safet"; "\bcrime\b"; "\bprosecutor\b";
    "\bjail\b"; "\bprison\b"; "\bBART\b"; "\bMuni\b"; "\bCaltrain\b";
    "\btransit\b"; "\bschool board\b"; "\bschool district\b";
    "\beducation\b"; "\bpublic health\b"; "\bgovernan"; "\blegislat";
    "\btown hall\b"; "\bcounty board\b"; "\bplanning commission\b";
    "\btax measure\b"; "\bsheriff\b"; "\bimmigra"; "\bICE\b"; "\bfederal\b";
    "\bgovernor\b"; "\bcongress"; "\bsales tax\b"; "\bstaffing\b";
    "\bschool clos"; "\bstrike\b"; "\bsanctuary\b"; "\bMedi-Cal\b";
    "\bredistric"
  ])
].

Definition NATIONAL_KEYWORDS : list string := [
  "\bnation(?:al|wide)\b"; "\bfederal\b"; "\bCongress\b"; "\bWhite House\b";
  "\bSupreme Court\b"; "\bprecedent";
  "\bfirst.{0,25}(?:nation|country|state|california)\b";
  "\bacross.{0,15}country\b"; "\bmodel.{0,15}(?:for|across)\b";
  "\blandmark\b"; "\bbillion\b"; "\btrillion\b"; "\bstate(?:wide)?\s+law\b";
  "\bregulat"; "\bimmigra"; "\bsanctuary\b"; "\blayoff.{0,20}\d{3,}";
  "\b\d{1,3},?\d{3}\s+(?:jobs|workers)\b"; "\bAmendment\b"; "\bconstitution";
  "\bcivil rights\b"; "\bfirst.{0,15}(?:city|county|municipality)\b";
  "\bpilot program\b"; "\bcould.{0,20}(?:spread|expand|replicate)\b";
  "\bFEMA\b"; "\bNOAA\b"; "\bfunding cut"; "\bgovernor\b.*\brace\b";
  "\bWorld Cup\b"; "\bSuper Bowl\b"
].

Definition ENTERPRISE_SIGNALS : list (Z * string) := [
  (2, "\binvestigat"); (2, "\bexclusive\b");
  (2, ("\bexpos[e" +:+ String (ascii_of_nat 233) "" +:+ "]"));
  (2, "\buncovered?\b"); (2, "\breveals?\b");
  (2, "\bobtained\s+(?:by|through|via)\b");
  (2, "\brecords\s+(?:show|reveal|obtained)\b"); (2, "\bpublic records\b");
  (2, "\bdocuments\s+(?:show|reveal|obtained)\b");
  (1, "\baccording to\s+(?:records|documents|data|filings)\b");
  (2, "\baccountab"); (2, "\bwhistleblow"); (1, "\baudit\b");
  (1, "\boversight\b"); (1, "\bmisconduct\b"); (1, "\ballegation");
  (1, "\bfraud\b"); (1, "\bcorrupt"); (1, "\bwithhold");
  (1, "\btransparenc"); (1, "\bnepotis");
  (2, "\bdata\s+(?:shows?|reveals?|analysis)\b");
  (1, "\banalysis\s+(?:of|by|shows?|finds?)\b");
  (1, "\bstudy\s+(?:finds?|shows?|ranks?)\b");
  (1, "\branks?\b.*\b(?:least|most|worst|best|first|last)\b");
  (1, "\baccording to\s+(?:a|an|the)\s+(?:new\s+)?(?:study|report|analysis|survey)\b");
  (1, "\bin-depth\b"); (1, "\bdeep dive\b"); (1, "\blong.?read\b");
  (1, "\breport(?:ing)?\s+(?:by|from)\b"); (1, "\bprofile[sd]?\b");
  (1, "\bparadox\b"); (1, "\bbreakthrough\b");
  (1, "\bwhy\b.*\b(?:are|is|do|does|did|has|have|can)\b");
  (1, "\bhow\b.*\b(?:are|is|do|does|did|has|have|can)\b");
  (1, "\bcould\b.*\b(?:reshape|transform|change|signal|mean)\b");
  (1, "\braises?\s+(?:questions?|concerns?|alarm)\b"); (1, "\bimplication");
  (1, "\bshifting?\b.*\b(?:landscape|dynamic|equation|calculus)\b");
  (1, "\bCenter for Investigative\b"); (1, "\bReveal\b"); (1, "\bMarkup\b")
].

Definition ENTERPRISE_THRESHOLD : Z := 3.
(** ** Output records *)

Record theme_tag : Type := {
  name : string;
  strength : Z
}.

Record processed : Type := {
  id : string;
  title : string;
  summary : string;
  link : string;
  source : string;
  county : string;
  published : field;
  themes : list theme_tag;
  nationalSignificance : Z;
  isEnterprise : bool;
  ageDays : Q;
  rankScore : Q
}.

(** The input record a processed story was built from. *)
Definition raw (p : processed) : story :=
  {| s_title := title p; s_summary := summary p; s_link := link p;
     s_source := source p; s_county := county p;
     s_published := published p |}.

(** ** The story processor *)

Section Processor.

Context `{Runtime}.

(** [f"{title} {summary}"] *)
Definition combined (title summary : string) : string :=
  title +:+ " " +:+ summary.

Definition detect_enterprise (title summary : string) : bool * Z :=
  let combined := combined title summary in
  let score :=
    fold_left
      (fun score '(weight, pattern) =>
         if re_search pattern combined then score + weight else score)
      ENTERPRISE_SIGNALS 0 in
  (ENTERPRISE_THRESHOLD <=? score, score).

Definition tag_themes (title summary : string) : list theme_tag :=
  let combined := combined title summary in
  let themes :=
    fold_left
      (fun themes '(theme, patterns) =>
         let score :=
           py_sum ((fun _ => 1)
                     <$> List.filter (fun p => re_search p combined) patterns) in
         if 1 <=? score
         then themes ++ [ {| name := theme; strength := Z.min score 5 |} ]
         else themes)
      THEME_KEYWORDS [] in
  stable_sort (fun a b => - strength a <? - strength b) themes.

Definition score_national (title summary : string) (themes : list theme_tag)
  : Z :=
  let combined := combined title summary in
  let score :=
    fold_left
      (fun score pattern =>
         if re_search pattern combined then score + 2 else score)
      NATIONAL_KEYWORDS 0 in
  let score := if (2 <=? length themes)%nat then score + 1 else score in
  let score := if (3 <=? length themes)%nat then score + 1 else score in
  let max_strength := py_max_default 0 (strength <$> themes) in
  let score := if 3 <=? max_strength then score + 1 else score in
  Z.min score 10.

(** [pub_dt] of the [try] block: a missing key raises [KeyError], which
    the handler does not catch; [None.replace] raises [AttributeError]
    and an unparseable string [ValueError], which it does. *)
Definition parse_published (now : Z) (published : field) : result datetime :=
  match published with
  | Absent => Raise KeyError
  | Null => Ok (Aware now)
  | Text p =>
      match fromisoformat (Str.replace_Z p) with
      | Some pub_dt => Ok pub_dt
      | None => Ok (Aware now)
      end
  end.

(** [age_days = max(0, (now - pub_dt).total_seconds() / 86400)] *)
Definition age_days_of (delta_us : Z) : Q :=
  py_max 0 (fl (total_seconds delta_us / 86400)).

(** [recency_penalty] *)
Definition recency_penalty_of (age_days : Q) : Q :=
  if Qltb 2 age_days then py_min (fl (fl (age_days - 2) * 0.5)) 3 else 0.

(** The body of the loop of [process_stories] for a story that is not
    a duplicate. *)
Definition process_one (now : Z) (s : story) : result processed :=
  let themes := tag_themes (s_title s) (s_summary s) in
  let nat_score := score_national (s_title s) (s_summary s) themes in
  let '(is_ent, ent_score) := detect_enterprise (s_title s) (s_summary s) in
  let nat_score := if is_ent then Z.min (nat_score + 2) 10 else nat_score in
  let story_id := Str.take 12 (md5_hexdigest (s_title s +:+ s_link s)) in
  pub_dt ← parse_published now (s_published s);
  delta ← sub_datetime now pub_dt;
  let age_days := age_days_of delta in
  let recency_penalty := recency_penalty_of age_days in
  let rank_score := fl (inject_Z nat_score - recency_penalty) in
  Ok {| id := story_id;
        title := s_title s;
        summary := s_summary s;
        link := s_link s;
        source := s_source s;
        county := s_county s;
        published := s_published s;
        themes := themes;
        nationalSignificance := nat_score;
        isEnterprise := is_ent;
        ageDays := py_round age_days 1;
        rankScore := py_round rank_score 2 |}.

(** The loop of [process_stories]: the list [processed] before it is
    sorted. *)
Fixpoint collect_from (now : Z) (seen_titles : gset string)
  (stories : list story) : result (list processed) :=
  match stories with
  | [] => Ok []
  | s :: rest =>
      let n := norm (s_title s) in
      if decide (n ∈ seen_titles) then collect_from now seen_titles rest
      else
        p ← process_one now s;
        ps ← collect_from now ({[ n ]} ∪ seen_titles) rest;
        Ok (p :: ps)
  end.

Definition collect (now : Z) (stories : list story)
  : result (list processed) :=
  collect_from now ∅ stories.

(** [processed.sort(key=lambda x: x["published"], reverse=True)] *)
Definition sort_by_published (l : list processed) : result (list processed) :=
  stable_sort_M (fun a b => field_lt (published b) (published a)) l.

(** [processed.sort(key=lambda x: -x["rankScore"])] *)
Definition sort_by_rank (l : list processed) : list processed :=
  stable_sort (fun a b => Qltb (- rankScore a) (- rankScore b)) l.

(** [process_stories(stories)], with the clock read at its first line
    as the argument [now]. *)
Definition process_stories (now : Z) (stories : list story)
  : result (list processed) :=
  processed ← collect now stories;
  by_date ← sort_by_published processed;
  Ok (sort_by_rank by_date).

End Processor.

(** ** A reference runtime

    One instance of [Runtime], used to run the processor on concrete
    batches: a matcher for the fragment of [re] syntax the keyword tables
    are written in, the ISO formats [datetime.fromisoformat] reads, and
    MD5. *)

Module Regex.

Inductive re : Type :=
| Eps
| Lit (c : ascii)
| AnyChar
| Class (negated : bool) (ranges : list (ascii * ascii))
| Digit
| Space
| WordBoundary
| Cat (a b : re)
| Alt (a b : re)
| Rep (r : re) (lo : nat) (hi : option nat).

(** *** Character tests, on code points below 256 *)

Definition in_range (lo hi n : nat) : bool := ((lo <=? n) && (n <=? hi))%nat.

(** [\d] *)
Definition is_digit (c : ascii) : bool := in_range 48 57 (Str.code c).

(** [\s] *)
Definition is_space (c : ascii) : bool :=
  let n := Str.code c in
  in_range 9 13 n || in_range 28 32 n || (n =? 133)%nat || (n =? 160)%nat.

(** [\w]: alphanumeric or underscore *)
Definition is_word (c : ascii) : bool :=
  let n := Str.code c in
  in_range 48 57 n || in_range 65 90 n || in_range 97 122 n || (n =? 95)%nat
  || (n =? 170)%nat || (n =? 178)%nat || (n =? 179)%nat || (n =? 181)%nat
  || (n =? 185)%nat || (n =? 186)%nat || in_range 188 190 n
  || in_range 192 214 n || in_range 216 246 n || in_range 248 255 n.

Definition is_word_opt (c : option ascii) : bool :=
  match c with
  | Some c => is_word c
  | None => false
  end.

(** Under [re.IGNORECASE] a literal matches up to [lower]. *)
Definition lit_matches (c d : ascii) : bool :=
  Ascii.eqb (Str.lower_char c) (Str.lower_char d).

(** Under [re.IGNORECASE] the members of a class are lowered, and so is
    the character tested against it. *)
Definition range_matches (d : ascii) (r : ascii * ascii) : bool :=
  let lo := Str.code (fst r) in
  let hi := Str.code (snd r) in
  existsb (fun n => lit_matches (ascii_of_nat n) d) (seq lo (S hi - lo)).

Definition class_matches (negated : bool) (ranges : list (ascii * ascii))
  (d : ascii) : bool :=
  xorb negated (existsb (range_matches d) ranges).

(** *** Matching

    [run r prev s k]: [r] matches a prefix of [s], the character before
    [s] being [prev], and [k] accepts what is left. *)

Definition cont : Type := option ascii -> string -> bool.

Definition one (p : ascii -> bool) (s : string) (k : cont) : bool :=
  match s with
  | EmptyString => false
  | String d s' => if p d then k (Some d) s' else false
  end.

Definition shorter (s' s : string) : bool :=
  (String.length s' <? String.length s)%nat.

Definition dec_hi (hi : option nat) : option nat :=
  match hi with
  | Some n => Some (Nat.pred n)
  | None => None
  end.

Definition hi_is_zero (hi : option nat) : bool :=
  match hi with
  | Some O => true
  | _ => false
  end.

(** Between [lo] and [hi] iterations of [step]; once [lo] is reached an
    iteration has to consume input. *)
Fixpoint rep (step : option ascii -> string -> cont -> bool) (fuel : nat)
  (lo : nat) (hi : option nat) (prev : option ascii) (s : string) (k : cont)
  : bool :=
  match fuel with
  | O => false
  | S fuel' =>
      let again (_ : unit) :=
        if hi_is_zero hi then false
        else step prev s (fun prev' s' =>
               if match lo with
                  | O => shorter s' s
                  | S _ => true
                  end
               then rep step fuel' (Nat.pred lo) (dec_hi hi) prev' s' k
               else false) in
      match lo with
      | O => if k prev s then true else again tt
      | S _ => again tt
      end
  end.

Fixpoint run (r : re) (prev : option ascii) (s : string) (k : cont) : bool :=
  match r with
  | Eps => k prev s
  | Lit c => one (lit_matches c) s k
  | AnyChar => one (fun d => negb (Str.code d =? 10)%nat) s k
  | Class negated ranges => one (class_matches negated ranges) s k
  | Digit => one is_digit s k
  | Space => one is_space s k
  | WordBoundary =>
      let next := match s with
                  | EmptyString => None
                  | String d _ => Some d
                  end in
      if xorb (is_word_opt prev) (is_word_opt next) then k prev s else false
  | Cat a b => run a prev s (fun prev' s' => run b prev' s' k)
  | Alt a b => if run a prev s k then true else run b prev s k
  | Rep r' lo hi => rep (run r') (S (lo + String.length s)) lo hi prev s k
  end.

(** [re.search]: a match starting at some position of the text. *)
Fixpoint search_from (r : re) (prev : option ascii) (s : string) : bool :=
  if run r prev s (fun _ _ => true) then true
  else match s with
       | EmptyString => false
       | String d s' => search_from r (Some d) s'
       end.

(** *** Parsing a pattern *)

Fixpoint parse_nat (acc : option nat) (s : string) : option nat * string :=
  match s with
  | String c s' =>
      if is_digit c
      then parse_nat (Some (10 * default 0%nat acc + (Str.code c - 48))%nat) s'
      else (acc, s)
  | EmptyString => (acc, s)
  end.

Definition starts (p s : string) : bool := bool_decide (is_Some (Str.strip p s)).

(** The quantifier in front of [s], applied to [r]. *)
Definition parse_quantifier (r : re) (s : string) : option (re * string) :=
  if Str.strip "?" s is Some s' then Some (Rep r 0 (Some 1%nat), s')
  else if Str.strip "*" s is Some s' then Some (Rep r 0 None, s')
  else if Str.strip "+" s is Some s' then Some (Rep r 1 None, s')
  else if Str.strip "{" s is Some s' then
    match parse_nat None s' with
    | (Some lo, s'') =>
        if Str.strip "}" s'' is Some s3 then Some (Rep r lo (Some lo), s3)
        else if Str.strip "," s'' is Some s3 then
          let '(hi, s4) := parse_nat None s3 in
          if Str.strip "}" s4 is Some s5 then Some (Rep r lo hi, s5) else None
        else None
    | (None, _) => None
    end
  else Some (r, s).

(** The members of a class, up to its closing bracket. *)
Fixpoint parse_class (fuel : nat) (acc : list (ascii * ascii)) (s : string)
  : option (list (ascii * ascii) * string) :=
  match fuel with
  | O => None
  | S fuel' =>
      if Str.strip "]" s is Some s' then Some (acc, s')
      else if starts "\" s then None
      else
        match s with
        | String lo (String dash (String hi s')) =>
            if Ascii.eqb dash "-" && negb (Ascii.eqb hi "]")
            then parse_class fuel' (acc ++ [(lo, hi)]) s'
            else parse_class fuel' (acc ++ [(lo, lo)])
                   (String dash (String hi s'))
        | String c s' => parse_class fuel' (acc ++ [(c, c)]) s'
        | EmptyString => None
        end
  end.

Definition is_special (c : ascii) : bool :=
  existsb (Ascii.eqb c) (list_ascii_of_string "?*+{}()[]|^$").

Definition at_seq_end (s : string) : bool :=
  match s with
  | EmptyString => true
  | String c _ => Ascii.eqb c "|" || Ascii.eqb c ")"
  end.

Fixpoint parse_alt (fuel : nat) (s : string) : option (re * string) :=
  match fuel with
  | O => None
  | S fuel' =>
      match parse_seq fuel' s with
      | Some (a, s') =>
          if Str.strip "|" s' is Some s'' then
            match parse_alt fuel' s'' with
            | Some (b, s3) => Some (Alt a b, s3)
            | None => None
            end
          else Some (a, s')
      | None => None
      end
  end
with parse_seq (fuel : nat) (s : string) : option (re * string) :=
  match fuel with
  | O => None
  | S fuel' =>
      if at_seq_end s then Some (Eps, s)
      else
        match parse_atom fuel' s with
        | Some (a, s') =>
            match parse_quantifier a s' with
            | Some (a', s'') =>
                match parse_seq fuel' s'' with
                | Some (b, s3) => Some (Cat a' b, s3)
                | None => None
                end
            | None => None
            end
        | None => None
        end
  end
with parse_atom (fuel : nat) (s : string) : option (re * string) :=
  match fuel with
  | O => None
  | S fuel' =>
      if Str.strip "(?:" s is Some s' then
        match parse_alt fuel' s' with
        | Some (r, s'') =>
            if Str.strip ")" s'' is Some s3 then Some (r, s3) else None
        | None => None
        end
      else if Str.strip "[^" s is Some s' then
        match parse_class fuel' [] s' with
        | Some (ranges, s'') => Some (Class true ranges, s'')
        | None => None
        end
      else if Str.strip "[" s is Some s' then
        match parse_class fuel' [] s' with
        | Some (ranges, s'') => Some (Class false ranges, s'')
        | None => None
        end
      else if Str.strip "\b" s is Some s' then Some (WordBoundary, s')
      else if Str.strip "\d" s is Some s' then Some (Digit, s')
      else if Str.strip "\s" s is Some s' then Some (Space, s')
      else if Str.strip "\" s is Some s' then
        match s' with
        | String c s'' => if is_word c then None else Some (Lit c, s'')
        | EmptyString => None
        end
      else if Str.strip "." s is Some s' then Some (AnyChar, s')
      else
        match s with
        | String c s' => if is_special c then None else Some (Lit c, s')
        | EmptyString => None
        end
  end.

(** [re.compile(pattern)]; [None] stands for [re.error], and for a
    pattern outside the fragment. *)
Definition parse (pattern : string) : option re :=
  match parse_alt (3 * String.length pattern + 3) pattern with
  | Some (r, EmptyString) => Some r
  | _ => None
  end.

Definition search (pattern text : string) : bool :=
  match parse pattern with
  | Some r => search_from r None text
  | None => false
  end.

End Regex.

Module MD5.

Definition word : Z := 2 ^ 32.

Definition add32 (a b : Z) : Z := (a + b) mod word.

Definition not32 (a : Z) : Z := Z.lxor a (word - 1).

Definition rotl32 (x c : Z) : Z :=
  Z.lor (Z.shiftl x c mod word) (Z.shiftr x (32 - c)).

(** The per-round shift amounts. *)
Definition shifts : list Z := [
    7; 12; 17; 22; 7; 12; 17; 22; 7; 12; 17; 22; 7; 12; 17; 22; 5; 9; 14;
    20; 5; 9; 14; 20; 5; 9; 14; 20; 5; 9; 14; 20; 4; 11; 16; 23; 4; 11; 16;
    23; 4; 11; 16; 23; 4; 11; 16; 23; 6; 10; 15; 21; 6; 10; 15; 21; 6; 10;
    15; 21; 6; 10; 15; 21
].

(** [floor(2^32 * abs(sin(i + 1)))] for [i] from 0 to 63. *)
Definition sines : list Z := [
    3614090360; 3905402710; 606105819; 3250441966; 4118548399; 1200080426;
    2821735955; 4249261313; 1770035416; 2336552879; 4294925233; 2304563134;
    1804603682; 4254626195; 2792965006; 1236535329; 4129170786; 3225465664;
    643717713; 3921069994; 3593408605; 38016083; 3634488961; 3889429448;
    568446438; 3275163606; 4107603335; 1163531501; 2850285829; 4243563512;
    1735328473; 2368359562; 4294588738; 2272392833; 1839030562; 4259657740;
    2763975236; 1272893353; 4139469664; 3200236656; 681279174; 3936430074;
    3572445317; 76029189; 3654602809; 3873151461; 530742520; 3299628645;
    4096336452; 1126891415; 2878612391; 4237533241; 1700485571; 2399980690;
    4293915773; 2240044497; 1873313359; 4264355552; 2734768916; 1309151649;
    4149444226; 3174756917; 718787259; 3951481745
].

(** [text.encode()]: UTF-8 of code points below 256. *)
Fixpoint utf8 (s : string) : list Z :=
  match s with
  | EmptyString => []
  | String c r =>
      let n := Z.of_nat (Str.code c) in
      if n <? 128 then n :: utf8 r
      else Z.lor 192 (Z.shiftr n 6) :: Z.lor 128 (Z.land n 63) :: utf8 r
  end.

(** [n] as [k] little-endian bytes. *)
Fixpoint le_bytes (k : nat) (n : Z) : list Z :=
  match k with
  | O => []
  | S k' => n mod 256 :: le_bytes k' (n / 256)
  end.

Fixpoint of_le_bytes (bs : list Z) : Z :=
  match bs with
  | [] => 0
  | b :: r => b + 256 * of_le_bytes r
  end.

(** The message followed by a one bit, zeros up to 56 modulo 64, and
    its length in bits. *)
Definition pad (msg : list Z) : list Z :=
  let n := Z.of_nat (length msg) in
  let zeros := Z.to_nat ((55 - n) mod 64) in
  msg ++ [128] ++ replicate zeros 0 ++ le_bytes 8 ((8 * n) mod 2 ^ 64).

Fixpoint chunks (fuel : nat) (k : nat) (bs : list Z) : list (list Z) :=
  match fuel with
  | O => []
  | S fuel' =>
      match bs with
      | [] => []
      | _ => take k bs :: chunks fuel' k (drop k bs)
      end
  end.

Definition state : Type := Z * Z * Z * Z.

Definition step (m : list Z) (st : state) (i : nat) : state :=
  let '(a, b, c, d) := st in
  let iz := Z.of_nat i in
  let '(f, g) :=
    if iz <? 16 then (Z.lor (Z.land b c) (Z.land (not32 b) d), iz)
    else if iz <? 32 then
      (Z.lor (Z.land d b) (Z.land (not32 d) c), (5 * iz + 1) mod 16)
    else if iz <? 48 then (Z.lxor (Z.lxor b c) d, (3 * iz + 5) mod 16)
    else (Z.lxor c (Z.lor b (not32 d)), (7 * iz) mod 16) in
  let f' := add32 (add32 (add32 f a) (sines !!! i)) (m !!! Z.to_nat g) in
  (d, add32 b (rotl32 f' (shifts !!! i)), b, c).

Definition block (st : state) (bytes : list Z) : state :=
  let m := of_le_bytes <$> chunks 16 4 bytes in
  let '(a, b, c, d) := st in
  let '(a', b', c', d') := fold_left (step m) (seq 0 64) st in
  (add32 a a', add32 b b', add32 c c', add32 d d').

Definition hex_digit (n : Z) : ascii :=
  ascii_of_nat (Z.to_nat (if n <? 10 then 48 + n else 87 + n)).

Fixpoint hex (bs : list Z) : string :=
  match bs with
  | [] => EmptyString
  | b :: r => String (hex_digit (b / 16)) (String (hex_digit (b mod 16)) (hex r))
  end.

Definition digest (msg : list Z) : list Z :=
  let padded := pad msg in
  let '(a, b, c, d) :=
    fold_left block (chunks (length padded) 64 padded)
      (1732584193, 4023233417, 2562383102, 271733878) in
  le_bytes 4 a ++ le_bytes 4 b ++ le_bytes 4 c ++ le_bytes 4 d.

(** [hashlib.md5(text.encode()).hexdigest()] *)
Definition hexdigest (text : string) : string := hex (digest (utf8 text)).

End MD5.

Module Iso.

(** [n] decimal digits in front of [s]. *)
Fixpoint digits (n : nat) (acc : Z) (s : string) : option (Z * string) :=
  match n with
  | O => Some (acc, s)
  | S n' =>
      match s with
      | String c s' =>
          if Regex.is_digit c
          then digits n' (10 * acc + Z.of_nat (Str.code c - 48)) s'
          else None
      | EmptyString => None
      end
  end.

Definition is_leap (y : Z) : bool :=
  (y mod 4 =? 0) && (negb (y mod 100 =? 0) || (y mod 400 =? 0)).

Definition days_in_month (y m : Z) : Z :=
  if m =? 2 then (if is_leap y then 29 else 28)
  else if (m =? 4) || (m =? 6) || (m =? 9) || (m =? 11) then 30
  else 31.

(** Days from 1970-01-01 to the given date of the proleptic Gregorian
    calendar. *)
Definition days_from_civil (y m d : Z) : Z :=
  let y' := if m <=? 2 then y - 1 else y in
  let era := y' / 400 in
  let yoe := y' - era * 400 in
  let doy := (153 * (if 2 <? m then m - 3 else m + 9) + 2) / 5 + d - 1 in
  let doe := yoe * 365 + yoe / 4 - yoe / 100 + doy in
  era * 146097 + doe - 719468.

Definition micros (y m d hh mm ss us : Z) : Z :=
  ((days_from_civil y m d * 24 + hh) * 60 + mm) * 60000000
  + ss * 1000000 + us.

(** [HH[:MM[:SS]]] in front of [s]. *)
Definition hh_mm_ss (s : string) : option (Z * Z * Z * string) :=
  '(hh, s) ← digits 2 0 s;
  match Str.strip ":" s with
  | None => Some (hh, 0, 0, s)
  | Some s =>
      '(mm, s) ← digits 2 0 s;
      match Str.strip ":" s with
      | None => Some (hh, mm, 0, s)
      | Some s => '(ss, s) ← digits 2 0 s; Some (hh, mm, ss, s)
      end
  end.

Fixpoint skip_digits (s : string) : string :=
  match s with
  | String c s' => if Regex.is_digit c then skip_digits s' else s
  | EmptyString => s
  end.

(** The microseconds of a fraction: its first six digits, with zeros
    for the missing ones; further digits are dropped. *)
Fixpoint fraction_digits (n : nat) (acc : Z) (s : string) : Z * string :=
  match n with
  | O => (acc, skip_digits s)
  | S n' =>
      match s with
      | String c s' =>
          if Regex.is_digit c
          then fraction_digits n' (10 * acc + Z.of_nat (Str.code c - 48)) s'
          else (acc * 10 ^ Z.of_nat n, s)
      | EmptyString => (acc * 10 ^ Z.of_nat n, s)
      end
  end.

(** A fraction, [.f] or [,f] with one digit or more, or nothing. *)
Definition fraction (s : string) : option (Z * string) :=
  match s with
  | String c (String d _ as s') =>
      if Ascii.eqb c "." || Ascii.eqb c ","
      then if Regex.is_digit d then Some (fraction_digits 6 0 s') else None
      else Some (0, s)
  | String c EmptyString =>
      if Ascii.eqb c "." || Ascii.eqb c "," then None else Some (0, s)
  | EmptyString => Some (0, s)
  end.

(** The UTC offset [+HH[:MM[:SS]]] or [-HH[:MM[:SS]]], in microseconds:
    less than a day. *)
Definition offset (s : string) : option Z :=
  match s with
  | String sign s1 =>
      '(hh, mm, ss, s2) ← hh_mm_ss s1;
      let seconds := (hh * 60 + mm) * 60 + ss in
      if negb (bool_decide (s2 = EmptyString)) || (86400 <=? seconds)
      then None
      else if Ascii.eqb sign "+" then Some (seconds * 1000000)
      else if Ascii.eqb sign "-" then Some (- (seconds * 1000000))
      else None
  | EmptyString => None
  end.

(** The strings of the extended format,
    [YYYY-MM-DD[*HH[:MM[:SS]][.f][+HH[:MM[:SS]]]]], which
    [datetime.isoformat()] writes and [datetime.fromisoformat] reads;
    the separator [*] may be any character. Every other string is
    unparseable here; Python reads some of them (dates without
    dashes, week dates, times without colons, an empty fraction, a
    fraction in the offset), none of which the acquisition stage
    writes. *)
Definition fromisoformat (s : string) : option datetime :=
  '(y, s) ← digits 4 0 s;
  s ← Str.strip "-" s;
  '(m, s) ← digits 2 0 s;
  s ← Str.strip "-" s;
  '(d, s) ← digits 2 0 s;
  if (y <? 1) || (m <? 1) || (12 <? m) || (d <? 1) || (days_in_month y m <? d)
  then None
  else
    match s with
    | EmptyString => Some (Naive (micros y m d 0 0 0 0))
    | String _ s =>
        '(hh, mm, ss, s) ← hh_mm_ss s;
        '(us, s) ← fraction s;
        if (24 <=? hh) || (60 <=? mm) || (60 <=? ss) then None
        else
          let local := micros y m d hh mm ss us in
          match s with
          | EmptyString => Some (Naive local)
          | _ => off ← offset s; Some (Aware (local - off))
          end
    end.

End Iso.

#[global] Instance reference_runtime : Runtime := {|
  re_search := Regex.search;
  fromisoformat := Iso.fromisoformat;
  md5_hexdigest := MD5.hexdigest
|}.

(** ** The vocabulary of the specification *)

(** The order a stable sort by [lt] leaves on a list that stood in the
    order [before]: by [lt] first, by [before] among the elements that
    [lt] does not separate. *)
Definition lex {A : Type} (lt : A -> A -> bool) (before : relation A)
  : relation A := fun a b =>
  lt a b = true \/ (lt a b = false /\ lt b a = false /\ before a b).

(** The string under ["published"], when there is one. *)
Definition published_text (p : processed) : string :=
  match published p with
  | Text x => x
  | _ => ""
  end.

Definition has_text (p : processed) : Prop :=
  exists x, published p = Text x.

(** The comparisons of the two sorts of [process_stories], the first
    one on records that hold a string under ["published"]. *)
Definition published_lt (a b : processed) : bool :=
  String.ltb (published_text b) (published_text a).

Definition rank_lt (a b : processed) : bool :=
  Qltb (- rankScore a) (- rankScore b).

(** The comparison of the sort of [tag_themes]. *)
Definition strength_lt (a b : theme_tag) : bool :=
  - strength a <? - strength b.

(** Two processed stories both hold a string under ["published"], and
    the one of [a] is not below the one of [b], code point by code
    point. *)
Definition published_ge (a b : processed) : Prop :=
  match published a, published b with
  | Text x, Text y => String.leb y x = true
  | _, _ => False
  end.

(** The order of the digest: by [rankScore] downwards, and by
    ["published"] downwards among equal [rankScore]. *)
Definition rank_order (a b : processed) : Prop :=
  (rankScore b < rankScore a)%Q
  \/ (rankScore a == rankScore b /\ published_ge a b)%Q.

(** [x] stands before [y] in the enumeration [names]. *)
Definition enum_before (names : list string) (x y : string) : Prop :=
  exists i j : nat,
    (i < j)%nat /\ names !! i = Some x /\ names !! j = Some y.

(** The order of the tags of a story: by [strength] downwards, and in
    the order of the categories among equal [strength]. *)
Definition theme_order (a b : theme_tag) : Prop :=
  strength b < strength a
  \/ (strength a = strength b
      /\ enum_before (fst <$> THEME_KEYWORDS) (name a) (name b)).

Section Vocabulary.

Context `{Runtime}.

(** The number of distinct patterns of [patterns] that match [text]. *)
Definition distinct_matching (patterns : list string) (text : string) : Z :=
  Z.of_nat
    (size (list_to_set (List.filter (fun p => re_search p text) patterns)
           : gset string)).

(** The sum of the weights of the signals whose pattern matches. *)
Definition matching_weight (signals : list (Z * string)) (text : string) : Z :=
  foldr Z.add 0
    (fst <$> List.filter (fun wp => re_search (snd wp) text) signals).

(** The national score before the enterprise boost, in the words of
    the specification. The search text is the title, a single space
    and the summary; [re_search] ignores case. *)
Definition national_base (title summary : string) (themes : list theme_tag)
  : Z :=
  Z.min 10
    (2 * distinct_matching NATIONAL_KEYWORDS (title +:+ " " +:+ summary)
     + (if bool_decide (2 <= length themes)%nat then 1 else 0)
     + (if bool_decide (3 <= length themes)%nat then 1 else 0)
     + (if bool_decide (Exists (fun t => 3 <= strength t) themes)
        then 1 else 0)).

(** The strength of a category, in the words of the specification. *)
Definition category_strength (patterns : list string) (title summary : string)
  : Z :=
  Z.min (distinct_matching patterns (title +:+ " " +:+ summary)) 5.

(** The tag of a category: there is one when at least one of its
    patterns matches. *)
Definition category_tag (title summary : string)
  (entry : string * list string) : option theme_tag :=
  if bool_decide (1 <= distinct_matching entry.2 (title +:+ " " +:+ summary))
  then Some {| name := entry.1;
               strength := category_strength entry.2 title summary |}
  else None.

End Vocabulary.

(** [(now - published)] in days, never below 0, in floating point: the
    microseconds between the two instants as a float of seconds, divided
    by the seconds of a day. *)
Definition age_in_days (now published_us : Z) : Q :=
  Qmax 0 (fl (fl (inject_Z (now - published_us) / 1000000) / 86400)).


(** The recency penalty, in the words of the specification, in floating
    point. *)
Definition penalty_for (age : Q) : Q :=
  if Qle_bool age 2 then 0 else Qmin (fl (fl (age - 2) * (1 # 2))) 3.

(** ** Sample batches *)

Module Sample.

(** 2024-03-11T00:00:00 UTC *)
Definition now : Z := 1710115200000000.

Definition item (title summary : string) (published : field) : story :=
  {| s_title := title; s_summary := summary;
     s_link := "https://example.org/story"; s_source := "Example Daily";
     s_county := "Alameda"; s_published := published |}.

Definition quiet : story :=
  item "Quiet day at the lake" "" (Text "2024-03-10T00:00:00+00:00").

Definition federal : story :=
  item "Federal budget" "" (Text "2024-03-10T00:00:00+00:00").

Definition ten_days_old : story :=
  item "Exclusive: Leaked Records Reveal City Spent $40 Million Without Oversight"
    "public records audit accountability" (Text "2024-03-01T00:00:00Z").

Definition no_date : story := item "Quiet day at the lake" "" Null.

Definition no_key : story := item "Quiet day at the lake" "" Absent.

Definition bad_date : story := item "Quiet day at the lake" "" (Text "yesterday").

(** Two titles that agree on their first 60 letters and digits. *)
Definition long_one : story :=
  item "Supervisors approve regional transit funding plan after months of debate, part one"
    "" (Text "2024-03-10T00:00:00+00:00").

Definition long_two : story :=
  item "Supervisors approve regional transit funding plan after months of debate, part two"
    "" (Text "2024-03-09T00:00:00+00:00").

(** What the processor makes of [federal], [quiet] and [ten_days_old]
    at [now]. *)
Definition federal_out : processed :=
  {| id := "8679c58ac106"; title := "Federal budget"; summary := "";
     link := "https://example.org/story"; source := "Example Daily";
     county := "Alameda"; published := Text "2024-03-10T00:00:00+00:00";
     themes := [ {| name := "Governance & Power"; strength := 2 |} ];
     nationalSignificance := 2; isEnterprise := false;
     ageDays := 1 # 1; rankScore := 2 # 1 |}.

Definition quiet_out : processed :=
  {| id := "5c342ecb610a"; title := "Quiet day at the lake"; summary := "";
     link := "https://example.org/story"; source := "Example Daily";
     county := "Alameda"; published := Text "2024-03-10T00:00:00+00:00";
     themes := []; nationalSignificance := 0; isEnterprise := false;
     ageDays := 1 # 1; rankScore := 0 # 1 |}.

Definition ten_days_old_out : processed :=
  {| id := "e26afa55f052";
     title := "Exclusive: Leaked Records Reveal City Spent $40 Million Without Oversight";
     summary := "public records audit accountability";
     link := "https://example.org/story"; source := "Example Daily";
     county := "Alameda"; published := Text "2024-03-01T00:00:00Z";
     themes := [ {| name := "Governance & Power"; strength := 1 |} ];
     nationalSignificance := 2; isEnterprise := true;
     ageDays := 10 # 1; rankScore := (-1) # 1 |}.

End Sample.

(** ** More of Python's [str] *)

Module Text.

(** The characters [str.strip()] removes: those of [str.isspace()]. *)
Definition is_space (c : ascii) : bool := Regex.is_space c.

(** [s.lstrip()] *)
Fixpoint lstrip (s : string) : string :=
  match s with
  | EmptyString => EmptyString
  | String c r => if is_space c then lstrip r else s
  end.

(** [s.rstrip()] *)
Fixpoint rstrip (s : string) : string :=
  match s with
  | EmptyString => EmptyString
  | String c r =>
      match rstrip r with
      | EmptyString => if is_space c then EmptyString else String c EmptyString
      | r' => String c r'
      end
  end.

(** [s.strip()] *)
Definition strip (s : string) : string := rstrip (lstrip s).

Definition is_gt (c : ascii) : bool := Ascii.eqb c ">".

Definition is_lt (c : ascii) : bool := Ascii.eqb c "<".

(** [re.sub(r"<[^>]+>", "", s)], read from left to right. [pending] holds
    the characters met since a [<] that may still open a match: the match
    is complete, and dropped, at the next [>] if at least one character
    stands between them; it fails, and the characters are kept, when the
    [>] follows at once or never comes. *)
Fixpoint strip_tags_from (pending : option string) (s : string) : string :=
  match s with
  | EmptyString =>
      match pending with
      | Some opened => opened
      | None => EmptyString
      end
  | String c r =>
      match pending with
      | None =>
          if is_lt c then strip_tags_from (Some (String c EmptyString)) r
          else String c (strip_tags_from None r)
      | Some opened =>
          if is_gt c then
            if (String.length opened =? 1)%nat
            then opened +:+ String c (strip_tags_from None r)
            else strip_tags_from None r
          else strip_tags_from (Some (opened +:+ String c EmptyString)) r
      end
  end.

Definition strip_tags (s : string) : string := strip_tags_from None s.

(** [s[n:]] for [0 <= n] *)
Fixpoint drop (n : nat) (s : string) : string :=
  match n, s with
  | O, _ => s
  | S n', String _ r => drop n' r
  | S _, EmptyString => EmptyString
  end.

Definition starts (sub s : string) : bool :=
  match Str.strip sub s with
  | Some _ => true
  | None => false
  end.

(** The lowest position of [s] at which [sub] stands. *)
Fixpoint index_of (sub s : string) : option nat :=
  if starts sub s then Some O
  else
    match s with
    | EmptyString => None
    | String _ r => S <$> index_of sub r
    end.

(** A slice bound [i] of a sequence of length [len]: counted from the
    end when negative, and kept within the sequence. *)
Definition bound (len i : Z) : nat :=
  Z.to_nat (if i <? 0 then Z.max 0 (i + len) else Z.min i len).

(** [s[:i]] *)
Definition slice_to (s : string) (i : Z) : string :=
  Str.take (bound (Z.of_nat (String.length s)) i) s.

(** [s[i:]] *)
Definition slice_from (s : string) (i : Z) : string :=
  drop (bound (Z.of_nat (String.length s)) i) s.

(** [s.find(sub, start)] *)
Definition find (s sub : string) (start : Z) : Z :=
  let len := Z.of_nat (String.length s) in
  let start := if start <? 0 then Z.max 0 (start + len) else start in
  if len <? start then -1
  else
    match index_of sub (drop (Z.to_nat start) s) with
    | Some i => start + Z.of_nat i
    | None => -1
    end.

(** The double quote and the newline. *)
Definition quote : string := String (ascii_of_nat 34) EmptyString.

Definition newline : string := String (ascii_of_nat 10) EmptyString.

End Text.

(** ** The acquisition stage *)

(** [COUNTY_PATTERNS], in the order of the dictionary. *)
Definition COUNTY_PATTERNS : list (string * string) := [
  ("San Francisco",
   "san francisco|sf |sfusd|soma|tenderloin|mission district|castro|sunset|richmond district|presidio|bayview|fillmore|nob hill|haight");
  ("Alameda",
   "oakland|berkeley|fremont|hayward|alameda|livermore|pleasanton|dublin|union city|emeryville|piedmont|east bay");
  ("Santa Clara",
   "san jose|silicon valley|santa clara|sunnyvale|mountain view|cupertino|palo alto|milpitas|campbell|los gatos|saratoga|gilroy");
  ("San Mateo",
   "san mateo|daly city|redwood city|half moon bay|burlingame|san bruno|foster city|menlo park|pacifica|belmont");
  ("Contra Costa",
   "contra costa|walnut creek|concord|richmond|antioch|martinez|danville|pleasant hill|san ramon|pittsburg|orinda|lafayette");
  ("Marin",
   "marin|san rafael|novato|mill valley|sausalito|tiburon|fairfax|point reyes|stinson");
  ("Sonoma",
   "sonoma|santa rosa|petaluma|healdsburg|sebastopol|rohnert park|windsor|cloverdale");
  ("Napa",
   "napa|st\.? helena|calistoga|yountville|american canyon");
  ("Solano",
   "solano|vallejo|benicia|fairfield|vacaville|dixon|suisun");
  ("Santa Cruz",
   "santa cruz|watsonville|capitola|scotts valley|aptos|soquel")
].

(** A feed entry, as the values [fetch_one_feed] reads from it:
    [entry.get(key)] for the four keys ([None] when the key is missing),
    and the string [parse_date(entry)] returns. *)
Record entry : Type := {
  e_title : option string;
  e_summary : option string;
  e_description : option string;
  e_link : option string;
  e_date : string
}.

#[global] Instance entry_eq_dec : EqDecision entry.
Proof. solve_decision. Defined.

(** What [feedparser.parse] returns. *)
Record feed : Type := {
  bozo : bool;
  entries : list entry
}.

(** The truth value of [entry.get(key)]. *)
Definition truthy (value : option string) : bool :=
  match value with
  | Some (String _ _) => true
  | _ => false
  end.

(** [re.sub(r"<[^>]+>", "", raw).strip()[:500]] *)
Definition clean_summary (raw : string) : string :=
  Str.take 500 (Text.strip (Text.strip_tags raw)).

Section Acquisition.

Context `{Runtime}.

(** [detect_county(title, summary, default_county)]. The lowered text
    is searched with [re.IGNORECASE], as [re_search] does. *)
Definition detect_county (title summary default_county : string) : string :=
  let text := Str.lower (title +:+ " " +:+ summary) in
  let matches :=
    fold_left
      (fun matches '(county, pattern) =>
         if re_search pattern text then matches ++ [county] else matches)
      COUNTY_PATTERNS [] in
  if (length matches =? 1)%nat then default "" (head matches)
  else if (1 <? length matches)%nat && bool_decide (default_county ∈ matches)
  then default_county
  else if (1 <? length matches)%nat then default "" (head matches)
  else default_county.

(** The [try] block around [pub_dt < cutoff]: an unreadable date, and a
    date without offset, which cannot be compared with [cutoff], leave
    the entry in. *)
Definition before_cutoff (cutoff : Z) (published : string) : bool :=
  match fromisoformat (Str.replace_Z published) with
  | Some (Aware t) => t <? cutoff
  | _ => false
  end.

(** The body of the loop of [fetch_one_feed]: the story of an entry, or
    [None] where the loop goes on to the next entry. *)
Definition entry_story (source_name default_county : string) (cutoff : Z)
  (e : entry) : option story :=
  let title := Text.strip (default "" (e_title e)) in
  if bool_decide (title = "") then None
  else
    let summary :=
      if truthy (e_summary e) then clean_summary (default "" (e_summary e))
      else if truthy (e_description e)
      then clean_summary (default "" (e_description e))
      else "" in
    let link := default "" (e_link e) in
    let published := e_date e in
    if before_cutoff cutoff published then None
    else
      let county := detect_county title summary default_county in
      Some {| s_title := title; s_summary := summary; s_link := link;
              s_source := source_name; s_county := county;
              s_published := Text published |}.

(** [fetch_one_feed(source_name, feed_url, default_county, cutoff_days)],
    given the clock reading [now] and what [feedparser.parse(feed_url)]
    did: [None] when it raised, which the outer handler turns into an
    empty list. *)
Definition fetch_one_feed (source_name : string) (parsed : option feed)
  (default_county : string) (now cutoff_days : Z) : list story :=
  let cutoff := now - cutoff_days * 86400000000 in
  match parsed with
  | None => []
  | Some feed =>
      if bozo feed && bool_decide (entries feed = []) then []
      else omap (entry_story source_name default_county cutoff)
             (take 25 (entries feed))
  end.

End Acquisition.

(** [fetch_all_feeds()], given the lists the feeds returned, in the
    order in which they completed. *)
Definition fetch_all_feeds (results : list (list story)) : list story :=
  unique (concat results).

(** ** The page updater *)

Module Page.

Definition stories_marker : string := "var STORIES = [".

Definition stories_close : string := "];" +:+ Text.newline.

Definition generated_marker : string := "var GENERATED_AT = " +:+ Text.quote.

Definition generated_close : string := Text.quote +:+ ";".

(** The first replacement of [update_html.py]: the [STORIES] array. *)
Definition replace_stories (html stories_json : string) : string :=
  let stories_start := Text.find html stories_marker 0 in
  let stories_end := Text.find html stories_close stories_start + 2 in
  let new_stories_line := "var STORIES = " +:+ stories_json +:+ ";" in
  Text.slice_to html stories_start +:+ new_stories_line
  +:+ Text.slice_from html stories_end.

(** The second replacement: the [GENERATED_AT] timestamp. *)
Definition replace_generated (html generated_at : string) : string :=
  let gen_start := Text.find html generated_marker 0 in
  let gen_end := Text.find html generated_close gen_start + 2 in
  let new_gen_line := generated_marker +:+ generated_at +:+ generated_close in
  Text.slice_to html gen_start +:+ new_gen_line +:+ Text.slice_from html gen_end.

(** The text [update_html.py] writes back, given the text of the page,
    [json.dumps(data["stories"], indent=None)] and
    [data["generated_at"]]. *)
Definition update_html (html stories_json generated_at : string) : string :=
  replace_generated (replace_stories html stories_json) generated_at.

End Page.

(** ** More vocabulary *)

(** [x] stands before [y] in [l]. *)
Definition stands_before {A : Type} (l : list A) (x y : A) : Prop :=
  exists i j : nat, (i < j)%nat /\ l !! i = Some x /\ l !! j = Some y.

(** The complete order of the digest of the batch [stories]: by
    [rankScore] downwards; among equal [rankScore] by the text under
    ["published"] downwards; among equal texts in the order in which the
    batch holds the stories it keeps, its first occurrences. *)
Definition digest_order (stories : list story) (a b : processed) : Prop :=
  (rankScore b < rankScore a)%Q
  \/ ((rankScore a == rankScore b)%Q
      /\ (String.ltb (published_text b) (published_text a) = true
          \/ (published_text a = published_text b
              /\ stands_before (first_occurrences stories) (raw a) (raw b)))).

(** The key of a record in the acquisition stage. *)
Definition feed_key (s : story) : string := key (s_title s).

Section MoreVocabulary.

Context `{Runtime}.

(** The loop body can date the story: the key ["published"] is there,
    and its string, if it parses, parses to a [datetime] with offset. *)
Definition datable (s : story) : Prop :=
  match s_published s with
  | Absent => False
  | Null => True
  | Text text => forall t, fromisoformat (Str.replace_Z text) <> Some (Naive t)
  end.

(** [text] reads as a date without offset. *)
Definition reads_naive (text : string) : bool :=
  match fromisoformat (Str.replace_Z text) with
  | Some (Naive _) => true
  | _ => false
  end.

(** The instant of the string under ["published"], when it reads as a
    date with offset. *)
Definition published_instant (p : processed) : option Z :=
  match published p with
  | Text text =>
      match fromisoformat (Str.replace_Z text) with
      | Some (Aware t) => Some t
      | _ => None
      end
  | _ => None
  end.

(** The order of the digest by instants: by [rankScore] downwards, and
    among equal [rankScore] the later instant first. *)
Definition timestamp_order (a b : processed) : Prop :=
  (rankScore b < rankScore a)%Q
  \/ ((rankScore a == rankScore b)%Q
      /\ exists ta tb : Z,
           published_instant a = Some ta
           /\ published_instant b = Some tb /\ tb <= ta).

Definition holds_text (s : story) : Prop :=
  exists text, s_published s = Text text.

(** The counties of [COUNTY_PATTERNS] whose pattern matches, in the
    order of the table. *)
Definition matching_counties (title summary : string) : list string :=
  fst <$> List.filter
            (fun entry =>
               re_search entry.2 (Str.lower (title +:+ " " +:+ summary)))
            COUNTY_PATTERNS.

End MoreVocabulary.

(** [s] holds a match of [<[^>]+>]: a [<], then one character or more
    other than [>], then a [>]. *)
Definition has_tag (s : string) : Prop :=
  exists a m c : string,
    s = a +:+ "<" +:+ m +:+ ">" +:+ c
    /\ m <> "" /\ Str.filter Text.is_gt m = "".

(** No [<] of [s] opens a match of [<[^>]+>]: each is followed by [>]
    at once, or by no [>] at all. *)
Fixpoint tagless (s : string) : bool :=
  match s with
  | EmptyString => true
  | String c r =>
      (negb (Text.is_lt c)
       || Text.starts ">" r
       || bool_decide (Str.filter Text.is_gt r = ""))
      && tagless r
  end.

Module Sample2.

Definition quiet_old : story :=
  Sample.item "Quiet day at the lake" "" (Text "2024-03-05T00:00:00+00:00").

Definition twin_one : story :=
  Sample.item "Harbor notes" "first" (Text "2024-03-10T00:00:00+00:00").

Definition twin_two : story :=
  Sample.item "Garden notes" "second" (Text "2024-03-10T00:00:00+00:00").

Definition twin_one_out : processed :=
  {| id := "08133afc7fe1"; title := "Harbor notes"; summary := "first";
     link := "https://example.org/story"; source := "Example Daily";
     county := "Alameda"; published := Text "2024-03-10T00:00:00+00:00";
     themes := []; nationalSignificance := 0; isEnterprise := false;
     ageDays := 1 # 1; rankScore := 0 # 1 |}.

Definition twin_two_out : processed :=
  {| id := "7f24941ead9e"; title := "Garden notes"; summary := "second";
     link := "https://example.org/story"; source := "Example Daily";
     county := "Alameda"; published := Text "2024-03-10T00:00:00+00:00";
     themes := []; nationalSignificance := 0; isEnterprise := false;
     ageDays := 1 # 1; rankScore := 0 # 1 |}.

Definition quiet_old_out : processed :=
  {| id := "5c342ecb610a"; title := "Quiet day at the lake"; summary := "";
     link := "https://example.org/story"; source := "Example Daily";
     county := "Alameda"; published := Text "2024-03-05T00:00:00+00:00";
     themes := []; nationalSignificance := 0; isEnterprise := false;
     ageDays := 6 # 1; rankScore := (-2) # 1 |}.

(** A batch in which two stories agree on [rankScore] and [published],
    and one of them comes twice. *)
Definition twins : list story :=
  [twin_one; twin_two; Sample.federal; twin_one].

Definition twins_out : list processed :=
  [Sample.federal_out; twin_one_out; twin_two_out].

End Sample2.

Module Sample3.

Definition council : entry :=
  {| e_title := Some "  Oakland council meets ";
     e_summary := Some "<p>Budget <b>vote</b> tonight</p>";
     e_description := None;
     e_link := Some "https://example.org/council";
     e_date := "2024-03-09T12:00:00+00:00" |}.

Definition untitled : entry :=
  {| e_title := Some "   "; e_summary := None; e_description := Some "x";
     e_link := None; e_date := "2024-03-09T12:00:00+00:00" |}.

Definition stale : entry :=
  {| e_title := Some "Old news"; e_summary := None; e_description := None;
     e_link := None; e_date := "2024-02-01T00:00:00+00:00" |}.

Definition the_feed : feed :=
  {| bozo := true; entries := [untitled; council; stale] |}.

(** What [fetch_one_feed] makes of [the_feed] at [Sample.now]. *)
Definition council_story : story :=
  {| s_title := "Oakland council meets"; s_summary := "Budget vote tonight";
     s_link := "https://example.org/council"; s_source := "Example Daily";
     s_county := "Alameda";
     s_published := Text "2024-03-09T12:00:00+00:00" |}.

End Sample3.

(** ** Occurrences of a text in a page *)

(** [sub] stands in [s] at position [n]. *)
Definition occurs_at (sub s : string) (n : nat) : Prop :=
  exists a b : string, s = a +:+ sub +:+ b /\ String.length a = n.

(** The first place of [sub] in [s] is [n]. *)
Definition first_at (sub s : string) (n : nat) : Prop :=
  occurs_at sub s n /\ forall i : nat, occurs_at sub s i -> (n <= i)%nat.

Module SamplePage.

Definition head_part : string := "<script>" +:+ Text.newline.

Definition old_stories : string := "{" +:+ Text.quote +:+ "id" +:+ Text.quote +:+ ": 1}".

Definition tail_part : string := Text.newline +:+ "</script>" +:+ Text.newline.

Definition page : string :=
  head_part +:+ Page.stories_marker +:+ old_stories +:+ Page.stories_close
  +:+ Page.generated_marker +:+ "2024-03-09" +:+ Page.generated_close
  +:+ tail_part.

(** The page after [update_html] with an empty list of stories. *)
Definition page_updated : string :=
  head_part +:+ "var STORIES = [];" +:+ Text.newline
  +:+ Page.generated_marker +:+ "2024-03-10" +:+ Page.generated_close
  +:+ tail_part.

Definition bare_page : string := "<html></html>".

End SamplePage.

Module Sample4.

(** Two stories of equal score, published half a second apart; the
    earlier one is written with [Z]. *)
Definition half_past : story :=
  Sample.item "Harbor notes" "first" (Text "2024-03-10T00:00:01.500000+00:00").

Definition on_the_second : story :=
  Sample.item "Garden notes" "second" (Text "2024-03-10T00:00:01Z").

Definition half_past_out : processed :=
  {| id := "08133afc7fe1"; title := "Harbor notes"; summary := "first";
     link := "https://example.org/story"; source := "Example Daily";
     county := "Alameda";
     published := Text "2024-03-10T00:00:01.500000+00:00";
     themes := []; nationalSignificance := 0; isEnterprise := false;
     ageDays := 1 # 1; rankScore := 0 # 1 |}.

Definition on_the_second_out : processed :=
  {| id := "7f24941ead9e"; title := "Garden notes"; summary := "second";
     link := "https://example.org/story"; source := "Example Daily";
     county := "Alameda"; published := Text "2024-03-10T00:00:01Z";
     themes := []; nationalSignificance := 0; isEnterprise := false;
     ageDays := 1 # 1; rankScore := 0 # 1 |}.


(** A story that matches three national keywords, three categories of
    themes and several enterprise signals. *)
Definition landmark : story :=
  Sample.item
    "Investigation: federal housing cuts hit tenants as wildfire smoke spreads"
    "Records show the mayor and city council ignored a landmark budget audit; rent and eviction data reveal a billion in losses."
    (Text "2024-03-10T00:00:00+00:00").

Definition landmark_out : processed :=
  {| id := "250492e9ea21";
     title := "Investigation: federal housing cuts hit tenants as wildfire smoke spreads";
     summary := "Records show the mayor and city council ignored a landmark budget audit; rent and eviction data reveal a billion in losses.";
     link := "https://example.org/story"; source := "Example Daily";
     county := "Alameda"; published := Text "2024-03-10T00:00:00+00:00";
     themes := [ {| name := "Housing & Displacement"; strength := 4 |};
                 {| name := "Governance & Power"; strength := 4 |};
                 {| name := "Climate & Environment"; strength := 2 |} ];
     nationalSignificance := 10; isEnterprise := true;
     ageDays := 1 # 1; rankScore := 10 # 1 |}.

End Sample4.

(** * Properties *)

(** ** Stable sorting *)

Section StableSort.

Context {A : Type} (lt : A -> A -> bool).

Lemma insert_by_perm x l : insert_by lt x l ≡ₚ x :: l.
Proof.
  induction l as [|y l IH]; simpl; [done|].
  destruct (lt y x); [|done].
  rewrite IH. apply Permutation_swap.
Qed.

Lemma stable_sort_perm l : stable_sort lt l ≡ₚ l.
Proof.
  induction l as [|x l IH]; simpl; [done|].
  by rewrite insert_by_perm, IH.
Qed.

(** [lt] is the strict part of a total preorder. *)
Hypothesis lt_asym : forall a b, lt a b = true -> lt b a = false.
Hypothesis le_trans :
  forall a b c, lt b a = false -> lt c b = false -> lt c a = false.

Lemma insert_by_lex before x l :
  StronglySorted (lex lt before) l -> Forall (before x) l ->
  StronglySorted (lex lt before) (insert_by lt x l).
Proof.
  induction l as [|y l IH]; simpl; intros Hs Hx.
  - repeat constructor.
  - apply StronglySorted_inv in Hs as [Hs Hy].
    apply Forall_cons in Hx as [Hxy Hx].
    destruct (lt y x) eqn:Hyx.
    + constructor; [by apply IH|].
      rewrite insert_by_perm. constructor; [by left|done].
    + constructor; [by constructor|].
      constructor.
      * destruct (lt x y) eqn:Hxy'; [by left|by right].
      * rewrite Forall_forall in Hy, Hx |- *. intros z Hz.
        assert (lt z y = false) as Hzy.
        { destruct (Hy z Hz) as [?|(?&?&?)]; [by apply lt_asym|done]. }
        assert (lt z x = false) as Hzx by eauto.
        destruct (lt x z) eqn:Hxz; [by left|right; eauto].
Qed.

Lemma stable_sort_lex before l :
  StronglySorted before l -> StronglySorted (lex lt before) (stable_sort lt l).
Proof.
  induction 1 as [|x l Hs IH Hx]; simpl; [constructor|].
  apply insert_by_lex; [done|]. by rewrite stable_sort_perm.
Qed.

Lemma lex_not_lt before a b : lex lt before a b -> lt b a = false.
Proof. intros [?|(?&?&?)]; [by apply lt_asym|done]. Qed.

End StableSort.

Lemma StronglySorted_impl {A : Type} (R1 R2 : relation A) l :
  (forall a b, R1 a b -> R2 a b) -> StronglySorted R1 l -> StronglySorted R2 l.
Proof.
  intros HR. induction 1 as [|x l Hs IH Hx]; constructor; [done|].
  eapply Forall_impl; eauto.
Qed.

Lemma StronglySorted_any {A : Type} (l : list A) :
  StronglySorted (fun _ _ => True) l.
Proof. induction l; constructor; [done|]. by apply Forall_true. Qed.

Lemma StronglySorted_lookup {A : Type} (R : relation A) l i j a b :
  StronglySorted R l -> (i < j)%nat -> l !! i = Some a -> l !! j = Some b ->
  R a b.
Proof.
  intros Hs. revert i j. induction Hs as [|x l Hs IH Hx]; intros i j Hij Hi Hj.
  - by rewrite lookup_nil in Hi.
  - destruct j as [|j]; [lia|]. destruct i as [|i]; simpl in *.
    + injection Hi as <-. rewrite Forall_forall in Hx.
      apply Hx. by eapply list_elem_of_lookup_2.
    + eapply IH; [|done..]. lia.
Qed.

(** The sort whose comparison can raise: when no comparison raises it is
    the pure sort. *)
Lemma insert_by_M_pure {A : Type} (ltM : A -> A -> result bool)
  (lt : A -> A -> bool) x l :
  Forall (fun y => ltM y x = Ok (lt y x)) l ->
  insert_by_M ltM x l = Ok (insert_by lt x l).
Proof.
  induction 1 as [|y l Hy Hl IH]; simpl; [done|].
  rewrite Hy. simpl. destruct (lt y x); [|done]. by rewrite IH.
Qed.

Lemma stable_sort_M_pure {A : Type} (ltM : A -> A -> result bool)
  (lt : A -> A -> bool) (P : A -> Prop) l :
  (forall x y, P x -> P y -> ltM y x = Ok (lt y x)) ->
  Forall P l -> stable_sort_M ltM l = Ok (stable_sort lt l).
Proof.
  intros Hlt. induction 1 as [|x l Hx Hl IH]; simpl; [done|].
  rewrite IH. simpl. apply insert_by_M_pure.
  rewrite stable_sort_perm. eapply Forall_impl; eauto.
Qed.

(** ** The order of strings *)

Lemma ascii_compare_N a b :
  Ascii.compare a b = (N_of_ascii a ?= N_of_ascii b)%N.
Proof. reflexivity. Qed.

Lemma ascii_compare_eq a b : Ascii.compare a b = Eq -> a = b.
Proof.
  rewrite ascii_compare_N. intros Hc%N.compare_eq.
  rewrite <- (ascii_N_embedding a), <- (ascii_N_embedding b). by rewrite Hc.
Qed.

Lemma string_leb_trans x y z :
  String.leb x y = true -> String.leb y z = true -> String.leb x z = true.
Proof.
  unfold String.leb. revert y z.
  induction x as [|a x IH]; intros [|b y] [|c z]; simpl; try done.
  rewrite !ascii_compare_N.
  destruct (N.compare_spec (N_of_ascii a) (N_of_ascii b)) as [Hab|Hab|Hab];
    destruct (N.compare_spec (N_of_ascii b) (N_of_ascii c)) as [Hbc|Hbc|Hbc];
    try done.
  - rewrite Hab, Hbc, N.compare_refl. apply IH.
  - rewrite Hab. by destruct (N.compare_spec (N_of_ascii b) (N_of_ascii c)); try lia.
  - rewrite <- Hbc. by destruct (N.compare_spec (N_of_ascii a) (N_of_ascii b)); try lia.
  - destruct (N.compare_spec (N_of_ascii a) (N_of_ascii c)); try lia; done.
Qed.

Lemma string_ltb_leb x y : String.ltb x y = negb (String.leb y x).
Proof.
  unfold String.ltb, String.leb. rewrite (String.compare_antisym y x).
  by destruct (String.compare x y).
Qed.

(** ** Rational arithmetic *)

Lemma Qltb_lt a b : Qltb a b = true <-> (a < b)%Q.
Proof.
  unfold Qltb. rewrite negb_true_iff, <- not_true_iff_false, Qle_bool_iff.
  split; [apply Qnot_le_lt|apply Qlt_not_le].
Qed.

Lemma Qltb_ge a b : Qltb a b = false <-> (b <= a)%Q.
Proof. unfold Qltb. by rewrite negb_false_iff, Qle_bool_iff. Qed.

Lemma py_max_spec a b : (py_max a b == Qmax a b)%Q.
Proof.
  unfold py_max. destruct (Qltb a b) eqn:Hab.
  - apply Qltb_lt in Hab. symmetry. apply Q.max_r. by apply Qlt_le_weak.
  - apply Qltb_ge in Hab. symmetry. by apply Q.max_l.
Qed.

Lemma py_min_spec a b : (py_min a b == Qmin a b)%Q.
Proof.
  unfold py_min. destruct (Qltb b a) eqn:Hab.
  - apply Qltb_lt in Hab. symmetry. apply Q.min_r. by apply Qlt_le_weak.
  - apply Qltb_ge in Hab. symmetry. by apply Q.min_l.
Qed.


Lemma round_half_even_ge (n : Z) q :
  (inject_Z n <= q)%Q -> n <= round_half_even q.
Proof.
  intros Hn. assert (n <= Qfloor q) as Hf.
  { rewrite <- (Qfloor_Z n). by apply Qfloor_resp_le. }
  unfold round_half_even.
  destruct (_ ?= _)%Q; [destruct (Z.even _)|..]; lia.
Qed.

Lemma round_half_even_le (n : Z) q :
  (q <= inject_Z n)%Q -> round_half_even q <= n.
Proof.
  intros Hn. unfold round_half_even.
  pose proof (Qfloor_le q) as Hlo. pose proof (Qlt_floor q) as Hhi.
  assert (Qfloor q <= n) as Hf.
  { rewrite <- (Qfloor_Z n). by apply Qfloor_resp_le. }
  destruct (Z.eq_dec (Qfloor q) n) as [Heq|Hne].
  - assert (q == inject_Z n)%Q as Hq by (rewrite Heq in Hlo; lra).
    destruct (Qcompare_spec (q - inject_Z (Qfloor q)) (1 # 2)) as [Hc|Hc|Hc];
      rewrite Heq in Hc; try lra. lia.
  - destruct (_ ?= _)%Q; [destruct (Z.even _)|..]; lia.
Qed.

Lemma round_half_even_comp q1 q2 :
  (q1 == q2)%Q -> round_half_even q1 = round_half_even q2.
Proof.
  intros Hq. unfold round_half_even.
  rewrite (Qfloor_comp _ _ Hq).
  assert ((q1 - inject_Z (Qfloor q2) ?= 1 # 2) = (q2 - inject_Z (Qfloor q2) ?= 1 # 2))%Q
    as -> by (by rewrite Hq).
  done.
Qed.

(** ** Rounding to binary64 *)

Lemma round_half_even_mono (q1 q2 : Q) :
  (q1 <= q2)%Q -> round_half_even q1 <= round_half_even q2.
Proof.
  intros Hq. pose proof (Qfloor_resp_le _ _ Hq) as Hf.
  destruct (Z.eq_dec (Qfloor q1) (Qfloor q2)) as [Heq|Hne].
  - unfold round_half_even. rewrite Heq.
    destruct (Qcompare_spec (q1 - inject_Z (Qfloor q2)) (1 # 2));
      destruct (Qcompare_spec (q2 - inject_Z (Qfloor q2)) (1 # 2));
      try destruct (Z.even (Qfloor q2)); try lia; lra.
  - assert (round_half_even q1 <= Qfloor q1 + 1).
    { unfold round_half_even.
      destruct (_ ?= _)%Q; [destruct (Z.even _)|..]; lia. }
    assert (Qfloor q2 <= round_half_even q2).
    { unfold round_half_even.
      destruct (_ ?= _)%Q; [destruct (Z.even _)|..]; lia. }
    lia.
Qed.

(** ** Rounding to binary64 *)

Lemma round_half_even_Z (n : Z) : round_half_even (inject_Z n) = n.
Proof.
  apply Z.le_antisymm.
  - apply round_half_even_le. lra.
  - apply round_half_even_ge. lra.
Qed.

Lemma pow2_pos (k : Z) : (0 < 2 ^ k)%Q.
Proof. by apply Qpower_0_lt. Qed.

Lemma pow2_plus (n m : Z) : (2 ^ (n + m) == 2 ^ n * 2 ^ m)%Q.
Proof. by apply Qpower_plus. Qed.

Lemma pow2_succ (n : Z) : (2 ^ (n + 1) == 2 * 2 ^ n)%Q.
Proof. rewrite pow2_plus. change (2 ^ 1)%Q with 2%Q. ring. Qed.

Lemma pow2_opp (n : Z) : (2 ^ n * 2 ^ (- n) == 1)%Q.
Proof. rewrite <- pow2_plus, Z.add_opp_diag_r. reflexivity. Qed.

Lemma pow2_le (n m : Z) : n <= m -> (2 ^ n <= 2 ^ m)%Q.
Proof. intros Hnm. by apply Qpower_le_compat_l. Qed.

Lemma pow2_lt_inv (n m : Z) : (2 ^ n < 2 ^ m)%Q -> n < m.
Proof. intros Hnm. by apply (Qpower_lt_compat_l_inv 2). Qed.

Lemma pow2_inject (k : Z) : 0 <= k -> (inject_Z (2 ^ k) == 2 ^ k)%Q.
Proof. intros Hk. by rewrite Zpower_Qpower. Qed.

Lemma ilog2_spec (x : Q) :
  (0 < x)%Q -> (2 ^ ilog2 x <= x /\ x < 2 ^ (ilog2 x + 1))%Q.
Proof.
  intros Hx. destruct x as [p q]. unfold ilog2. cbn [Qnum Qden].
  assert (0 < p) as Hp by (unfold Qlt in Hx; simpl in Hx; lia).
  pose proof (Z.log2_spec p Hp) as [Hp1 Hp2].
  pose proof (Z.log2_spec (Z.pos q) (Pos2Z.is_pos q)) as [Hq1 Hq2].
  pose proof (Z.log2_nonneg p) as Hlp.
  pose proof (Z.log2_nonneg (Z.pos q)) as Hlq.
  set (lp := Z.log2 p) in *. set (lq := Z.log2 (Z.pos q)) in *.
  rewrite Zle_Qle, pow2_inject in Hp1, Hq1 by done.
  rewrite Zlt_Qlt, pow2_inject in Hp2, Hq2 by lia.
  rewrite <- Z.add_1_r, pow2_succ in Hp2, Hq2.
  assert (p # q == inject_Z p / inject_Z (Z.pos q))%Q as Hx' by apply Qmake_Qdiv.
  assert (0 < inject_Z (Z.pos q))%Q as Hq0 by (by rewrite <- (Zlt_Qlt 0)).
  set (P := inject_Z p) in *. set (D := inject_Z (Z.pos q)) in *.
  assert ((p # q) * D == P)%Q as Hmul by (rewrite Hx'; field; lra).
  set (x := (p # q)) in *.
  assert (2 ^ lp == 2 ^ (lp - lq) * 2 ^ lq)%Q as Hd.
  { rewrite <- pow2_plus. by replace (lp - lq + lq) with lp by lia. }
  pose proof (pow2_pos lq) as Hb. pose proof (pow2_pos (lp - lq)) as Hd0.
  set (A := (2 ^ lp)%Q) in *. set (B := (2 ^ lq)%Q) in *.
  set (d := lp - lq) in *.
  assert (2 ^ (d - 1) * 2 == 2 ^ d)%Q as Hhalf.
  { replace d with (d - 1 + 1) at 2 by lia. rewrite pow2_succ. ring. }
  set (E := (2 ^ d)%Q) in *.
  assert (E * 1 <= x * 2 /\ x < 2 * E)%Q as [Hlo Hhi].
  { split.
    - apply Qnot_lt_le. intros Hc.
      assert (x * 2 * D < E * 1 * D)%Q by (apply Qmult_lt_compat_r; lra).
      assert (E * D < E * (2 * B))%Q by (apply Qmult_lt_l; lra).
      nra.
    - apply Qnot_le_lt. intros Hc.
      assert (2 * E * D <= x * D)%Q by (apply Qmult_le_compat_r; lra).
      assert (E * B <= E * D)%Q by (apply Qmult_le_l; lra).
      nra. }
  destruct (Qle_bool E x) eqn:HE.
  - apply Qle_bool_iff in HE. split; [done|]. rewrite pow2_succ. by fold E.
  - apply not_true_iff_false in HE. rewrite Qle_bool_iff in HE.
    apply Qnot_le_lt in HE. replace (d - 1 + 1) with d by lia. fold E.
    split; [|done]. lra.
Qed.

Lemma ilog2_unique (x : Q) (k : Z) :
  (2 ^ k <= x)%Q -> (x < 2 ^ (k + 1))%Q -> ilog2 x = k.
Proof.
  intros Hlo Hhi.
  assert (0 < x)%Q as Hx by (pose proof (pow2_pos k); lra).
  destruct (ilog2_spec x Hx) as [Hlo' Hhi'].
  assert (ilog2 x < k + 1) by (apply pow2_lt_inv; lra).
  assert (k < ilog2 x + 1) by (apply pow2_lt_inv; lra).
  lia.
Qed.

Lemma ilog2_comp (x y : Q) : (x == y)%Q -> (0 < x)%Q -> ilog2 x = ilog2 y.
Proof.
  intros Hxy Hx. destruct (ilog2_spec y) as [Hlo Hhi]; [lra|].
  apply ilog2_unique; lra.
Qed.

Lemma ilog2_mono (x y : Q) : (0 < x)%Q -> (x <= y)%Q -> ilog2 x <= ilog2 y.
Proof.
  intros Hx Hxy. destruct (ilog2_spec x Hx) as [Hlo _].
  destruct (ilog2_spec y) as [_ Hhi]; [lra|].
  assert (ilog2 x < ilog2 y + 1) by (apply pow2_lt_inv; lra). lia.
Qed.

(** The significand of [x > 0]. *)
Lemma significand_bounds (x : Q) :
  (0 < x)%Q ->
  (inject_Z (2 ^ 52) <= x * 2 ^ (- (ilog2 x - 52))
   /\ x * 2 ^ (- (ilog2 x - 52)) < inject_Z (2 ^ 53))%Q.
Proof.
  intros Hx. destruct (ilog2_spec x Hx) as [Hlo Hhi].
  set (k := ilog2 x) in *. pose proof (pow2_pos (- (k - 52))) as Hs.
  rewrite !pow2_inject by lia.
  assert (2 ^ 52 == 2 ^ k * 2 ^ (- (k - 52)))%Q as ->
    by (rewrite <- pow2_plus; by replace (k + - (k - 52)) with 52 by lia).
  assert (2 ^ 53 == 2 ^ (k + 1) * 2 ^ (- (k - 52)))%Q as ->
    by (rewrite <- pow2_plus; by replace (k + 1 + - (k - 52)) with 53 by lia).
  split.
  - by apply Qmult_le_compat_r; [|lra].
  - by apply Qmult_lt_compat_r.
Qed.

Lemma fl_pos_comp (x y : Q) : (x == y)%Q -> (0 < x)%Q -> (fl_pos x == fl_pos y)%Q.
Proof.
  intros Hxy Hx. unfold fl_pos. rewrite <- (ilog2_comp x y Hxy Hx).
  rewrite (round_half_even_comp (x * _) (y * 2 ^ (- (ilog2 x - 52)))%Q);
    [reflexivity|]. apply Qmult_comp; [exact Hxy|reflexivity].
Qed.

Lemma fl_pos_bounds (x : Q) :
  (0 < x)%Q -> (2 ^ ilog2 x <= fl_pos x /\ fl_pos x <= 2 ^ (ilog2 x + 1))%Q.
Proof.
  intros Hx. destruct (significand_bounds x Hx) as [Hlo Hhi].
  unfold fl_pos. set (k := ilog2 x) in *.
  set (m := round_half_even _).
  assert (2 ^ 52 <= m) as Hm1 by (by apply round_half_even_ge).
  assert (m <= 2 ^ 53) as Hm2 by (apply round_half_even_le; lra).
  rewrite Zle_Qle, pow2_inject in Hm1, Hm2 by lia.
  pose proof (pow2_pos (k - 52)) as He.
  assert (2 ^ k == 2 ^ 52 * 2 ^ (k - 52))%Q as ->
    by (rewrite <- pow2_plus; by replace (52 + (k - 52)) with k by lia).
  assert (2 ^ (k + 1) == 2 ^ 53 * 2 ^ (k - 52))%Q as ->
    by (rewrite <- pow2_plus; by replace (53 + (k - 52)) with (k + 1) by lia).
  split; apply Qmult_le_compat_r; lra.
Qed.

Lemma fl_pos_mono (x y : Q) :
  (0 < x)%Q -> (x <= y)%Q -> (fl_pos x <= fl_pos y)%Q.
Proof.
  intros Hx Hxy. pose proof (ilog2_mono x y Hx Hxy) as Hk.
  destruct (Z.eq_dec (ilog2 x) (ilog2 y)) as [Heq|Hne].
  - unfold fl_pos. rewrite <- Heq. set (e := ilog2 x - 52).
    pose proof (pow2_pos e). pose proof (pow2_pos (- e)).
    apply Qmult_le_compat_r; [|lra]. rewrite <- Zle_Qle.
    apply round_half_even_mono. apply Qmult_le_compat_r; lra.
  - destruct (fl_pos_bounds x Hx) as [_ Hhi].
    destruct (fl_pos_bounds y) as [Hlo _]; [lra|].
    pose proof (pow2_le (ilog2 x + 1) (ilog2 y) ltac:(lia)). lra.
Qed.

Lemma fl_pos_Z (n : Z) :
  0 < n < 2 ^ 53 -> (fl_pos (inject_Z n) == inject_Z n)%Q.
Proof.
  intros [Hn Hlt].
  assert (0 < inject_Z n)%Q as Hx
      by (change 0%Q with (inject_Z 0); by rewrite <- Zlt_Qlt).
  destruct (ilog2_spec _ Hx) as [Hk _].
  unfold fl_pos. set (k := ilog2 (inject_Z n)) in *.
  assert (k < 53) as Hk53.
  { apply pow2_lt_inv. eapply Qle_lt_trans; [exact Hk|].
    rewrite <- pow2_inject by lia. by rewrite <- Zlt_Qlt. }
  assert (inject_Z n * 2 ^ (- (k - 52)) == inject_Z (n * 2 ^ (- (k - 52))))%Q
    as Hs by (rewrite inject_Z_mult, pow2_inject by lia; reflexivity).
  rewrite (round_half_even_comp _ _ Hs), round_half_even_Z.
  rewrite inject_Z_mult, pow2_inject by lia. rewrite <- Qmult_assoc.
  rewrite (Qmult_comm (2 ^ _)), pow2_opp. ring.
Qed.

Lemma fl_0 : fl 0 = 0%Q.
Proof. reflexivity. Qed.

Lemma Qnum_pos (x : Q) : (0 < x)%Q -> exists p, Qnum x = Z.pos p.
Proof.
  destruct x as [[|p|p] q]; unfold Qlt; simpl; intros Hx; try lia. by exists p.
Qed.

Lemma Qnum_neg (x : Q) : (x < 0)%Q -> exists p, Qnum x = Z.neg p.
Proof.
  destruct x as [[|p|p] q]; unfold Qlt; simpl; intros Hx; try lia. by exists p.
Qed.

Lemma Qnum_zero (x : Q) : (x == 0)%Q -> Qnum x = 0.
Proof. destruct x as [p q]. unfold Qeq. simpl. lia. Qed.

Lemma fl_pos_eq (x : Q) : (0 < x)%Q -> (fl x == fl_pos x)%Q.
Proof.
  intros [p Hp]%Qnum_pos. unfold fl. rewrite Hp. apply Qred_correct.
Qed.

Lemma fl_neg_eq (x : Q) : (x < 0)%Q -> (fl x == - fl_pos (- x))%Q.
Proof.
  intros [p Hp]%Qnum_neg. unfold fl. rewrite Hp. apply Qred_correct.
Qed.

Lemma fl_zero_eq (x : Q) : (x == 0)%Q -> fl x = 0%Q.
Proof. intros Hx%Qnum_zero. unfold fl. by rewrite Hx. Qed.

Lemma fl_pos_pos (x : Q) : (0 < x)%Q -> (0 < fl_pos x)%Q.
Proof.
  intros Hx. destruct (fl_pos_bounds x Hx) as [Hlo _].
  pose proof (pow2_pos (ilog2 x)). lra.
Qed.

(** Equal numbers have the same binary64 number, as a fraction in lowest
    terms. *)
Lemma fl_comp (x y : Q) : (x == y)%Q -> fl x = fl y.
Proof.
  intros Hxy. destruct (Q_dec x 0) as [[Hx|Hx]|Hx].
  - destruct (Qnum_neg x Hx) as [p Hp].
    destruct (Qnum_neg y) as [p' Hp']; [lra|].
    unfold fl. rewrite Hp, Hp'. apply Qred_complete.
    apply Qopp_comp, fl_pos_comp; [by rewrite Hxy|lra].
  - destruct (Qnum_pos x Hx) as [p Hp].
    destruct (Qnum_pos y) as [p' Hp']; [lra|].
    unfold fl. rewrite Hp, Hp'. apply Qred_complete. by apply fl_pos_comp.
  - rewrite (fl_zero_eq x Hx), (fl_zero_eq y); [done|]. by rewrite <- Hxy.
Qed.

#[global] Instance fl_proper : Proper (Qeq ==> Qeq) fl.
Proof. intros x y Hxy. by rewrite (fl_comp x y Hxy). Qed.

Lemma fl_mono (x y : Q) : (x <= y)%Q -> (fl x <= fl y)%Q.
Proof.
  intros Hxy.
  destruct (Q_dec x 0) as [[Hx|Hx]|Hx]; destruct (Q_dec y 0) as [[Hy|Hy]|Hy];
    try lra.
  - rewrite (fl_neg_eq x Hx), (fl_neg_eq y Hy).
    apply Qopp_le_compat. apply fl_pos_mono; lra.
  - rewrite (fl_neg_eq x Hx), (fl_pos_eq y Hy).
    pose proof (fl_pos_pos (- x)). pose proof (fl_pos_pos y). lra.
  - rewrite (fl_neg_eq x Hx), (fl_zero_eq y Hy).
    pose proof (fl_pos_pos (- x)). lra.
  - rewrite (fl_pos_eq x Hx), (fl_pos_eq y Hy). by apply fl_pos_mono.
  - rewrite (fl_zero_eq x Hx), (fl_pos_eq y Hy).
    pose proof (fl_pos_pos y). lra.
  - by rewrite (fl_zero_eq x Hx), (fl_zero_eq y Hy).
Qed.

(** The integers below [2 ^ 53] are binary64 numbers. *)
Lemma fl_Z (n : Z) : - 9007199254740992 < n < 9007199254740992 ->
  (fl (inject_Z n) == inject_Z n)%Q.
Proof.
  change 9007199254740992 with (2 ^ 53).
  intros Hn. destruct (Z.lt_trichotomy n 0) as [Hneg|[->|Hpos]].
  - assert (inject_Z n < 0)%Q as Hx
      by (change 0%Q with (inject_Z 0); by rewrite <- Zlt_Qlt).
    rewrite (fl_neg_eq _ Hx).
    assert (fl_pos (- inject_Z n) == inject_Z (- n))%Q as ->.
    { rewrite (fl_pos_comp (- inject_Z n) (inject_Z (- n)));
        [apply fl_pos_Z; lia|by rewrite inject_Z_opp|lra]. }
    rewrite inject_Z_opp. ring.
  - reflexivity.
  - assert (0 < inject_Z n)%Q as Hx
      by (change 0%Q with (inject_Z 0); by rewrite <- Zlt_Qlt).
    rewrite (fl_pos_eq _ Hx). apply fl_pos_Z. lia.
Qed.

Lemma fl_between (lo hi : Z) (x : Q) :
  - 9007199254740992 < lo -> hi < 9007199254740992 ->
  (inject_Z lo <= x <= inject_Z hi)%Q ->
  (inject_Z lo <= fl x <= inject_Z hi)%Q.
Proof.
  intros Hlo Hhi [Hx1 Hx2].
  assert (lo <= hi) by (rewrite Zle_Qle; lra).
  split.
  - rewrite <- (fl_Z lo) by lia. by apply fl_mono.
  - rewrite <- (fl_Z hi) by lia. by apply fl_mono.
Qed.


Lemma fl_ge_Z (n : Z) (x : Q) :
  - 9007199254740992 < n < 9007199254740992 ->
  (inject_Z n <= x)%Q -> (inject_Z n <= fl x)%Q.
Proof. intros Hn Hx. rewrite <- (fl_Z n Hn). by apply fl_mono. Qed.

(** ** Rounding to decimals *)

Lemma round_dec_comp q1 q2 n : (q1 == q2)%Q -> round_dec q1 n = round_dec q2 n.
Proof.
  intros Hq. unfold round_dec.
  rewrite (round_half_even_comp (q1 * _) (q2 * inject_Z (10 ^ Z.of_nat n))); [done|].
  by rewrite Hq.
Qed.

Lemma py_round_comp q1 q2 n : (q1 == q2)%Q -> py_round q1 n = py_round q2 n.
Proof. intros Hq. unfold py_round. by rewrite (round_dec_comp _ _ n Hq). Qed.

Lemma scale_pos (n : nat) : (0 < inject_Z (10 ^ Z.of_nat n))%Q.
Proof.
  change 0%Q with (inject_Z 0). rewrite <- Zlt_Qlt.
  apply Z.pow_pos_nonneg; lia.
Qed.


Lemma round_dec_between (lo hi : Z) q n :
  (inject_Z lo <= q <= inject_Z hi)%Q ->
  (inject_Z lo <= round_dec q n <= inject_Z hi)%Q.
Proof.
  intros [Hlo Hhi]. unfold round_dec. set (scale := 10 ^ Z.of_nat n).
  pose proof (scale_pos n) as Hs. fold scale in Hs.
  assert (lo * scale <= round_half_even (q * inject_Z scale)) as H1.
  { apply round_half_even_ge. rewrite inject_Z_mult. by apply Qmult_le_compat_r; [|lra]. }
  assert (round_half_even (q * inject_Z scale) <= hi * scale) as H2.
  { apply round_half_even_le. rewrite inject_Z_mult. by apply Qmult_le_compat_r; [|lra]. }
  rewrite Zle_Qle, inject_Z_mult in H1, H2.
  split.
  - apply Qle_shift_div_l; [done|]. done.
  - apply Qle_shift_div_r; [done|]. done.
Qed.

Lemma round_dec_mono (q1 q2 : Q) (n : nat) :
  (q1 <= q2)%Q -> (round_dec q1 n <= round_dec q2 n)%Q.
Proof.
  intros Hq. unfold round_dec. pose proof (scale_pos n) as Hs.
  set (scale := inject_Z (10 ^ Z.of_nat n)) in *.
  assert (round_half_even (q1 * scale) <= round_half_even (q2 * scale)) as Hr.
  { apply round_half_even_mono. apply Qmult_le_compat_r; lra. }
  rewrite Zle_Qle in Hr. unfold Qdiv.
  apply Qmult_le_compat_r; [done|]. apply Qlt_le_weak, Qinv_lt_0_compat, Hs.
Qed.

Lemma round_dec_Z (k : Z) (n : nat) : (round_dec (inject_Z k) n == inject_Z k)%Q.
Proof.
  pose proof (round_dec_between k k (inject_Z k) n) as Hb.
  destruct Hb as [? ?]; [lra|]. lra.
Qed.

(** ** [round] on floats *)

Lemma py_round_between (lo hi : Z) q n :
  - 9007199254740992 < lo -> hi < 9007199254740992 ->
  (inject_Z lo <= q <= inject_Z hi)%Q ->
  (inject_Z lo <= py_round q n <= inject_Z hi)%Q.
Proof.
  intros Hlo Hhi Hq. unfold py_round.
  apply fl_between; [done..|]. by apply round_dec_between.
Qed.

Lemma py_round_ge (lo : Z) (q : Q) (n : nat) :
  - 9007199254740992 < lo < 9007199254740992 ->
  (inject_Z lo <= q)%Q -> (inject_Z lo <= py_round q n)%Q.
Proof.
  intros Hlo Hq. unfold py_round. apply fl_ge_Z; [done|].
  rewrite <- (round_dec_Z lo n). by apply round_dec_mono.
Qed.

Lemma py_round_mono (q1 q2 : Q) (n : nat) :
  (q1 <= q2)%Q -> (py_round q1 n <= py_round q2 n)%Q.
Proof. intros Hq. unfold py_round. by apply fl_mono, round_dec_mono. Qed.

Lemma py_round_Z (k : Z) (n : nat) :
  - 9007199254740992 < k < 9007199254740992 ->
  (py_round (inject_Z k) n == inject_Z k)%Q.
Proof.
  intros Hk. unfold py_round.
  rewrite (fl_comp _ _ (round_dec_Z k n)). by apply fl_Z.
Qed.


(** ** De-duplication *)

Lemma dedup_from_sublist seen l : dedup_from seen l `sublist_of` l.
Proof.
  revert seen. induction l as [|s l IH]; intros seen; simpl; [done|].
  case_decide; [by apply sublist_cons|by apply sublist_skip].
Qed.

Lemma dedup_from_fresh seen l s :
  s ∈ dedup_from seen l -> norm (s_title s) ∉ seen.
Proof.
  revert seen. induction l as [|s' l IH]; intros seen; simpl.
  - by intros ?%elem_of_nil.
  - case_decide as Hin; [by apply IH|].
    intros [->|Hs]%elem_of_cons; [done|].
    apply IH in Hs. intros Hseen. apply Hs. by apply elem_of_union_r.
Qed.

Lemma dedup_from_NoDup seen l : NoDup (title_key <$> dedup_from seen l).
Proof.
  revert seen. induction l as [|s l IH]; intros seen; simpl.
  - constructor.
  - case_decide as Hin; [by apply IH|].
    rewrite fmap_cons. constructor; [|by apply IH].
    intros (s' & Hk & Hs')%list_elem_of_fmap.
    apply dedup_from_fresh in Hs'. unfold title_key in Hk. apply Hs'.
    rewrite <- Hk. by apply elem_of_union_l, elem_of_singleton.
Qed.

(** A list without repeated keys, none of them seen, passes unchanged. *)
Lemma dedup_from_id seen l :
  NoDup (title_key <$> l) ->
  (forall s, s ∈ l -> norm (s_title s) ∉ seen) ->
  dedup_from seen l = l.
Proof.
  revert seen. induction l as [|s l IH]; intros seen Hnd Hfresh; simpl; [done|].
  rewrite fmap_cons in Hnd. apply NoDup_cons in Hnd as [Hs Hnd].
  rewrite decide_False by (apply Hfresh; left).
  f_equal. apply IH; [done|].
  intros s' Hs'. assert (norm (s_title s') ≠ norm (s_title s)).
  { intros Heq. apply Hs. apply list_elem_of_fmap. by exists s'. }
  assert (norm (s_title s') ∉ seen) by (apply Hfresh; by right).
  by rewrite not_elem_of_union, not_elem_of_singleton.
Qed.

(** The set of seen keys stands for the keys of all earlier records. *)
Lemma dedup_from_first_occurrences seen earlier l :
  (forall k, k ∈ seen <-> k ∈ title_key <$> earlier) ->
  dedup_from seen l = first_occurrences_after earlier l.
Proof.
  revert seen earlier. induction l as [|s l IH]; intros seen earlier Hseen;
    simpl; [done|].
  destruct (decide (norm (s_title s) ∈ seen)) as [Hin|Hin].
  - rewrite decide_True by (by apply Hseen). simpl.
    apply IH. intros k. rewrite fmap_app, elem_of_app, <- Hseen.
    simpl. rewrite list_elem_of_singleton. split; [by left|].
    by intros [?| ->].
  - rewrite decide_False by (by rewrite <- Hseen). simpl. f_equal.
    apply IH. intros k. rewrite fmap_app, elem_of_app, <- Hseen.
    simpl. rewrite list_elem_of_singleton, elem_of_union, elem_of_singleton.
    unfold title_key. tauto.
Qed.

Lemma dedup_first_occurrences l : dedup l = first_occurrences l.
Proof.
  apply dedup_from_first_occurrences. intros k. simpl.
  split; [by intros ?%not_elem_of_empty|by intros ?%elem_of_nil].
Qed.

(** C9. The de-duplication is idempotent: the filter of the loop of
    [process_stories] (keep a story iff its normalized title was not
    seen earlier in the list), applied to its own output, returns that
    output unchanged. *)
Theorem dedup_idempotent (stories : list story) :
  dedup (dedup stories) = dedup stories.
Proof.
  unfold dedup. apply dedup_from_id.
  - apply dedup_from_NoDup.
  - intros s _. apply not_elem_of_empty.
Qed.

(** ** The loop of [process_stories] *)

Section Loop.

Context `{Runtime}.

(** What a successful run of the loop body has computed. *)
Lemma process_one_inv now s p :
  process_one now s = Ok p ->
  exists t,
    parse_published now (s_published s) = Ok (Aware t)
    /\ raw p = s
    /\ id p = Str.take 12 (md5_hexdigest (s_title s +:+ s_link s))
    /\ themes p = tag_themes (s_title s) (s_summary s)
    /\ isEnterprise p = (detect_enterprise (s_title s) (s_summary s)).1
    /\ nationalSignificance p =
         (let base := score_national (s_title s) (s_summary s) (themes p) in
          if isEnterprise p then Z.min (base + 2) 10 else base)
    /\ ageDays p = py_round (age_days_of (now - t)) 1
    /\ rankScore p =
         py_round (fl (inject_Z (nationalSignificance p)
                       - recency_penalty_of (age_days_of (now - t)))) 2.
Proof.
  unfold process_one.
  destruct (detect_enterprise (s_title s) (s_summary s)) as [is_ent ent_score].
  destruct (parse_published now (s_published s)) as [[t|t]|e]; simpl;
    [|done..].
  intros [= <-]. exists t. simpl. by destruct s.
Qed.

Lemma process_one_total now s t :
  parse_published now (s_published s) = Ok (Aware t) ->
  exists p, process_one now s = Ok p.
Proof.
  intros Ht. unfold process_one.
  destruct (detect_enterprise (s_title s) (s_summary s)) as [is_ent ent_score].
  rewrite Ht. simpl. by eexists.
Qed.

Lemma collect_from_inv now seen stories ps :
  collect_from now seen stories = Ok ps ->
  raw <$> ps = dedup_from seen stories
  /\ Forall (fun p => exists s, s ∈ stories /\ process_one now s = Ok p) ps.
Proof.
  revert seen ps. induction stories as [|s l IH]; intros seen ps; simpl.
  - by intros [= <-].
  - case_decide as Hin.
    + intros [Hraw Hall]%IH. split; [done|].
      eapply Forall_impl; [done|]. intros p (s' & ? & ?).
      exists s'. split; [by right|done].
    + destruct (process_one now s) as [p|e] eqn:Hp; simpl; [|done].
      destruct (collect_from now _ l) as [ps'|e] eqn:Hps; simpl; [|done].
      intros [= <-]. apply IH in Hps as [Hraw Hall].
      rewrite fmap_cons, Hraw.
      apply process_one_inv in Hp as Hinv. destruct Hinv as (t & _ & -> & _).
      split; [done|]. constructor.
      * exists s. split; [by left|done].
      * eapply Forall_impl; [done|]. intros p' (s' & ? & ?).
        exists s'. split; [by right|done].
Qed.

(** *** The two sorts *)

Lemma insert_by_M_perm {A : Type} (ltM : A -> A -> result bool) x l l' :
  insert_by_M ltM x l = Ok l' -> l' ≡ₚ x :: l.
Proof.
  revert l'. induction l as [|y l IH]; intros l'; simpl.
  - by intros [= <-].
  - destruct (ltM y x) as [[]|]; simpl; [|by intros [= <-]|done].
    destruct (insert_by_M ltM x l) as [r|]; simpl; [|done].
    intros [= <-]. rewrite (IH r eq_refl). apply Permutation_swap.
Qed.

Lemma stable_sort_M_perm {A : Type} (ltM : A -> A -> result bool) l l' :
  stable_sort_M ltM l = Ok l' -> l' ≡ₚ l.
Proof.
  revert l'. induction l as [|x l IH]; intros l'; simpl.
  - by intros [= <-].
  - destruct (stable_sort_M ltM l) as [r|]; simpl; [|done].
    intros ->%insert_by_M_perm. by rewrite (IH r eq_refl).
Qed.

Lemma field_lt_Ok a b r :
  field_lt a b = Ok r -> exists x y, a = Text x /\ b = Text y.
Proof. destruct a, b; simpl; try done. eauto. Qed.

(** The sort by ["published"] returns only when it compared nothing or
    compared strings only. *)
Lemma sort_by_published_text l l' :
  sort_by_published l = Ok l' -> (length l <= 1)%nat \/ Forall has_text l.
Proof.
  unfold sort_by_published. revert l'.
  induction l as [|x l IH]; intros l'; simpl; [left; lia|].
  destruct (stable_sort_M _ l) as [r|] eqn:Hr; simpl; [|done].
  pose proof (stable_sort_M_perm _ _ _ Hr) as Hperm.
  destruct r as [|y r]; simpl.
  - apply Permutation_nil_l in Hperm. subst l. left. simpl. lia.
  - destruct (field_lt _ _) as [b|] eqn:Hb; simpl; [|done].
    intros _. apply field_lt_Ok in Hb as (tx & ty & Hx & Hy).
    right. constructor; [by exists tx|].
    destruct (IH _ eq_refl) as [Hlen|Hall]; [|done].
    destruct l as [|z [|z' l]]; simpl in Hlen; [| |lia].
    + by apply Permutation_nil_r in Hperm.
    + apply Permutation_length in Hperm as Hl. destruct r; [|done].
      apply Permutation_singleton_r in Hperm. injection Hperm as ->.
      repeat constructor. by exists ty.
Qed.

Lemma sort_by_published_pure l :
  Forall has_text l ->
  sort_by_published l = Ok (stable_sort published_lt l).
Proof.
  apply stable_sort_M_pure. intros x y [tx Hx] [ty Hy].
  unfold published_lt, published_text. by rewrite Hx, Hy.
Qed.

Lemma published_lt_asym a b :
  published_lt a b = true -> published_lt b a = false.
Proof.
  unfold published_lt. rewrite !string_ltb_leb, negb_true_iff, negb_false_iff.
  intros Hab. destruct (String.leb_total (published_text a) (published_text b));
    congruence.
Qed.

Lemma published_le_trans a b c :
  published_lt b a = false -> published_lt c b = false ->
  published_lt c a = false.
Proof.
  unfold published_lt. rewrite !string_ltb_leb, !negb_false_iff.
  intros. by eapply string_leb_trans.
Qed.

Lemma sort_by_published_sorted l l' :
  sort_by_published l = Ok l' ->
  l' ≡ₚ l /\ StronglySorted published_ge l'.
Proof.
  intros Hs. pose proof (stable_sort_M_perm _ _ _ Hs) as Hperm.
  split; [done|].
  destruct (sort_by_published_text _ _ Hs) as [Hlen|Htext].
  - apply Permutation_length in Hperm.
    destruct l' as [|x [|y l']]; simpl in *; [| |lia]; repeat constructor.
  - rewrite (sort_by_published_pure _ Htext) in Hs. injection Hs as <-.
    assert (Forall has_text (stable_sort published_lt l)) as Htext'
      by (by rewrite stable_sort_perm).
    pose proof (stable_sort_lex published_lt published_lt_asym
                  published_le_trans _ l (StronglySorted_any l)) as Hsorted.
    revert Htext' Hsorted. generalize (stable_sort published_lt l).
    intros k Htext'. induction 1 as [|x k Hk IH Hx]; [constructor|].
    apply Forall_cons in Htext' as [[tx Hx'] Htext'].
    constructor; [by apply IH|].
    rewrite Forall_forall in Hx, Htext' |- *. intros y Hy.
    destruct (Htext' y Hy) as [ty Hy'].
    specialize (Hx y Hy). apply lex_not_lt in Hx; [|apply published_lt_asym].
    unfold published_lt, published_text in Hx. rewrite Hx', Hy' in Hx.
    unfold published_ge. rewrite Hx', Hy'.
    by rewrite string_ltb_leb, negb_false_iff in Hx.
Qed.

Lemma rank_lt_asym a b : rank_lt a b = true -> rank_lt b a = false.
Proof. unfold rank_lt. rewrite Qltb_lt, Qltb_ge. lra. Qed.

Lemma rank_le_trans a b c :
  rank_lt b a = false -> rank_lt c b = false -> rank_lt c a = false.
Proof. unfold rank_lt. rewrite !Qltb_ge. lra. Qed.

Lemma sort_by_rank_perm l : sort_by_rank l ≡ₚ l.
Proof. apply stable_sort_perm. Qed.

Lemma sort_by_rank_sorted l :
  StronglySorted published_ge l -> StronglySorted rank_order (sort_by_rank l).
Proof.
  intros Hl.
  eapply StronglySorted_impl;
    [|exact (stable_sort_lex rank_lt rank_lt_asym rank_le_trans _ l Hl)].
  intros a b [Hlt|(Hab & Hba & Hge)]; unfold rank_lt in *.
  - left. apply Qltb_lt in Hlt. lra.
  - right. apply Qltb_ge in Hab, Hba. split; [lra|done].
Qed.

Lemma process_stories_inv now stories out :
  process_stories now stories = Ok out ->
  exists processed by_date,
    collect now stories = Ok processed
    /\ sort_by_published processed = Ok by_date
    /\ out = sort_by_rank by_date.
Proof.
  unfold process_stories.
  destruct (collect now stories) as [ps|]; simpl; [|done].
  destruct (sort_by_published ps) as [bd|] eqn:Hbd; simpl; [|done].
  intros [= <-]. by exists ps, bd.
Qed.

(** Every returned story was built by the loop body from a story of
    the batch. *)
Lemma process_stories_elem now stories out p :
  process_stories now stories = Ok out -> p ∈ out ->
  exists s, s ∈ stories /\ process_one now s = Ok p.
Proof.
  intros (ps & by_date & Hps & Hdate & ->)%process_stories_inv Hp.
  apply sort_by_published_sorted in Hdate as [Hperm _].
  rewrite sort_by_rank_perm, Hperm in Hp.
  apply collect_from_inv in Hps as [_ Hall].
  rewrite Forall_forall in Hall. by apply Hall.
Qed.

End Loop.

(** ** Recency decay *)

Lemma age_days_of_spec now t : (age_days_of (now - t) == age_in_days now t)%Q.
Proof.
  unfold age_days_of, age_in_days, total_seconds. rewrite py_max_spec.
  reflexivity.
Qed.

Lemma penalty_for_comp a b : (a == b)%Q -> (penalty_for a == penalty_for b)%Q.
Proof.
  intros Hab. unfold penalty_for. rewrite (Qleb_comp _ _ Hab 2%Q 2%Q (Qeq_refl 2%Q)).
  destruct (Qle_bool b 2); [reflexivity|]. by rewrite Hab.
Qed.

Lemma recency_penalty_of_spec a : (recency_penalty_of a == penalty_for a)%Q.
Proof.
  unfold recency_penalty_of, penalty_for, Qltb.
  destruct (Qle_bool a 2); simpl; [reflexivity|].
  rewrite py_min_spec. apply Q.min_compat; [|reflexivity].
  apply fl_proper, Qmult_comp; reflexivity.
Qed.

(** The penalty before its cap, for an age above 2 days. *)
Lemma raw_penalty_ge (lo : Z) (a : Q) :
  0 <= lo < 1000000 ->
  (inject_Z (2 * lo + 2) <= a)%Q ->
  (inject_Z lo <= fl (fl (a - 2) * (1 # 2)))%Q.
Proof.
  intros Hlo Ha. apply fl_ge_Z; [lia|].
  assert (inject_Z (2 * lo) <= fl (a - 2))%Q as H2.
  { apply fl_ge_Z; [lia|]. rewrite inject_Z_plus in Ha.
    change (inject_Z 2) with 2%Q in Ha. lra. }
  rewrite inject_Z_mult in H2. change (inject_Z 2) with 2%Q in H2. lra.
Qed.

Lemma penalty_for_bounds a : (0 <= penalty_for a <= 3)%Q.
Proof.
  unfold penalty_for. destruct (Qle_bool a 2) eqn:Ha; [lra|].
  apply not_true_iff_false in Ha. rewrite Qle_bool_iff in Ha.
  apply Qnot_le_lt in Ha. split.
  - apply Q.min_glb; [|lra]. apply (raw_penalty_ge 0); [lia|].
    change (inject_Z (2 * 0 + 2)) with 2%Q. lra.
  - apply Q.le_min_r.
Qed.


Lemma penalty_for_fresh a : (a <= 2)%Q -> penalty_for a = 0%Q.
Proof.
  intros Ha. unfold penalty_for. by rewrite (proj2 (Qle_bool_iff a 2) Ha).
Qed.

Lemma penalty_for_mono (a b : Q) :
  (a <= b)%Q -> (penalty_for a <= penalty_for b)%Q.
Proof.
  intros Hab. pose proof (penalty_for_bounds b) as Hb. unfold penalty_for in *.
  destruct (Qle_bool a 2) eqn:Ha; [lra|].
  apply not_true_iff_false in Ha. rewrite Qle_bool_iff in Ha.
  destruct (Qle_bool b 2) eqn:Hb2; [apply Qle_bool_iff in Hb2; lra|].
  apply Q.min_le_compat_r. apply fl_mono.
  assert (fl (a - 2) <= fl (b - 2))%Q by (apply fl_mono; lra). lra.
Qed.

(** The float of days of [delta_us] microseconds. *)
Lemma days_mono (d1 d2 : Z) :
  d1 <= d2 ->
  (fl (fl (inject_Z d1 / 1000000) / 86400)
   <= fl (fl (inject_Z d2 / 1000000) / 86400))%Q.
Proof.
  intros Hd. apply fl_mono.
  assert (fl (inject_Z d1 / 1000000) <= fl (inject_Z d2 / 1000000))%Q as Hs.
  { apply fl_mono. unfold Qdiv.
    apply Qmult_le_compat_r; [by rewrite <- Zle_Qle|by vm_compute]. }
  unfold Qdiv. apply Qmult_le_compat_r; [done|by vm_compute].
Qed.

(** A whole number of days is computed exactly. *)
Lemma days_exact (k : Z) :
  0 <= k < 1000000 ->
  (fl (fl (inject_Z (k * 86400 * 1000000) / 1000000) / 86400) == inject_Z k)%Q.
Proof.
  intros Hk.
  assert (inject_Z (k * 86400 * 1000000) / 1000000 == inject_Z (k * 86400))%Q
    as E1.
  { rewrite !inject_Z_mult. change (inject_Z 1000000) with 1000000%Q.
    field. }
  rewrite (fl_comp _ _ E1).
  assert (fl (inject_Z (k * 86400)) / 86400 == inject_Z k)%Q as E2.
  { rewrite fl_Z by lia. rewrite inject_Z_mult.
    change (inject_Z 86400) with 86400%Q. field. }
  rewrite (fl_comp _ _ E2). apply fl_Z. lia.
Qed.

Lemma age_in_days_anti (now t1 t2 : Z) :
  t1 <= t2 -> (age_in_days now t2 <= age_in_days now t1)%Q.
Proof.
  intros Ht. unfold age_in_days. apply Q.max_le_compat_l.
  apply days_mono. lia.
Qed.

Lemma age_in_days_nonneg (now t : Z) : (0 <= age_in_days now t)%Q.
Proof. unfold age_in_days. apply Q.le_max_l. Qed.

Lemma age_in_days_fresh (now t : Z) :
  now - t <= 2 * 86400 * 1000000 -> (age_in_days now t <= 2)%Q.
Proof.
  intros Ht. unfold age_in_days. apply Q.max_lub; [lra|].
  rewrite <- (days_exact 2) by lia. by apply days_mono.
Qed.



(** ** Counting the matching patterns *)

Lemma tables_NoDup :
  NoDup NATIONAL_KEYWORDS
  /\ NoDup (snd <$> ENTERPRISE_SIGNALS)
  /\ NoDup (fst <$> THEME_KEYWORDS)
  /\ Forall (fun entry => NoDup (snd entry)) THEME_KEYWORDS.
Proof.
  repeat split; apply (bool_decide_unpack _); vm_compute; exact I.
Qed.

Section Counting.

Context `{Runtime}.

Lemma NoDup_list_filter {A : Type} (f : A -> bool) l :
  NoDup l -> NoDup (List.filter f l).
Proof.
  induction 1 as [|x l Hx Hl IH]; simpl; [constructor|].
  destruct (f x); [|done]. constructor; [|done].
  rewrite list_elem_of_In, filter_In, <- list_elem_of_In. tauto.
Qed.

Lemma distinct_matching_length patterns text :
  NoDup patterns ->
  distinct_matching patterns text
  = Z.of_nat (length (List.filter (fun p => re_search p text) patterns)).
Proof.
  intros Hnd. unfold distinct_matching. f_equal.
  apply size_list_to_set. by apply NoDup_list_filter.
Qed.

Lemma py_sum_from (xs : list Z) a : fold_left Z.add xs a = a + py_sum xs.
Proof.
  unfold py_sum. revert a. induction xs as [|x xs IH]; intros a; simpl; [lia|].
  rewrite (IH (a + x)), (IH (0 + x)). lia.
Qed.

Lemma py_sum_ones {A : Type} (l : list A) :
  py_sum ((fun _ => 1) <$> l) = Z.of_nat (length l).
Proof.
  induction l as [|x l IH]; [done|].
  unfold py_sum in *. rewrite fmap_cons. simpl fold_left.
  rewrite py_sum_from. unfold py_sum. rewrite IH. simpl length. lia.
Qed.

(** The loop [for pattern in patterns: if re.search(...): score += k]. *)
Lemma count_loop (k : Z) patterns text a :
  fold_left (fun score pattern =>
               if re_search pattern text then score + k else score)
    patterns a
  = a + k * Z.of_nat (length (List.filter (fun p => re_search p text) patterns)).
Proof.
  revert a. induction patterns as [|p l IH]; intros a; simpl; [lia|].
  rewrite IH. destruct (re_search p text); simpl length; lia.
Qed.

Lemma weight_loop signals text a :
  fold_left (fun score '(weight, pattern) =>
               if re_search pattern text then score + weight else score)
    signals a
  = a + matching_weight signals text.
Proof.
  unfold matching_weight. revert a.
  induction signals as [|[w p] l IH]; intros a; [simpl; lia|].
  simpl fold_left. rewrite IH. simpl List.filter.
  destruct (re_search p text); [rewrite fmap_cons; simpl foldr|]; lia.
Qed.

Lemma py_max_default_ge (d : Z) (xs : list Z) (b : Z) :
  b <= py_max_default d xs <-> (xs = [] /\ b <= d) \/ Exists (fun x => b <= x) xs.
Proof.
  destruct xs as [|x xs]; simpl.
  - split; [by left|]. intros [[_ ?]|?%Exists_nil]; done.
  - transitivity (Exists (fun x => b <= x) (x :: xs));
      [|split; [by right|by intros [[? _]|?]]].
    revert x. induction xs as [|y xs IH]; intros x; simpl.
    + rewrite Exists_cons, Exists_nil. tauto.
    + rewrite IH, !Exists_cons, Z.max_le_iff. tauto.
Qed.

Lemma nat_leb_decide (a b : nat) : (a <=? b)%nat = bool_decide (a <= b)%nat.
Proof. destruct (Nat.leb_spec a b); case_bool_decide; (done || lia). Qed.

Lemma max_strength_decide (themes : list theme_tag) :
  (3 <=? py_max_default 0 (strength <$> themes))
  = bool_decide (Exists (fun t => 3 <= strength t) themes).
Proof.
  pose proof (py_max_default_ge 0 (strength <$> themes) 3) as Hmax.
  rewrite Exists_fmap in Hmax.
  destruct (Z.leb_spec 3 (py_max_default 0 (strength <$> themes))) as [Hle|Hlt];
    case_bool_decide as Hex; try done.
  - destruct (proj1 Hmax Hle) as [[_ ?]|?]; [lia|done].
  - assert (3 <= py_max_default 0 (strength <$> themes)); [|lia].
    apply Hmax. by right.
Qed.

Lemma score_national_spec title summary themes :
  score_national title summary themes = national_base title summary themes.
Proof.
  destruct tables_NoDup as (Hnd & _).
  unfold score_national, national_base, combined.
  rewrite count_loop, distinct_matching_length by done.
  generalize (Z.of_nat (length (List.filter
    (fun p => re_search p (title +:+ " " +:+ summary)) NATIONAL_KEYWORDS))).
  intros n. cbv zeta.
  rewrite !nat_leb_decide, max_strength_decide.
  destruct (bool_decide (2 <= length themes)%nat),
    (bool_decide (3 <= length themes)%nat),
    (bool_decide (Exists (fun t => 3 <= strength t) themes)); lia.
Qed.

Lemma national_base_range title summary themes :
  0 <= national_base title summary themes <= 10.
Proof.
  unfold national_base, distinct_matching.
  generalize (size (list_to_set (List.filter
    (fun p => re_search p (title +:+ " " +:+ summary)) NATIONAL_KEYWORDS)
    : gset string)).
  intros n.
  destruct (bool_decide (2 <= length themes)%nat),
    (bool_decide (3 <= length themes)%nat),
    (bool_decide (Exists (fun t => 3 <= strength t) themes)); lia.
Qed.

Lemma score_national_range title summary themes :
  0 <= score_national title summary themes <= 10.
Proof. rewrite score_national_spec. apply national_base_range. Qed.

End Counting.

(** ** Theme tags *)

Section Themes.

Context `{Runtime}.

(** The loop of [tag_themes] appends the tag of each category that has
    one, in the order of the table. *)
Lemma theme_loop title summary table acc :
  Forall (fun entry => NoDup entry.2) table ->
  fold_left
    (fun themes '(theme, patterns) =>
       let score :=
         py_sum ((fun _ => 1)
                   <$> List.filter
                         (fun p => re_search p (combined title summary))
                         patterns) in
       if 1 <=? score
       then themes ++ [ {| name := theme; strength := Z.min score 5 |} ]
       else themes)
    table acc
  = acc ++ omap (category_tag title summary) table.
Proof.
  intros Hnd. revert acc. unfold combined.
  induction Hnd as [|[theme patterns] table Hp Hnd IH]; intros acc; simpl.
  - by rewrite app_nil_r.
  - rewrite IH. unfold category_tag, category_strength. simpl.
    rewrite py_sum_ones, <- distinct_matching_length by done.
    destruct (Z.leb_spec 1
                (distinct_matching patterns (title +:+ " " +:+ summary)));
      case_bool_decide; try lia; [|done].
    by rewrite <- app_assoc.
Qed.

Lemma tag_themes_unfold title summary :
  tag_themes title summary
  = stable_sort strength_lt (omap (category_tag title summary) THEME_KEYWORDS).
Proof.
  destruct tables_NoDup as (_ & _ & _ & Hnd).
  unfold tag_themes. by rewrite theme_loop.
Qed.

Lemma category_tag_Some title summary entry t :
  category_tag title summary entry = Some t ->
  name t = entry.1
  /\ strength t = category_strength entry.2 title summary
  /\ 1 <= strength t <= 5.
Proof.
  unfold category_tag, category_strength. case_bool_decide as Hk; [|done].
  intros [= <-]. cbn [name strength].
  revert Hk.
  generalize (distinct_matching entry.2 (title +:+ " " +:+ summary)).
  intros k Hk. repeat split; (done || lia).
Qed.

Lemma category_tag_sorted title summary (pre table : list (string * list string)) :
  StronglySorted
    (fun a b => enum_before (fst <$> (pre ++ table)) (name a) (name b))
    (omap (category_tag title summary) table).
Proof.
  revert pre. induction table as [|e table IH]; intros pre; simpl;
    [constructor|].
  specialize (IH (pre ++ [e])). rewrite <- app_assoc in IH. simpl in IH.
  destruct (category_tag title summary e) as [t|] eqn:Ht; [|done].
  constructor; [done|].
  apply category_tag_Some in Ht as (Hname & _).
  rewrite Forall_forall. intros b (e' & He' & Hb)%list_elem_of_omap.
  apply category_tag_Some in Hb as (Hname' & _).
  apply list_elem_of_lookup in He' as [j Hj].
  exists (length pre), (length pre + S j)%nat. split; [lia|].
  rewrite !list_lookup_fmap. split.
  - rewrite lookup_app_r, Nat.sub_diag by lia. simpl. by rewrite Hname.
  - rewrite lookup_app_r by lia.
    replace (length pre + S j - length pre)%nat with (S j) by lia.
    simpl. by rewrite Hj, Hname'.
Qed.

Lemma strength_lt_asym a b : strength_lt a b = true -> strength_lt b a = false.
Proof. unfold strength_lt. lia. Qed.

Lemma strength_le_trans a b c :
  strength_lt b a = false -> strength_lt c b = false -> strength_lt c a = false.
Proof. unfold strength_lt. lia. Qed.

Lemma NoDup_fst_functional {A B : Type} (l : list (A * B)) x y1 y2 :
  NoDup (fst <$> l) -> (x, y1) ∈ l -> (x, y2) ∈ l -> y1 = y2.
Proof.
  induction l as [|[a b] l IH]; simpl; [by intros _ ?%elem_of_nil|].
  rewrite NoDup_cons. intros [Ha Hnd] H1 H2.
  apply elem_of_cons in H1 as [[= -> ->]|H1];
    apply elem_of_cons in H2 as [[= ?]|H2]; subst; try done.
  - exfalso. apply Ha. apply list_elem_of_fmap. by exists (a, y2).
  - exfalso. apply Ha. apply list_elem_of_fmap. by exists (a, y1).
  - by apply IH.
Qed.

Lemma omap_names_sublist title summary table :
  name <$> omap (category_tag title summary) table `sublist_of` fst <$> table.
Proof.
  induction table as [|e table IH]; simpl; [done|].
  destruct (category_tag title summary e) as [t|] eqn:Ht.
  - apply category_tag_Some in Ht as (Hname & _).
    rewrite !fmap_cons, Hname. by apply sublist_skip.
  - by apply sublist_cons.
Qed.

End Themes.

(** * The claims *)

(** C1, as amended. Ordering law. Whenever [process_stories] returns a
    list, every adjacent pair [A], [B] of it, [A] first, has
    [rankScore A > rankScore B], or [rankScore A == rankScore B] and
    [published A >= published B], where the two values under
    [published] are the stored strings, compared code point by code
    point as Python compares them, and not the instants they denote;
    and the same holds of every pair of the list, not only the adjacent
    ones: the list is ordered by [rankScore] downwards and, among equal
    [rankScore], by the [published] string downwards. *)
Theorem ordering_law `{Runtime} (now : Z) (stories : list story)
  (out : list processed) :
  process_stories now stories = Ok out ->
  (forall (i : nat) (A B : processed),
      out !! i = Some A -> out !! S i = Some B ->
      (rankScore B < rankScore A)%Q
      \/ (rankScore A == rankScore B /\ published_ge A B)%Q)
  /\ StronglySorted rank_order out.
Proof.
  intros (ps & by_date & _ & Hdate & ->)%process_stories_inv.
  apply sort_by_published_sorted in Hdate as [_ Hdate].
  apply sort_by_rank_sorted in Hdate.
  split; [|done]. intros i A B HA HB.
  apply (StronglySorted_lookup rank_order _ i (S i) A B Hdate); [lia|done..].
Qed.

Lemma ordering_law_witness :
  process_stories Sample.now
    [Sample4.half_past; Sample.federal; Sample4.on_the_second]
  = Ok [Sample.federal_out; Sample4.on_the_second_out; Sample4.half_past_out]
  /\ ((forall (i : nat) (A B : processed),
          [Sample.federal_out; Sample4.on_the_second_out;
           Sample4.half_past_out] !! i = Some A ->
          [Sample.federal_out; Sample4.on_the_second_out;
           Sample4.half_past_out] !! S i = Some B ->
          (rankScore B < rankScore A)%Q
          \/ (rankScore A == rankScore B /\ published_ge A B)%Q)
      /\ StronglySorted rank_order
           [Sample.federal_out; Sample4.on_the_second_out;
            Sample4.half_past_out]).
Proof.
  split; [vm_compute; reflexivity|].
  apply (ordering_law Sample.now
           [Sample4.half_past; Sample.federal; Sample4.on_the_second]).
  vm_compute; reflexivity.
Defined.

(** C1, as stated, fails: the specification orders stories of equal
    [rankScore] by their published timestamp. The two stories of this
    batch have the same [rankScore]; the one published at 00:00:01 UTC
    comes out before the one published half a second later, because the
    string that ends in [Z] is above the string that goes on with
    [.500000+00:00]. *)
Lemma timestamp_order_counterexample :
  process_stories Sample.now [Sample4.half_past; Sample4.on_the_second]
  = Ok [Sample4.on_the_second_out; Sample4.half_past_out]
  /\ published_instant Sample4.on_the_second_out = Some 1710028801000000
  /\ published_instant Sample4.half_past_out = Some 1710028801500000
  /\ (rankScore Sample4.on_the_second_out
      == rankScore Sample4.half_past_out)%Q
  /\ ~ timestamp_order Sample4.on_the_second_out Sample4.half_past_out
  /\ published_ge Sample4.on_the_second_out Sample4.half_past_out.
Proof.
  split; [vm_compute; reflexivity|].
  assert (published_instant Sample4.on_the_second_out = Some 1710028801000000)
    as Hfirst by (vm_compute; reflexivity).
  assert (published_instant Sample4.half_past_out = Some 1710028801500000)
    as Hsecond by (vm_compute; reflexivity).
  split; [done|]. split; [done|]. split; [reflexivity|].
  split; [|vm_compute; reflexivity].
  intros [Hlt|(_ & ta & tb & Ha & Hb & Hle)].
  - by vm_compute in Hlt.
  - rewrite Hfirst in Ha. rewrite Hsecond in Hb.
    injection Ha as <-. injection Hb as <-. lia.
Qed.

(** C7, as amended. Whenever [process_stories] returns, the list it
    had built before its two sorts consists of the first occurrences of
    the input, in their original order: a record is dropped iff an
    earlier record of the batch has the same normalized title, no two
    kept records share a normalized title, and the returned list is a
    rearrangement of that list. *)
Theorem first_occurrences_kept `{Runtime} (now : Z) (stories : list story)
  (out : list processed) :
  process_stories now stories = Ok out ->
  exists processed : list processed,
    collect now stories = Ok processed
    /\ raw <$> processed = first_occurrences stories
    /\ first_occurrences stories `sublist_of` stories
    /\ NoDup (title_key <$> first_occurrences stories)
    /\ out ≡ₚ processed.
Proof.
  intros (ps & by_date & Hps & Hdate & ->)%process_stories_inv.
  exists ps. split; [done|].
  apply collect_from_inv in Hps as [Hraw _].
  apply sort_by_published_sorted in Hdate as [Hperm _].
  rewrite <- dedup_first_occurrences. unfold dedup.
  repeat split.
  - done.
  - apply dedup_from_sublist.
  - apply dedup_from_NoDup.
  - by rewrite sort_by_rank_perm.
Qed.

Lemma first_occurrences_kept_witness :
  process_stories Sample.now [Sample.quiet; Sample.federal]
  = Ok [Sample.federal_out; Sample.quiet_out]
  /\ exists processed : list processed,
      collect Sample.now [Sample.quiet; Sample.federal] = Ok processed
      /\ raw <$> processed = first_occurrences [Sample.quiet; Sample.federal]
      /\ first_occurrences [Sample.quiet; Sample.federal]
           `sublist_of` [Sample.quiet; Sample.federal]
      /\ NoDup (title_key <$> first_occurrences [Sample.quiet; Sample.federal])
      /\ [Sample.federal_out; Sample.quiet_out] ≡ₚ processed.
Proof.
  split; [vm_compute; reflexivity|].
  apply (first_occurrences_kept Sample.now [Sample.quiet; Sample.federal]).
  vm_compute; reflexivity.
Defined.

(** C7, as stated, fails: on the batch [quiet; federal] the records
    returned by [process_stories] come from [federal; quiet], which is
    not the list of first occurrences and not a subsequence of the
    input. *)
Lemma output_order_counterexample :
  exists out : list processed,
    process_stories Sample.now [Sample.quiet; Sample.federal] = Ok out
    /\ raw <$> out = [Sample.federal; Sample.quiet]
    /\ first_occurrences [Sample.quiet; Sample.federal]
       = [Sample.quiet; Sample.federal]
    /\ ~ (raw <$> out) `sublist_of` [Sample.quiet; Sample.federal].
Proof.
  exists [Sample.federal_out; Sample.quiet_out].
  split; [vm_compute; reflexivity|].
  split; [reflexivity|]. split; [vm_compute; reflexivity|].
  change (raw <$> [Sample.federal_out; Sample.quiet_out])
    with [Sample.federal; Sample.quiet].
  intros Hsub.
  apply sublist_cons_l in Hsub as (k1 & k2 & Hk & Hsub).
  apply sublist_length in Hsub as Hlen. simpl in Hlen.
  destruct k1 as [|a [|b k1]]; simpl in Hk.
  - by injection Hk.
  - apply (f_equal length) in Hk. simpl in Hk. lia.
  - apply (f_equal length) in Hk. simpl in Hk.
    rewrite length_app in Hk. simpl in Hk. lia.
Qed.

(** C10. The [rankScore] of every story that [process_stories] returns
    lies between -3 and 10. *)
Theorem rank_score_range `{Runtime} (now : Z) (stories : list story)
  (out : list processed) (p : processed) :
  process_stories now stories = Ok out ->
  p ∈ out ->
  (-3 <= rankScore p <= 10)%Q.
Proof.
  intros Hout Hp.
  destruct (process_stories_elem _ _ _ _ Hout Hp) as (s & _ & Hs).
  apply process_one_inv in Hs
    as (t & _ & _ & _ & _ & _ & Hnat & _ & ->).
  assert (0 <= nationalSignificance p <= 10) as Hrange.
  { rewrite Hnat. cbv zeta.
    pose proof (score_national_range (s_title s) (s_summary s) (themes p)).
    destruct (isEnterprise p); lia. }
  pose proof (penalty_for_bounds (age_days_of (now - t))) as Hpen.
  rewrite <- recency_penalty_of_spec in Hpen.
  apply (py_round_between (-3) 10); [lia..|].
  apply (fl_between (-3) 10); [lia..|].
  destruct Hrange as [Hlo Hhi]. rewrite Zle_Qle in Hlo, Hhi.
  change (inject_Z (-3)) with (-3)%Q. change (inject_Z 10) with 10%Q in *.
  change (inject_Z 0) with 0%Q in *. lra.
Qed.

Lemma rank_score_range_witness :
  process_stories Sample.now [Sample.ten_days_old] = Ok [Sample.ten_days_old_out]
  /\ Sample.ten_days_old_out ∈ [Sample.ten_days_old_out]
  /\ (-3 <= rankScore Sample.ten_days_old_out <= 10)%Q.
Proof.
  split; [vm_compute; reflexivity|]. split; [apply list_elem_of_here|].
  apply (rank_score_range Sample.now [Sample.ten_days_old]
           [Sample.ten_days_old_out]).
  - vm_compute; reflexivity.
  - apply list_elem_of_here.
Defined.

(** ** The error of rounding *)




(** The score before the penalty lies between 0 and 10. *)
Lemma process_one_range `{Runtime} (now : Z) (s : story) (p : processed) :
  process_one now s = Ok p -> 0 <= nationalSignificance p <= 10.
Proof.
  intros (t & _ & _ & _ & _ & _ & Hnat & _)%process_one_inv.
  rewrite Hnat. cbv zeta.
  pose proof (score_national_range (s_title s) (s_summary s) (themes p)).
  destruct (isEnterprise p); lia.
Qed.




(** The fallback of the [try] block: a string that does not parse is
    taken as published at [now], whatever the batch. *)
Lemma unparseable_text_is_now `{Runtime} (now : Z) (s : story) (text : string) :
  s_published s = Text text ->
  fromisoformat (Str.replace_Z text) = None ->
  exists p : processed,
    process_one now s = Ok p
    /\ (ageDays p == 0)%Q
    /\ (rankScore p == inject_Z (nationalSignificance p))%Q.
Proof.
  intros Hpub Hparse.
  assert (parse_published now (s_published s) = Ok (Aware now)) as Ht.
  { unfold parse_published. by rewrite Hpub, Hparse. }
  destruct (process_one_total now s now Ht) as [p Hp]. exists p.
  split; [done|].
  pose proof (process_one_range now s p Hp) as Hrange.
  apply process_one_inv in Hp as (t & Ht' & _ & _ & _ & _ & _ & Hage & Hrank).
  rewrite Ht in Ht'. injection Ht' as <-.
  rewrite Z.sub_diag in Hage, Hrank.
  change (age_days_of 0) with 0%Q in Hage, Hrank.
  change (recency_penalty_of 0) with 0%Q in Hrank.
  split; [by rewrite Hage|].
  rewrite Hrank. set (n := nationalSignificance p) in *.
  assert (fl (inject_Z n - 0) == inject_Z n)%Q as E.
  { assert (inject_Z n - 0 == inject_Z n)%Q as E0 by ring.
    rewrite (fl_comp _ _ E0). apply fl_Z. lia. }
  rewrite (py_round_comp _ _ 2 E). apply py_round_Z. lia.
Qed.

(** A returned batch of two or more stories holds a string under
    [published] in each of them. *)
Lemma returned_batch_has_text `{Runtime} (now : Z) (stories : list story)
  (out : list processed) :
  process_stories now stories = Ok out ->
  (length out <= 1)%nat \/ Forall has_text out.
Proof.
  intros (ps & by_date & Hps & Hdate & ->)%process_stories_inv.
  pose proof (sort_by_published_sorted _ _ Hdate) as [Hperm _].
  destruct (sort_by_published_text _ _ Hdate) as [Hlen|Htext].
  - left. by rewrite sort_by_rank_perm, Hperm.
  - right. by rewrite sort_by_rank_perm, Hperm.
Qed.

(** A story without the key [published] stops the batch. *)
Lemma absent_published_raises `{Runtime} (now : Z) (s : story)
  (rest : list story) :
  s_published s = Absent ->
  process_stories now (s :: rest) = Raise KeyError.
Proof.
  intros Hpub. unfold process_stories, collect. simpl.
  rewrite decide_False by apply not_elem_of_empty.
  unfold process_one, parse_published. rewrite Hpub.
  by destruct (detect_enterprise _ _).
Qed.

(** C8, at its failing inputs. The batch [no_date; federal], whose first
    story holds [null] under [published], raises [TypeError] in the sort
    by [published]; the batch [no_key], whose story has no such key,
    raises [KeyError]. Alone in its batch, [no_date] is processed with
    age 0; so is [bad_date], whose string does not parse. *)
Theorem missing_published_fails :
  process_stories Sample.now [Sample.no_date; Sample.federal] = Raise TypeError
  /\ process_stories Sample.now [Sample.no_key] = Raise KeyError
  /\ (exists p, process_stories Sample.now [Sample.no_date] = Ok [p]
                /\ ageDays p == 0 /\ rankScore p == 0)%Q
  /\ (exists p, process_stories Sample.now [Sample.bad_date] = Ok [p]
                /\ ageDays p == 0 /\ rankScore p == 0)%Q.
Proof.
  split; [vm_compute; reflexivity|]. split; [vm_compute; reflexivity|].
  split; eexists; (split; [vm_compute; reflexivity|]); by vm_compute.
Qed.

(** C2, at its failing input. The titles of [long_one] and [long_two]
    agree on their first 60 letters and digits: the acquisition stage
    gives them one key and keeps one story, the engine gives them two
    keys and keeps both. The key of the acquisition stage is the first
    60 characters of the key of the engine. *)
Theorem engine_key_not_truncated :
  (forall title : string, key title = Str.take 60 (norm title))
  /\ key (s_title Sample.long_one) = key (s_title Sample.long_two)
  /\ norm (s_title Sample.long_one) <> norm (s_title Sample.long_two)
  /\ unique [Sample.long_one; Sample.long_two] = [Sample.long_one]
  /\ dedup [Sample.long_one; Sample.long_two]
     = [Sample.long_one; Sample.long_two].
Proof.
  split; [reflexivity|]. split; [vm_compute; reflexivity|].
  split; [by vm_compute|]. split; vm_compute; reflexivity.
Qed.

(** C3. For every story that [process_stories] returns,
    [nationalSignificance] is the base score, boosted by 2 and clamped to
    10 when [isEnterprise] holds; the base score is the minimum of 10 and
    twice the number of distinct patterns of [NATIONAL_KEYWORDS] that
    match, whatever the case of the letters, the title and the summary
    joined by a single space, plus 1 for two themes
    or more, plus 1 for three themes or more, plus 1 when some theme has
    strength 3 or more; both scores lie between 0 and 10. *)
Theorem national_significance `{Runtime} (now : Z) (stories : list story)
  (out : list processed) (p : processed) :
  process_stories now stories = Ok out ->
  p ∈ out ->
  let base := national_base (title p) (summary p) (themes p) in
  themes p = tag_themes (title p) (summary p)
  /\ isEnterprise p = (detect_enterprise (title p) (summary p)).1
  /\ nationalSignificance p
     = (if isEnterprise p then Z.min (base + 2) 10 else base)
  /\ 0 <= base <= 10
  /\ 0 <= nationalSignificance p <= 10.
Proof.
  intros Hout Hp base.
  destruct (process_stories_elem _ _ _ _ Hout Hp) as (s & _ & Hs).
  apply process_one_inv in Hs
    as (t & _ & Hraw & _ & Hthemes & Hent & Hnat & _).
  cbv zeta in Hnat. rewrite score_national_spec in Hnat.
  assert (s_title s = title p /\ s_summary s = summary p) as [Ht Hsum]
    by (by rewrite <- Hraw).
  rewrite Ht, Hsum in *. fold base in Hnat.
  pose proof (national_base_range (title p) (summary p) (themes p)) as Hbase.
  fold base in Hbase.
  do 4 (split; [done|]). rewrite Hnat. destruct (isEnterprise p); lia.
Qed.

Lemma national_significance_witness :
  process_stories Sample.now [Sample4.landmark] = Ok [Sample4.landmark_out]
  /\ Sample4.landmark_out ∈ [Sample4.landmark_out]
  /\ let p := Sample4.landmark_out in
     let base := national_base (title p) (summary p) (themes p) in
     themes p = tag_themes (title p) (summary p)
     /\ isEnterprise p = (detect_enterprise (title p) (summary p)).1
     /\ nationalSignificance p
        = (if isEnterprise p then Z.min (base + 2) 10 else base)
     /\ 0 <= base <= 10
     /\ 0 <= nationalSignificance p <= 10.
Proof.
  split; [vm_compute; reflexivity|]. split; [apply list_elem_of_here|].
  apply (national_significance Sample.now [Sample4.landmark]
           [Sample4.landmark_out]).
  - vm_compute; reflexivity.
  - apply list_elem_of_here.
Defined.

(** The story of the witness: three patterns of [NATIONAL_KEYWORDS]
    match, it carries three themes, two of strength 4, and it is
    enterprise journalism; its base score is 2 * 3 + 1 + 1 + 1 = 9, and
    the boost is cut at 10. *)
Lemma landmark_scores :
  let p := Sample4.landmark_out in
  distinct_matching NATIONAL_KEYWORDS (title p +:+ " " +:+ summary p) = 3
  /\ national_base (title p) (summary p) (themes p) = 9
  /\ detect_enterprise (title p) (summary p) = (true, 10)
  /\ nationalSignificance p = 10.
Proof. repeat split; vm_compute; reflexivity. Qed.

(** C4. For every title and summary, the score that [detect_enterprise]
    returns is the sum of the weights of the signals of
    [ENTERPRISE_SIGNALS] whose pattern matches, whatever the case of the
    letters, the title and the summary joined by a single space, each
    signal counted once and no pattern standing in two signals; and its
    flag is true iff that score is 3 or more. *)
Theorem enterprise_score `{Runtime} (title summary : string) :
  let score :=
    matching_weight ENTERPRISE_SIGNALS (title +:+ " " +:+ summary) in
  (detect_enterprise title summary).2 = score
  /\ ((detect_enterprise title summary).1 = true <-> 3 <= score)
  /\ NoDup (snd <$> ENTERPRISE_SIGNALS).
Proof.
  intros score. unfold detect_enterprise, combined. cbv zeta.
  rewrite weight_loop, Z.add_0_l. fold score. cbn [fst snd].
  split; [done|]. split; [|apply tables_NoDup].
  unfold ENTERPRISE_THRESHOLD. apply Z.leb_le.
Qed.

(** C5. For every title and summary, [tag_themes] returns, for each
    category of [THEME_KEYWORDS], a tag iff at least one pattern of the
    category matches the title and the summary joined by a single
    space, whatever the case of the letters, and the strength of the tag
    is the number of distinct matching patterns of the category, capped
    at 5; it returns
    nothing else, and no category twice; its output is ordered by
    strength downwards and, among equal strengths, in the order of the
    categories in the table; every strength is in [1, 5]. *)
Theorem theme_tags `{Runtime} (title summary : string) :
  let out := tag_themes title summary in
  (forall (theme : string) (patterns : list string) (k : Z),
      (theme, patterns) ∈ THEME_KEYWORDS ->
      {| name := theme; strength := k |} ∈ out
      <-> k = category_strength patterns title summary
          /\ 1 <= distinct_matching patterns (title +:+ " " +:+ summary))
  /\ (forall t : theme_tag,
         t ∈ out -> exists patterns, (name t, patterns) ∈ THEME_KEYWORDS)
  /\ NoDup (name <$> out)
  /\ StronglySorted theme_order out
  /\ (forall t : theme_tag, t ∈ out -> 1 <= strength t <= 5).
Proof.
  intros out. unfold out. rewrite tag_themes_unfold.
  destruct tables_NoDup as (_ & _ & Hnames & _).
  set (tags := omap (category_tag title summary) THEME_KEYWORDS).
  assert (forall t, t ∈ stable_sort strength_lt tags <-> t ∈ tags) as Hin.
  { intros t. by rewrite stable_sort_perm. }
  split; [|split; [|split; [|split]]].
  - intros theme patterns k Hentry. rewrite Hin. unfold tags.
    rewrite list_elem_of_omap. split.
    + intros ([theme' patterns'] & Hentry' & Htag).
      unfold category_tag in Htag. simpl in Htag.
      case_bool_decide as Hk; [|done]. injection Htag as -> <-.
      by rewrite (NoDup_fst_functional _ _ _ _ Hnames Hentry Hentry') in *.
    + intros [-> Hk]. exists (theme, patterns). split; [done|].
      unfold category_tag. simpl. by rewrite bool_decide_eq_true_2.
  - intros t [[theme patterns] [Hentry Htag]]%Hin%list_elem_of_omap.
    apply category_tag_Some in Htag as (-> & _). by exists patterns.
  - rewrite stable_sort_perm.
    eapply sublist_NoDup; [exact Hnames|apply omap_names_sublist].
  - eapply StronglySorted_impl;
      [|apply (stable_sort_lex strength_lt strength_lt_asym strength_le_trans);
        apply (category_tag_sorted title summary [] THEME_KEYWORDS)].
    intros a b. unfold strength_lt, theme_order.
    intros [Hlt|(Hab & Hba & Hbefore)]; [left; lia|right].
    split; [lia|done].
  - intros t [entry [_ Htag]]%Hin%list_elem_of_omap.
    by apply category_tag_Some in Htag as (_ & _ & ?).
Qed.

(** ** Further runs of the processor *)

(** Among stories of equal [rankScore] the later [published] comes
    first, whatever the order of the batch. *)
Lemma tie_break_example :
  exists a b : processed,
    process_stories Sample.now [Sample.long_two; Sample.long_one] = Ok [a; b]
    /\ raw a = Sample.long_one
    /\ raw b = Sample.long_two
    /\ (rankScore a == rankScore b)%Q.
Proof.
  eexists _, _. split; [vm_compute; reflexivity|]. by vm_compute.
Qed.

(** A [published] string that parses to a [datetime] without offset
    stops the batch: [now - pub_dt] is outside the [try] block. *)
Lemma naive_published_raises `{Runtime} (now : Z) (s : story)
  (rest : list story) (text : string) (t : Z) :
  s_published s = Text text ->
  fromisoformat (Str.replace_Z text) = Some (Naive t) ->
  process_stories now (s :: rest) = Raise TypeError.
Proof.
  intros Hpub Hparse. unfold process_stories, collect. simpl.
  rewrite decide_False by apply not_elem_of_empty.
  unfold process_one, parse_published. rewrite Hpub, Hparse.
  by destruct (detect_enterprise _ _).
Qed.

(** The reference matcher reads every pattern of the three tables. *)
Lemma reference_patterns_parse :
  Forall (fun pattern => is_Some (Regex.parse pattern))
    (NATIONAL_KEYWORDS ++ (snd <$> ENTERPRISE_SIGNALS)
     ++ concat (snd <$> THEME_KEYWORDS)).
Proof. apply (bool_decide_unpack _). vm_compute. exact I. Qed.

(** * Further properties of the engine *)

Lemma stands_before_cons {A : Type} (l : list A) (z x y : A) :
  stands_before l x y -> stands_before (z :: l) x y.
Proof.
  intros (i & j & Hij & Hi & Hj). exists (S i), (S j). split; [lia|done].
Qed.

Lemma stands_before_head {A : Type} (l : list A) (x y : A) :
  y ∈ l -> stands_before (x :: l) x y.
Proof.
  intros [j Hj]%list_elem_of_lookup. exists O, (S j). split; [lia|done].
Qed.

Lemma stands_before_sorted {A : Type} (l : list A) :
  StronglySorted (stands_before l) l.
Proof.
  induction l as [|x l IH]; [constructor|]. constructor.
  - eapply StronglySorted_impl; [|exact IH].
    intros a b. apply stands_before_cons.
  - rewrite Forall_forall. intros y Hy. by apply stands_before_head.
Qed.

Lemma stands_before_sublist {A : Type} (l k : list A) (x y : A) :
  l `sublist_of` k -> stands_before l x y -> stands_before k x y.
Proof.
  induction 1 as [|z l k Hsub IH|z l k Hsub IH]; intros Hb.
  - done.
  - destruct Hb as (i & j & Hij & Hi & Hj).
    destruct j as [|j]; [lia|]. simpl in Hj. destruct i as [|i]; simpl in Hi.
    + injection Hi as ->. apply stands_before_head.
      eapply elem_of_sublist; [|exact Hsub]. by eapply list_elem_of_lookup_2.
    + apply stands_before_cons, IH. exists i, j. split; [lia|done].
  - by apply stands_before_cons, IH.
Qed.

Lemma stands_before_fmap {A B : Type} (f : A -> B) (l : list A) (x y : A) :
  stands_before l x y -> stands_before (f <$> l) (f x) (f y).
Proof.
  intros (i & j & Hij & Hi & Hj). exists i, j.
  rewrite !list_lookup_fmap, Hi, Hj. done.
Qed.

Lemma string_compare_eq (x y : string) :
  String.ltb x y = false -> String.ltb y x = false -> x = y.
Proof.
  unfold String.ltb. rewrite (String.compare_antisym y x).
  destruct (String.compare x y) eqn:Hc; simpl; try done.
  intros _ _. by apply String.compare_eq_iff.
Qed.

Section Order.

Context `{Runtime}.

Lemma sort_by_published_stable (l l' : list processed) (before : relation processed) :
  sort_by_published l = Ok l' ->
  StronglySorted before l ->
  StronglySorted (lex published_lt before) l'.
Proof.
  intros Hs Hl. pose proof (stable_sort_M_perm _ _ _ Hs) as Hperm.
  destruct (sort_by_published_text _ _ Hs) as [Hlen|Htext].
  - apply Permutation_length in Hperm.
    destruct l' as [|x [|y l']]; simpl in *; [| |lia]; repeat constructor.
  - rewrite (sort_by_published_pure _ Htext) in Hs. injection Hs as <-.
    by apply stable_sort_lex;
      [apply published_lt_asym|apply published_le_trans|].
Qed.

(** X1. The order of the digest is complete: [process_stories] returns
    its stories by [rankScore] downwards, those of equal [rankScore] by
    the text under [published] downwards, and those that agree on both
    in the order in which the batch held them, each story standing in
    the batch where it first occurs. No two stories of the output are
    left unordered: the order decides the place of each. *)
Theorem digest_order_complete (now : Z) (stories : list story)
  (out : list processed) :
  process_stories now stories = Ok out ->
  StronglySorted (digest_order stories) out.
Proof.
  intros (ps & by_date & Hps & Hdate & ->)%process_stories_inv.
  apply collect_from_inv in Hps as [Hraw _].
  pose proof (sort_by_published_stable _ _ _ Hdate (stands_before_sorted ps))
    as Hsorted.
  eapply StronglySorted_impl;
    [|exact (stable_sort_lex rank_lt rank_lt_asym rank_le_trans _ _ Hsorted)].
  intros a b [Hlt|(Hab & Hba & Hpub)]; unfold rank_lt in *.
  - left. apply Qltb_lt in Hlt. lra.
  - right. apply Qltb_ge in Hab, Hba. split; [lra|].
    destruct Hpub as [Hlt|(Hab' & Hba' & Hbefore)]; [by left|right].
    split; [by apply string_compare_eq|].
    rewrite <- dedup_first_occurrences. unfold dedup.
    rewrite <- Hraw. by apply stands_before_fmap.
Qed.

End Order.

Lemma digest_order_complete_witness :
  process_stories Sample.now Sample2.twins = Ok Sample2.twins_out
  /\ StronglySorted (digest_order Sample2.twins) Sample2.twins_out.
Proof.
  split; [vm_compute; reflexivity|].
  apply (digest_order_complete Sample.now). vm_compute; reflexivity.
Defined.

Section Returns.

Context `{Runtime}.

Lemma datable_parse (now : Z) (s : story) :
  datable s <-> exists t, parse_published now (s_published s) = Ok (Aware t).
Proof.
  unfold datable, parse_published. destruct (s_published s) as [| |text].
  - split; [done|by intros [t ?]].
  - split; [by exists now|done].
  - destruct (fromisoformat (Str.replace_Z text)) as [[t|t]|].
    + split; [by exists t|done].
    + split; [by intros Hn; destruct (Hn t)|by intros [t' ?]].
    + split; [by exists now|done].
Qed.

Lemma collect_from_total (now : Z) (seen : gset string) (stories : list story) :
  Forall datable (dedup_from seen stories) ->
  exists ps, collect_from now seen stories = Ok ps.
Proof.
  revert seen. induction stories as [|s l IH]; intros seen; simpl.
  - by exists [].
  - case_decide as Hin; [apply IH|].
    intros [Hs Hl]%Forall_cons.
    apply (datable_parse now) in Hs as [t Ht].
    destruct (process_one_total now s t Ht) as [p ->]. simpl.
    destruct (IH _ Hl) as [ps ->]. simpl. by eexists.
Qed.


Lemma has_text_raw (p : processed) : has_text p <-> holds_text (raw p).
Proof. done. Qed.

Lemma sort_by_published_short (l : list processed) :
  (length l <= 1)%nat -> sort_by_published l = Ok l.
Proof. destruct l as [|x [|y l]]; simpl; [done..|lia]. Qed.

(** The loop and the two sorts go through on a batch whose kept
    stories can all be dated and, when there are two or more, all hold
    a string under [published]. *)
Lemma process_stories_total (now : Z) (stories : list story) :
  Forall datable (dedup_from ∅ stories) ->
  (length (dedup_from ∅ stories) <= 1)%nat
  \/ Forall holds_text (dedup_from ∅ stories) ->
  exists out, process_stories now stories = Ok out.
Proof.
  intros Hdatable Hsort.
  destruct (collect_from_total now ∅ stories Hdatable) as [ps Hps].
  pose proof (collect_from_inv _ _ _ _ Hps) as [Hraw _].
  unfold process_stories, collect. rewrite Hps. simpl.
  rewrite <- Hraw, length_fmap, Forall_fmap in Hsort.
  destruct Hsort as [Hlen|Htext].
  - rewrite sort_by_published_short by done. simpl. by eexists.
  - rewrite sort_by_published_pure; [simpl; by eexists|].
    eapply Forall_impl; [exact Htext|]. intros p. apply has_text_raw.
Qed.


Lemma dedup_from_covers (seen : gset string) (l : list story) (s : story) :
  s ∈ l ->
  title_key s ∈ seen
  \/ exists s', s' ∈ dedup_from seen l /\ title_key s' = title_key s.
Proof.
  revert seen. induction l as [|x l IH]; intros seen Hs; simpl.
  - by apply elem_of_nil in Hs.
  - apply elem_of_cons in Hs as [->|Hs].
    + case_decide as Hin; [by left|right].
      exists x. split; [by left|done].
    + case_decide as Hin.
      * destruct (IH seen Hs) as [?|(s' & ? & ?)]; [by left|right; eauto].
      * destruct (IH ({[norm (s_title x)]} ∪ seen) Hs) as [Hk|(s' & ? & ?)].
        -- apply elem_of_union in Hk as [Hk%elem_of_singleton|Hk]; [|by left].
           right. exists x. split; [by left|done].
        -- right. exists s'. split; [by right|done].
Qed.

(** X3. One story per normalized title: the stories [process_stories]
    returns come from stories of the batch, no two of them share a
    normalized title, every normalized title of the batch is that of a
    returned story, and their number is the number of distinct
    normalized titles of the batch. *)
Theorem one_story_per_title (now : Z) (stories : list story)
  (out : list processed) :
  process_stories now stories = Ok out ->
  (forall p, p ∈ out -> raw p ∈ stories)
  /\ NoDup (title_key <$> (raw <$> out))
  /\ (forall s, s ∈ stories ->
        exists p, p ∈ out /\ title_key (raw p) = title_key s)
  /\ length out = size (list_to_set (title_key <$> stories) : gset string).
Proof.
  intros (ps & by_date & Hps & Hdate & ->)%process_stories_inv.
  apply collect_from_inv in Hps as [Hraw _].
  apply sort_by_published_sorted in Hdate as [Hperm _].
  assert (sort_by_rank by_date ≡ₚ ps) as Hout
    by (by rewrite sort_by_rank_perm).
  assert (forall s, s ∈ stories ->
            exists p, p ∈ ps /\ title_key (raw p) = title_key s) as Hcover.
  { intros s Hs.
    destruct (dedup_from_covers ∅ stories s Hs) as [Hk|(s' & Hs' & Hk)];
      [by apply not_elem_of_empty in Hk|].
    rewrite <- Hraw in Hs'. apply list_elem_of_fmap in Hs' as (p & -> & Hp).
    by exists p. }
  assert (NoDup (title_key <$> (raw <$> ps))) as Hnd
    by (rewrite Hraw; apply dedup_from_NoDup).
  split; [|split; [|split]].
  - intros p Hp. rewrite Hout in Hp.
    eapply elem_of_sublist; [|apply (dedup_from_sublist ∅)].
    rewrite <- Hraw. by apply list_elem_of_fmap_2.
  - by rewrite Hout.
  - intros s Hs. destruct (Hcover s Hs) as (p & Hp & Hk).
    exists p. by rewrite Hout.
  - rewrite Hout. rewrite <- (length_fmap raw), <- (length_fmap title_key).
    rewrite <- (size_list_to_set (C := gset string)) by done.
    f_equal. apply set_eq. intros k. rewrite !elem_of_list_to_set. split.
    + intros (s & -> & Hs)%list_elem_of_fmap.
      apply list_elem_of_fmap. exists s. split; [done|].
      eapply elem_of_sublist; [|apply (dedup_from_sublist ∅)]. by rewrite <- Hraw.
    + intros (s & -> & Hs)%list_elem_of_fmap.
      destruct (Hcover s Hs) as (p & Hp & <-).
      by apply list_elem_of_fmap_2, list_elem_of_fmap_2.
Qed.

End Returns.

Lemma one_story_per_title_witness :
  process_stories Sample.now [Sample.quiet; Sample.federal]
  = Ok [Sample.federal_out; Sample.quiet_out]
  /\ ((forall p, p ∈ [Sample.federal_out; Sample.quiet_out] ->
         raw p ∈ [Sample.quiet; Sample.federal])
      /\ NoDup (title_key <$> (raw <$> [Sample.federal_out; Sample.quiet_out]))
      /\ (forall s, s ∈ [Sample.quiet; Sample.federal] ->
            exists p, p ∈ [Sample.federal_out; Sample.quiet_out]
                      /\ title_key (raw p) = title_key s)
      /\ length [Sample.federal_out; Sample.quiet_out]
         = size (list_to_set (title_key <$> [Sample.quiet; Sample.federal])
                 : gset string)).
Proof.
  split; [vm_compute; reflexivity|].
  apply (one_story_per_title Sample.now). vm_compute; reflexivity.
Defined.

(** ** Scores *)

Section Scores.

Context `{Runtime}.

Lemma text_parse (now : Z) (s : story) (text : string) (t : Z) :
  s_published s = Text text ->
  fromisoformat (Str.replace_Z text) = Some (Aware t) ->
  parse_published now (s_published s) = Ok (Aware t).
Proof. intros Hpub Hparse. unfold parse_published. by rewrite Hpub, Hparse. Qed.

(** What the loop body makes of a story dated [t], in the vocabulary of
    the specification. *)
Lemma process_one_dated (now : Z) (s : story) (t : Z) :
  parse_published now (s_published s) = Ok (Aware t) ->
  exists p,
    process_one now s = Ok p
    /\ nationalSignificance p =
         (let base := score_national (s_title s) (s_summary s)
                        (tag_themes (s_title s) (s_summary s)) in
          if (detect_enterprise (s_title s) (s_summary s)).1
          then Z.min (base + 2) 10 else base)
    /\ ageDays p = py_round (age_in_days now t) 1
    /\ rankScore p =
         py_round (fl (inject_Z (nationalSignificance p)
                       - penalty_for (age_in_days now t))) 2.
Proof.
  intros Ht. destruct (process_one_total now s t Ht) as [p Hp]. exists p.
  split; [done|].
  apply process_one_inv in Hp
    as (t' & Ht' & _ & _ & Hthemes & Hent & Hnat & Hage & Hrank).
  rewrite Ht in Ht'. injection Ht' as <-.
  split; [by rewrite Hnat, Hent, Hthemes|]. split.
  - rewrite Hage. apply py_round_comp, age_days_of_spec.
  - rewrite Hrank. apply py_round_comp, fl_proper.
    rewrite recency_penalty_of_spec.
    by rewrite (penalty_for_comp _ _ (age_days_of_spec now t)).
Qed.

(** X4. Monotonic decay: of two stories with the same title and summary
    whose dates are read as instants, the one published earlier gets a
    [rankScore] that is not higher and an [ageDays] that is not lower;
    their [nationalSignificance] is the same. *)
Theorem decay_is_monotonic (now : Z) (s1 s2 : story) (text1 text2 : string)
  (t1 t2 : Z) :
  s_title s1 = s_title s2 ->
  s_summary s1 = s_summary s2 ->
  s_published s1 = Text text1 ->
  s_published s2 = Text text2 ->
  fromisoformat (Str.replace_Z text1) = Some (Aware t1) ->
  fromisoformat (Str.replace_Z text2) = Some (Aware t2) ->
  t1 <= t2 ->
  exists p1 p2 : processed,
    process_one now s1 = Ok p1
    /\ process_one now s2 = Ok p2
    /\ nationalSignificance p1 = nationalSignificance p2
    /\ (rankScore p1 <= rankScore p2)%Q
    /\ (ageDays p2 <= ageDays p1)%Q.
Proof.
  intros Htitle Hsummary Hpub1 Hpub2 Hparse1 Hparse2 Ht.
  destruct (process_one_dated now s1 t1 (text_parse _ _ _ _ Hpub1 Hparse1))
    as (p1 & Hp1 & Hnat1 & Hage1 & Hrank1).
  destruct (process_one_dated now s2 t2 (text_parse _ _ _ _ Hpub2 Hparse2))
    as (p2 & Hp2 & Hnat2 & Hage2 & Hrank2).
  exists p1, p2. split; [done|]. split; [done|].
  assert (nationalSignificance p1 = nationalSignificance p2) as Hnat.
  { rewrite Hnat1, Hnat2, Htitle, Hsummary. reflexivity. }
  split; [done|].
  pose proof (age_in_days_anti now t1 t2 Ht) as Hage.
  split.
  - rewrite Hrank1, Hrank2, Hnat. apply py_round_mono, fl_mono.
    pose proof (penalty_for_mono _ _ Hage). lra.
  - rewrite Hage1, Hage2. by apply py_round_mono.
Qed.

(** X5. A story published at most two days before [now], or after it,
    keeps its whole score: its [rankScore] is its
    [nationalSignificance]. *)
Theorem fresh_story_keeps_score (now : Z) (s : story) (text : string) (t : Z) :
  s_published s = Text text ->
  fromisoformat (Str.replace_Z text) = Some (Aware t) ->
  now - t <= 2 * 86400 * 1000000 ->
  exists p : processed,
    process_one now s = Ok p
    /\ (rankScore p == inject_Z (nationalSignificance p))%Q.
Proof.
  intros Hpub Hparse Hfresh.
  destruct (process_one_dated now s t (text_parse _ _ _ _ Hpub Hparse))
    as (p & Hp & _ & _ & Hrank).
  exists p. split; [done|].
  pose proof (process_one_range now s p Hp) as Hrange.
  rewrite Hrank, (penalty_for_fresh _ (age_in_days_fresh _ _ Hfresh)).
  set (n := nationalSignificance p) in *.
  assert (fl (inject_Z n - 0) == inject_Z n)%Q as E.
  { assert (inject_Z n - 0 == inject_Z n)%Q as E0 by ring.
    rewrite (fl_comp _ _ E0). apply fl_Z. lia. }
  rewrite (py_round_comp _ _ 2 E). apply py_round_Z. lia.
Qed.

(** X6. For every story [process_stories] returns, [ageDays] is not
    negative and [rankScore] lies between [nationalSignificance - 3] and
    [nationalSignificance]: age never raises a score, and lowers it by 3
    at most. *)
Theorem rank_score_band (now : Z) (stories : list story)
  (out : list processed) (p : processed) :
  process_stories now stories = Ok out ->
  p ∈ out ->
  (0 <= ageDays p)%Q
  /\ (inject_Z (nationalSignificance p) - 3 <= rankScore p
      <= inject_Z (nationalSignificance p))%Q.
Proof.
  intros Hout Hp.
  destruct (process_stories_elem _ _ _ _ Hout Hp) as (s & _ & Hs).
  pose proof (process_one_range now s p Hs) as Hrange.
  apply process_one_inv in Hs as (t & _ & _ & _ & _ & _ & _ & Hage & Hrank).
  split.
  - rewrite Hage. apply (py_round_ge 0); [lia|].
    rewrite age_days_of_spec. apply age_in_days_nonneg.
  - rewrite Hrank. set (n := nationalSignificance p) in *.
    pose proof (penalty_for_bounds (age_days_of (now - t))) as Hpen.
    rewrite <- recency_penalty_of_spec in Hpen.
    assert (inject_Z (n - 3) == inject_Z n - 3)%Q as E.
    { unfold Z.sub. rewrite inject_Z_plus, inject_Z_opp. reflexivity. }
    destruct (py_round_between (n - 3) n
                (fl (inject_Z n - recency_penalty_of (age_days_of (now - t))))
                2)
      as [Hlo Hhi]; [lia..| |].
    { apply fl_between; [lia..|]. rewrite E. split; lra. }
    rewrite E in Hlo. split; lra.
Qed.

(** X7. The enterprise boost: for every story [process_stories]
    returns, [nationalSignificance] lies between the base score and the
    base score plus 2; it is the base score when [isEnterprise] is
    false, and at least 2 when [isEnterprise] is true. *)
Theorem enterprise_boost (now : Z) (stories : list story)
  (out : list processed) (p : processed) :
  process_stories now stories = Ok out ->
  p ∈ out ->
  let base := national_base (title p) (summary p) (themes p) in
  base <= nationalSignificance p <= base + 2
  /\ (isEnterprise p = false -> nationalSignificance p = base)
  /\ (isEnterprise p = true -> 2 <= nationalSignificance p).
Proof.
  intros Hout Hp base.
  destruct (process_stories_elem _ _ _ _ Hout Hp) as (s & _ & Hs).
  apply process_one_inv in Hs as (t & _ & Hraw & _ & _ & _ & Hnat & _).
  cbv zeta in Hnat. rewrite score_national_spec in Hnat.
  assert (s_title s = title p /\ s_summary s = summary p) as [Ht Hsum]
    by (by rewrite <- Hraw).
  rewrite Ht, Hsum in Hnat. fold base in Hnat.
  pose proof (national_base_range (title p) (summary p) (themes p)) as Hbase.
  fold base in Hbase.
  rewrite Hnat. destruct (isEnterprise p); repeat split; (done || lia).
Qed.

End Scores.

Lemma decay_is_monotonic_witness :
  s_title Sample2.quiet_old = s_title Sample.quiet
  /\ s_summary Sample2.quiet_old = s_summary Sample.quiet
  /\ s_published Sample2.quiet_old = Text "2024-03-05T00:00:00+00:00"
  /\ s_published Sample.quiet = Text "2024-03-10T00:00:00+00:00"
  /\ fromisoformat (Str.replace_Z "2024-03-05T00:00:00+00:00")
     = Some (Aware 1709596800000000)
  /\ fromisoformat (Str.replace_Z "2024-03-10T00:00:00+00:00")
     = Some (Aware 1710028800000000)
  /\ 1709596800000000 <= 1710028800000000
  /\ exists p1 p2 : processed,
      process_one Sample.now Sample2.quiet_old = Ok p1
      /\ process_one Sample.now Sample.quiet = Ok p2
      /\ nationalSignificance p1 = nationalSignificance p2
      /\ (rankScore p1 <= rankScore p2)%Q
      /\ (ageDays p2 <= ageDays p1)%Q.
Proof.
  do 4 (split; [reflexivity|]). do 2 (split; [vm_compute; reflexivity|]).
  split; [lia|].
  apply (decay_is_monotonic Sample.now Sample2.quiet_old Sample.quiet
           "2024-03-05T00:00:00+00:00" "2024-03-10T00:00:00+00:00"
           1709596800000000 1710028800000000);
    first [reflexivity | vm_compute; reflexivity | lia].
Defined.

Lemma fresh_story_keeps_score_witness :
  s_published Sample.federal = Text "2024-03-10T00:00:00+00:00"
  /\ fromisoformat (Str.replace_Z "2024-03-10T00:00:00+00:00")
     = Some (Aware 1710028800000000)
  /\ Sample.now - 1710028800000000 <= 2 * 86400 * 1000000
  /\ exists p : processed,
      process_one Sample.now Sample.federal = Ok p
      /\ (rankScore p == inject_Z (nationalSignificance p))%Q.
Proof.
  split; [reflexivity|]. split; [vm_compute; reflexivity|].
  split; [vm_compute; discriminate|].
  apply (fresh_story_keeps_score Sample.now Sample.federal
           "2024-03-10T00:00:00+00:00" 1710028800000000);
    first [reflexivity | vm_compute; reflexivity | vm_compute; discriminate].
Defined.

Lemma rank_score_band_witness :
  process_stories Sample.now [Sample2.quiet_old] = Ok [Sample2.quiet_old_out]
  /\ Sample2.quiet_old_out ∈ [Sample2.quiet_old_out]
  /\ (0 <= ageDays Sample2.quiet_old_out)%Q
  /\ (inject_Z (nationalSignificance Sample2.quiet_old_out) - 3
      <= rankScore Sample2.quiet_old_out
      <= inject_Z (nationalSignificance Sample2.quiet_old_out))%Q.
Proof.
  split; [vm_compute; reflexivity|]. split; [apply list_elem_of_here|].
  apply (rank_score_band Sample.now [Sample2.quiet_old] [Sample2.quiet_old_out]).
  - vm_compute; reflexivity.
  - apply list_elem_of_here.
Defined.

Lemma enterprise_boost_witness :
  process_stories Sample.now [Sample.ten_days_old] = Ok [Sample.ten_days_old_out]
  /\ Sample.ten_days_old_out ∈ [Sample.ten_days_old_out]
  /\ let p := Sample.ten_days_old_out in
     let base := national_base (title p) (summary p) (themes p) in
     base <= nationalSignificance p <= base + 2
     /\ (isEnterprise p = false -> nationalSignificance p = base)
     /\ (isEnterprise p = true -> 2 <= nationalSignificance p).
Proof.
  split; [vm_compute; reflexivity|]. split; [apply list_elem_of_here|].
  apply (enterprise_boost Sample.now [Sample.ten_days_old]
           [Sample.ten_days_old_out]).
  - vm_compute; reflexivity.
  - apply list_elem_of_here.
Defined.

(** ** Title keys *)

Lemma is_az09_lower (c : ascii) :
  Str.is_az09 c = true -> Str.lower_char c = c.
Proof. destruct c as [[] [] [] [] [] [] [] []]; vm_compute; congruence. Qed.

Lemma lower_char_idem (c : ascii) :
  Str.lower_char (Str.lower_char c) = Str.lower_char c.
Proof. destruct c as [[] [] [] [] [] [] [] []]; reflexivity. Qed.

Lemma str_map_app (f : ascii -> ascii) (a b : string) :
  Str.map f (a +:+ b) = Str.map f a +:+ Str.map f b.
Proof. induction a as [|c a IH]; simpl; [done|]. by rewrite IH. Qed.

Lemma str_filter_app (p : ascii -> bool) (a b : string) :
  Str.filter p (a +:+ b) = Str.filter p a +:+ Str.filter p b.
Proof.
  induction a as [|c a IH]; simpl; [done|].
  rewrite IH. by destruct (p c).
Qed.

Lemma str_filter_idem (p : ascii -> bool) (s : string) :
  Str.filter p (Str.filter p s) = Str.filter p s.
Proof.
  induction s as [|c s IH]; simpl; [done|].
  destruct (p c) eqn:Hc; simpl; [|done]. by rewrite Hc, IH.
Qed.

Lemma str_lower_idem (s : string) : Str.lower (Str.lower s) = Str.lower s.
Proof.
  unfold Str.lower. induction s as [|c s IH]; simpl; [done|].
  by rewrite lower_char_idem, IH.
Qed.

Lemma str_lower_filtered (s : string) :
  Str.lower (Str.filter Str.is_az09 s) = Str.filter Str.is_az09 s.
Proof.
  unfold Str.lower. induction s as [|c s IH]; simpl; [done|].
  destruct (Str.is_az09 c) eqn:Hc; simpl; [|done].
  by rewrite is_az09_lower, IH.
Qed.

Lemma str_take_filtered (p : ascii -> bool) (n : nat) (s : string) :
  Str.filter p s = s -> Str.filter p (Str.take n s) = Str.take n s.
Proof.
  unfold Str.take. revert n. induction s as [|c s IH]; intros n Hs.
  - by destruct n.
  - destruct n as [|n]; [done|]. simpl in *.
    destruct (p c) eqn:Hc.
    + injection Hs as Hs. by rewrite IH.
    + exfalso. assert (String.length (Str.filter p s) <= String.length s)%nat.
      { clear. induction s as [|d s IH]; simpl; [lia|].
        destruct (p d); simpl; lia. }
      apply (f_equal String.length) in Hs. simpl in Hs. lia.
Qed.

Lemma str_take_take (n : nat) (s : string) :
  Str.take n (Str.take n s) = Str.take n s.
Proof.
  unfold Str.take. revert n. induction s as [|c s IH]; intros [|n]; simpl;
    try done. by rewrite IH.
Qed.

Lemma str_take_length (n : nat) (s : string) :
  (String.length (Str.take n s) <= n)%nat.
Proof.
  unfold Str.take. revert n. induction s as [|c s IH]; intros [|n]; simpl;
    try lia. specialize (IH n). lia.
Qed.

Lemma norm_fixed (s : string) : Str.filter Str.is_az09 s = s -> norm s = s.
Proof.
  intros Hs. unfold norm, Str.strip_non_az09. rewrite <- Hs.
  by rewrite str_lower_filtered, str_filter_idem.
Qed.

Lemma norm_filtered (title : string) :
  Str.filter Str.is_az09 (norm title) = norm title.
Proof. apply str_filter_idem. Qed.

(** X8. The normalized title consists of lowercase letters and digits
    only; normalizing is idempotent, ignores case, and works piece by
    piece, so that characters other than letters and digits can be
    inserted or removed anywhere without changing it. The key of the
    acquisition stage has at most 60 characters and is its own key. *)
Theorem norm_properties (title other : string) :
  Str.filter Str.is_az09 (norm title) = norm title
  /\ norm (norm title) = norm title
  /\ norm (Str.lower title) = norm title
  /\ norm (title +:+ other) = norm title +:+ norm other
  /\ (String.length (key title) <= 60)%nat
  /\ key (key title) = key title.
Proof.
  split; [apply norm_filtered|]. split; [apply norm_fixed, norm_filtered|].
  split; [unfold norm; by rewrite str_lower_idem|].
  split; [unfold norm, Str.lower, Str.strip_non_az09;
          by rewrite str_map_app, str_filter_app|].
  split; [apply str_take_length|].
  change (key (key title)) with (Str.take 60 (norm (Str.take 60 (norm title)))).
  change (key title) with (Str.take 60 (norm title)).
  rewrite (norm_fixed (Str.take 60 (norm title)))
    by apply str_take_filtered, norm_filtered.
  apply str_take_take.
Qed.

(** ** The acquisition loop *)

Lemma unique_from_sublist seen l : unique_from seen l `sublist_of` l.
Proof.
  revert seen. induction l as [|s l IH]; intros seen; simpl; [done|].
  case_decide; [by apply sublist_cons|by apply sublist_skip].
Qed.

Lemma unique_from_fresh seen l s :
  s ∈ unique_from seen l -> feed_key s ∉ seen.
Proof.
  revert seen. induction l as [|s' l IH]; intros seen; simpl.
  - by intros ?%elem_of_nil.
  - case_decide as Hin; [by apply IH|].
    intros [->|Hs]%elem_of_cons; [done|].
    apply IH in Hs. intros Hseen. apply Hs. by apply elem_of_union_r.
Qed.

Lemma unique_from_NoDup seen l : NoDup (feed_key <$> unique_from seen l).
Proof.
  revert seen. induction l as [|s l IH]; intros seen; simpl.
  - constructor.
  - case_decide as Hin; [by apply IH|].
    rewrite fmap_cons. constructor; [|by apply IH].
    intros (s' & Hk & Hs')%list_elem_of_fmap.
    apply unique_from_fresh in Hs'. unfold feed_key in Hk. apply Hs'.
    unfold feed_key. rewrite <- Hk. by apply elem_of_union_l, elem_of_singleton.
Qed.

Lemma unique_from_id seen l :
  NoDup (feed_key <$> l) ->
  (forall s, s ∈ l -> feed_key s ∉ seen) ->
  unique_from seen l = l.
Proof.
  revert seen. induction l as [|s l IH]; intros seen Hnd Hfresh; simpl; [done|].
  rewrite fmap_cons in Hnd. apply NoDup_cons in Hnd as [Hs Hnd].
  rewrite decide_False by (apply Hfresh; left).
  f_equal. apply IH; [done|].
  intros s' Hs'. assert (feed_key s' ≠ feed_key s).
  { intros Heq. apply Hs. apply list_elem_of_fmap. by exists s'. }
  assert (feed_key s' ∉ seen) by (apply Hfresh; by right).
  by rewrite not_elem_of_union, not_elem_of_singleton.
Qed.

Lemma unique_from_app seen l1 l2 :
  unique_from seen (l1 ++ l2)
  = unique_from seen l1
    ++ unique_from (list_to_set (feed_key <$> l1) ∪ seen) l2.
Proof.
  revert seen. induction l1 as [|s l1 IH]; intros seen.
  - simpl. f_equal. by rewrite union_empty_l_L.
  - rewrite fmap_cons, list_to_set_cons. simpl app. simpl unique_from.
    change (key (s_title s)) with (feed_key s).
    set (L := list_to_set (feed_key <$> l1) : gset string).
    case_decide as Hin.
    + rewrite IH. fold L.
      assert ({[feed_key s]} ∪ L ∪ seen = L ∪ seen) as ->; [|done].
      apply set_eq. intros k.
      rewrite !elem_of_union, elem_of_singleton. split; [|tauto].
      intros [[->|?]|?]; tauto.
    + rewrite IH. fold L.
      assert (L ∪ ({[feed_key s]} ∪ seen) = {[feed_key s]} ∪ L ∪ seen) as ->;
        [|done].
      apply set_eq. intros k. rewrite !elem_of_union. tauto.
Qed.

Lemma unique_from_keys seen l :
  (list_to_set (feed_key <$> unique_from seen l) : gset string) ∪ seen
  = list_to_set (feed_key <$> l) ∪ seen.
Proof.
  revert seen. induction l as [|s l IH]; intros seen; simpl; [done|].
  case_decide as Hin.
  - rewrite IH. apply set_eq. intros k.
    rewrite !elem_of_union, elem_of_singleton. split; [tauto|].
    intros [[->|?]|?]; tauto.
  - simpl. specialize (IH ({[key (s_title s)]} ∪ seen)).
    apply set_eq. intros k.
    assert (k ∈ list_to_set (feed_key <$> unique_from
                ({[key (s_title s)]} ∪ seen) l) ∪ ({[key (s_title s)]} ∪ seen)
            <-> k ∈ (list_to_set (feed_key <$> l) : gset string)
                    ∪ ({[key (s_title s)]} ∪ seen)) as Hk by (by rewrite IH).
    rewrite !elem_of_union, ?elem_of_singleton in Hk |- *.
    unfold feed_key at 1 3. tauto.
Qed.

Lemma unique_from_covers (seen : gset string) (l : list story) (s : story) :
  s ∈ l ->
  feed_key s ∈ seen
  \/ exists s', s' ∈ unique_from seen l /\ feed_key s' = feed_key s.
Proof.
  intros Hs.
  assert (feed_key s ∈ (list_to_set (feed_key <$> l) : gset string) ∪ seen)
    as Hk.
  { apply elem_of_union_l, elem_of_list_to_set. by apply list_elem_of_fmap_2. }
  rewrite <- unique_from_keys in Hk.
  apply elem_of_union in Hk as [Hk|Hk]; [right|by left].
  apply elem_of_list_to_set, list_elem_of_fmap in Hk as (s' & Hk & Hs').
  by exists s'.
Qed.

(** X9. The de-duplication of [fetch_all_feeds] keeps, in their order,
    the stories whose key (the first 60 characters of the normalized
    title) no earlier story has: a story is kept iff no story before it
    has its key; the kept stories have pairwise different keys; every
    key of the input is the key of a kept story; and the loop changes
    nothing when run on its own output. *)
Theorem acquisition_dedup (before : list story) (s : story)
  (after all_stories : list story) :
  unique (before ++ s :: after)
  = unique before
    ++ (if decide (feed_key s ∈ feed_key <$> before) then [] else [s])
    ++ unique_from (list_to_set (feed_key <$> before ++ [s])) after
  /\ unique all_stories `sublist_of` all_stories
  /\ NoDup (feed_key <$> unique all_stories)
  /\ (forall s', s' ∈ all_stories ->
        exists s'', s'' ∈ unique all_stories /\ feed_key s'' = feed_key s')
  /\ unique (unique all_stories) = unique all_stories.
Proof.
  split; [|split; [|split; [|split]]].
  - unfold unique. rewrite unique_from_app. f_equal.
    rewrite union_empty_r_L. simpl unique_from.
    change (key (s_title s)) with (feed_key s).
    rewrite fmap_app, list_to_set_app_L. simpl.
    rewrite union_empty_r_L.
    set (L := list_to_set (feed_key <$> before) : gset string).
    assert (feed_key s ∈ L <-> feed_key s ∈ feed_key <$> before) as HL
      by apply elem_of_list_to_set.
    destruct (decide (feed_key s ∈ L)) as [Hin|Hin].
    + rewrite decide_True by (by apply HL). simpl. f_equal.
      apply set_eq. intros k. rewrite elem_of_union, elem_of_singleton.
      split; [by left|]. by intros [?| ->].
    + rewrite decide_False by (by rewrite <- HL). simpl. f_equal. f_equal.
      apply set_eq. intros k. rewrite !elem_of_union. tauto.
  - apply unique_from_sublist.
  - apply unique_from_NoDup.
  - intros s' Hs'.
    destruct (unique_from_covers ∅ all_stories s' Hs') as [Hk|?]; [|done].
    by apply not_elem_of_empty in Hk.
  - unfold unique. apply unique_from_id; [apply unique_from_NoDup|].
    intros s' _. apply not_elem_of_empty.
Qed.

Lemma feed_key_title_key (s : story) : feed_key s = Str.take 60 (title_key s).
Proof. reflexivity. Qed.

Lemma unique_title_keys_NoDup (l : list story) :
  NoDup (title_key <$> unique l).
Proof.
  apply (NoDup_fmap_1 (Str.take 60)). rewrite <- list_fmap_compose.
  apply (unique_from_NoDup ∅).
Qed.

Lemma unique_after_dedup (seen_keys seen_norms : gset string) (l : list story) :
  (forall n, n ∈ seen_norms -> Str.take 60 n ∈ seen_keys) ->
  unique_from seen_keys (dedup_from seen_norms l) = unique_from seen_keys l.
Proof.
  revert seen_keys seen_norms.
  induction l as [|s l IH]; intros seen_keys seen_norms Hinv; simpl; [done|].
  destruct (decide (norm (s_title s) ∈ seen_norms)) as [Hn|Hn].
  - rewrite decide_True by (by apply (Hinv _ Hn)). by apply IH.
  - simpl. destruct (decide (key (s_title s) ∈ seen_keys)) as [Hk|Hk].
    + apply IH. intros n [->%elem_of_singleton|?]%elem_of_union; [done|].
      by apply Hinv.
    + f_equal. apply IH.
      intros n [->%elem_of_singleton|?]%elem_of_union.
      * by apply elem_of_union_l, elem_of_singleton.
      * by apply elem_of_union_r, Hinv.
Qed.

Lemma dedup_unique (stories : list story) :
  dedup (unique stories) = unique stories.
Proof.
  unfold dedup. apply dedup_from_id; [apply unique_title_keys_NoDup|].
  intros s _. apply not_elem_of_empty.
Qed.

(** X10. The two de-duplications compose: a batch de-duplicated by the
    acquisition stage passes the engine's filter unchanged, and the
    acquisition filter gives the same result with or without the
    engine's filter before it. *)
Theorem dedup_stages_compose (stories : list story) :
  dedup (unique stories) = unique stories
  /\ unique (dedup stories) = unique stories.
Proof.
  split; [apply dedup_unique|].
  - unfold unique, dedup. apply unique_after_dedup.
    by intros n ?%not_elem_of_empty.
Qed.

(** X11. Nothing is lost between the stages: when [process_stories]
    returns on the output of [fetch_all_feeds], it returns one story for
    each story of that output. *)
Theorem pipeline_keeps_all `{Runtime} (now : Z) (results : list (list story))
  (out : list processed) :
  process_stories now (fetch_all_feeds results) = Ok out ->
  raw <$> out ≡ₚ fetch_all_feeds results
  /\ length out = length (fetch_all_feeds results).
Proof.
  intros (ps & by_date & Hps & Hdate & ->)%process_stories_inv.
  apply collect_from_inv in Hps as [Hraw _].
  apply sort_by_published_sorted in Hdate as [Hperm _].
  unfold fetch_all_feeds in *.
  change (dedup_from ∅ (unique (concat results)))
    with (dedup (unique (concat results))) in Hraw.
  rewrite dedup_unique in Hraw.
  assert (raw <$> sort_by_rank by_date ≡ₚ unique (concat results)) as Hout
    by (by rewrite sort_by_rank_perm, Hperm, Hraw).
  split; [done|].
  rewrite <- (length_fmap raw). by apply Permutation_length.
Qed.

Lemma concat_perm {A : Type} (l1 l2 : list (list A)) :
  l1 ≡ₚ l2 -> concat l1 ≡ₚ concat l2.
Proof.
  induction 1 as [|x l1 l2 Hp IH|x y l|l1 l2 l3 H1 IH1 H2 IH2]; simpl.
  - done.
  - by rewrite IH.
  - rewrite !(assoc (++)). f_equiv. apply Permutation_app_comm.
  - by etrans.
Qed.

Lemma unique_length (l : list story) :
  length (unique l) = size (list_to_set (feed_key <$> l) : gset string).
Proof.
  rewrite <- (length_fmap feed_key).
  rewrite <- (size_list_to_set (C := gset string)) by apply unique_from_NoDup.
  f_equal. pose proof (unique_from_keys ∅ l) as Hk.
  by rewrite !union_empty_r_L in Hk.
Qed.

(** X12. In whatever order the feeds complete, [fetch_all_feeds]
    returns the same number of stories, with the same set of keys. *)
Theorem completion_order_irrelevant (results1 results2 : list (list story)) :
  results1 ≡ₚ results2 ->
  length (fetch_all_feeds results1) = length (fetch_all_feeds results2)
  /\ (list_to_set (feed_key <$> fetch_all_feeds results1) : gset string)
     = list_to_set (feed_key <$> fetch_all_feeds results2).
Proof.
  intros Hperm%concat_perm. unfold fetch_all_feeds. split.
  - rewrite !unique_length. f_equal. by rewrite Hperm.
  - pose proof (unique_from_keys ∅ (concat results1)) as H1.
    pose proof (unique_from_keys ∅ (concat results2)) as H2.
    rewrite !union_empty_r_L in H1, H2. unfold unique. rewrite H1, H2.
    by rewrite Hperm.
Qed.

Lemma pipeline_keeps_all_witness :
  process_stories Sample.now (fetch_all_feeds [[Sample.quiet]; [Sample.federal]])
  = Ok [Sample.federal_out; Sample.quiet_out]
  /\ raw <$> [Sample.federal_out; Sample.quiet_out]
       ≡ₚ fetch_all_feeds [[Sample.quiet]; [Sample.federal]]
  /\ length [Sample.federal_out; Sample.quiet_out]
     = length (fetch_all_feeds [[Sample.quiet]; [Sample.federal]]).
Proof.
  split; [vm_compute; reflexivity|].
  apply (pipeline_keeps_all Sample.now). vm_compute; reflexivity.
Defined.

Lemma completion_order_irrelevant_witness :
  [[Sample.long_one]; [Sample.long_two; Sample.quiet]]
    ≡ₚ [[Sample.long_two; Sample.quiet]; [Sample.long_one]]
  /\ length (fetch_all_feeds [[Sample.long_one]; [Sample.long_two; Sample.quiet]])
     = length (fetch_all_feeds [[Sample.long_two; Sample.quiet]; [Sample.long_one]])
  /\ (list_to_set
        (feed_key <$> fetch_all_feeds
                        [[Sample.long_one]; [Sample.long_two; Sample.quiet]])
      : gset string)
     = list_to_set
         (feed_key <$> fetch_all_feeds
                         [[Sample.long_two; Sample.quiet]; [Sample.long_one]]).
Proof.
  split; [apply Permutation_swap|].
  apply completion_order_irrelevant, Permutation_swap.
Defined.

(** Which of two stories with one key is kept does depend on the order
    in which their feeds complete. *)
Lemma completion_order_example :
  fetch_all_feeds [[Sample.long_one]; [Sample.long_two]] = [Sample.long_one]
  /\ fetch_all_feeds [[Sample.long_two]; [Sample.long_one]]
     = [Sample.long_two].
Proof. split; vm_compute; reflexivity. Qed.

(** * The acquisition stage *)

(** ** Strings *)

Lemma append_nil_l (b : string) : "" +:+ b = b.
Proof. reflexivity. Qed.

Lemma append_cons (x : ascii) (a b : string) :
  String x a +:+ b = String x (a +:+ b).
Proof. reflexivity. Qed.

Lemma append_assoc (a b c : string) : (a +:+ b) +:+ c = a +:+ (b +:+ c).
Proof.
  induction a as [|x a IH]; [done|]. rewrite !append_cons. by rewrite IH.
Qed.

Lemma append_nil_r (a : string) : a +:+ "" = a.
Proof. induction a as [|x a IH]; [done|]. rewrite append_cons. by rewrite IH. Qed.

Lemma append_length (a b : string) :
  String.length (a +:+ b) = (String.length a + String.length b)%nat.
Proof.
  induction a as [|x a IH]; [done|]. rewrite append_cons. simpl. by rewrite IH.
Qed.

Lemma take_drop (n : nat) (s : string) : Str.take n s +:+ Text.drop n s = s.
Proof.
  unfold Str.take. revert n.
  induction s as [|c s IH]; intros [|n]; simpl; try done.
  rewrite append_cons. by rewrite IH.
Qed.

Lemma lstrip_suffix (s : string) : exists w, s = w +:+ Text.lstrip s.
Proof.
  induction s as [|c s [w IH]]; simpl; [by exists ""|].
  destruct (Text.is_space c).
  - exists (String c w). rewrite append_cons. by rewrite <- IH.
  - by exists "".
Qed.

Lemma rstrip_prefix (s : string) : exists w, s = Text.rstrip s +:+ w.
Proof.
  induction s as [|c s [w IH]]; simpl; [by exists ""|].
  destruct (Text.rstrip s) as [|d r] eqn:Hr.
  - destruct (Text.is_space c).
    + exists (String c s). done.
    + exists s. done.
  - exists w. rewrite append_cons. by rewrite <- IH.
Qed.

Lemma lstrip_idem (s : string) : Text.lstrip (Text.lstrip s) = Text.lstrip s.
Proof.
  induction s as [|c s IH]; simpl; [done|].
  destruct (Text.is_space c) eqn:Hc; [done|]. simpl. by rewrite Hc.
Qed.

Lemma rstrip_idem (s : string) : Text.rstrip (Text.rstrip s) = Text.rstrip s.
Proof.
  induction s as [|c s IH]; simpl; [done|].
  destruct (Text.rstrip s) as [|d r] eqn:Hr.
  - destruct (Text.is_space c) eqn:Hc; simpl; [done|]. by rewrite Hc.
  - simpl in *. by rewrite IH.
Qed.

Lemma lstrip_head (s : string) :
  Text.lstrip s = ""
  \/ exists c r, Text.lstrip s = String c r /\ Text.is_space c = false.
Proof.
  induction s as [|c s IH]; simpl; [by left|].
  destruct (Text.is_space c) eqn:Hc; [done|]. right. by exists c, s.
Qed.

Lemma rstrip_head (c : ascii) (r : string) :
  Text.is_space c = false -> exists r', Text.rstrip (String c r) = String c r'.
Proof.
  intros Hc. simpl. destruct (Text.rstrip r); [|by eexists].
  rewrite Hc. by eexists.
Qed.

Lemma strip_idem (s : string) : Text.strip (Text.strip s) = Text.strip s.
Proof.
  unfold Text.strip.
  assert (Text.lstrip (Text.rstrip (Text.lstrip s)) = Text.rstrip (Text.lstrip s))
    as ->; [|apply rstrip_idem].
  destruct (lstrip_head s) as [->|(c & r & -> & Hc)]; [done|].
  destruct (rstrip_head c r Hc) as [r' ->]. simpl. by rewrite Hc.
Qed.

(** ** Tags *)

Lemma no_gt_tagless (s : string) :
  Str.filter Text.is_gt s = "" -> tagless s = true.
Proof.
  induction s as [|c s IH]; simpl; [done|].
  destruct (Text.is_gt c) eqn:Hc; [done|]. intros Hs.
  rewrite IH by done. rewrite Hs, bool_decide_eq_true_2 by done.
  by rewrite orb_true_r.
Qed.

Lemma starts_app (sub a b : string) :
  Text.starts sub a = true -> Text.starts sub (a +:+ b) = true.
Proof.
  unfold Text.starts. revert a.
  induction sub as [|x sub IH]; intros a; simpl; [done|].
  destruct a as [|d a]; [done|]. rewrite append_cons.
  destruct (Ascii.eqb x d); [apply IH|done].
Qed.

Lemma tagless_app (a b : string) :
  tagless a = true -> tagless b = true ->
  (Str.filter Text.is_lt a = "" \/ Str.filter Text.is_gt b = "") ->
  tagless (a +:+ b) = true.
Proof.
  intros Ha Hb Hab. induction a as [|c a IH]; [done|].
  rewrite append_cons. simpl in Ha |- *.
  apply andb_true_iff in Ha as [Hc Ha]. apply andb_true_iff. split.
  - destruct (Text.is_lt c) eqn:Hlt; [|done]. simpl in Hc |- *.
    apply orb_true_iff in Hc as [Hc|Hc].
    + by rewrite (starts_app _ _ _ Hc).
    + apply bool_decide_eq_true in Hc. simpl in Hab. rewrite Hlt in Hab.
      destruct Hab as [?|Hb']; [done|].
      rewrite str_filter_app, Hc, Hb'.
      rewrite bool_decide_eq_true_2 by done. apply orb_true_r.
  - apply IH; [done|]. destruct Hab as [Hab|?]; [left|by right].
    simpl in Hab. by destruct (Text.is_lt c).
Qed.

Lemma strip_tags_from_tagless (pending : option string) (s : string) :
  match pending with
  | Some opened => Str.filter Text.is_gt opened = ""
  | None => True
  end ->
  tagless (Text.strip_tags_from pending s) = true.
Proof.
  revert pending. induction s as [|c s IH]; intros pending Hp; simpl.
  - destruct pending as [opened|]; [by apply no_gt_tagless|done].
  - destruct pending as [opened|].
    + destruct (Text.is_gt c) eqn:Hc.
      * destruct (String.length opened =? 1)%nat eqn:Hlen; [|by apply IH].
        destruct opened as [|x [|y opened]]; simpl in Hlen; try done.
        simpl. unfold Text.is_gt in Hc. apply Ascii.eqb_eq in Hc. subst c.
        unfold Text.starts. simpl. rewrite orb_true_r. simpl.
        by apply IH.
      * apply IH. rewrite str_filter_app, Hp. simpl. by rewrite Hc.
    + destruct (Text.is_lt c) eqn:Hc.
      * apply IH. simpl.
        unfold Text.is_lt in Hc. apply Ascii.eqb_eq in Hc. by subst c.
      * simpl. rewrite Hc. simpl. by apply IH.
Qed.

Lemma tagless_suffix (a b : string) : tagless (a +:+ b) = true -> tagless b = true.
Proof.
  induction a as [|c a IH]; simpl; [done|].
  intros [_ ?]%andb_true_iff. by apply IH.
Qed.

Lemma tagless_no_tag (s : string) : tagless s = true -> ~ has_tag s.
Proof.
  intros Hs (a & m & c & -> & Hm & Hgt).
  apply tagless_suffix in Hs.
  change ("<" +:+ m +:+ ">" +:+ c) with (String "<" (m +:+ ">" +:+ c)) in Hs.
  cbn [tagless] in Hs. apply andb_true_iff in Hs as [Hs _].
  apply orb_true_iff in Hs as [Hs|Hs].
  - destruct m as [|x m]; [done|]. rewrite append_cons in Hs.
    unfold Text.starts in Hs. cbn [Str.strip] in Hs.
    cbn [Str.filter] in Hgt. destruct (Text.is_gt x) eqn:Hx; [done|].
    unfold Text.is_gt in Hx. rewrite Ascii.eqb_sym in Hx.
    cbn [negb Text.is_lt orb] in Hs. by rewrite Hx in Hs.
  - apply bool_decide_eq_true in Hs. rewrite str_filter_app in Hs.
    rewrite Hgt in Hs. done.
Qed.

Lemma has_tag_app_l (a b : string) : has_tag a -> has_tag (a +:+ b).
Proof.
  intros (x & m & c & -> & Hm & Hgt). exists x, m, (c +:+ b).
  split; [|done]. by rewrite !append_assoc.
Qed.

Lemma has_tag_app_r (a b : string) : has_tag b -> has_tag (a +:+ b).
Proof.
  intros (x & m & c & -> & Hm & Hgt). exists (a +:+ x), m, c.
  split; [|done]. by rewrite !append_assoc.
Qed.

Lemma strip_tags_no_tag (raw_text : string) : ~ has_tag (Text.strip_tags raw_text).
Proof. apply tagless_no_tag. by apply strip_tags_from_tagless. Qed.

Lemma clean_summary_no_tag (raw_text : string) : ~ has_tag (clean_summary raw_text).
Proof.
  intros Htag. apply (strip_tags_no_tag raw_text). unfold clean_summary in Htag.
  apply (has_tag_app_l _ (Text.drop 500 (Text.strip (Text.strip_tags raw_text))))
    in Htag.
  rewrite take_drop in Htag. unfold Text.strip in Htag.
  destruct (rstrip_prefix (Text.lstrip (Text.strip_tags raw_text))) as [w Hw].
  destruct (lstrip_suffix (Text.strip_tags raw_text)) as [w' Hw'].
  rewrite Hw', Hw. by apply has_tag_app_r, has_tag_app_l.
Qed.

Lemma clean_summary_length (raw_text : string) :
  (String.length (clean_summary raw_text) <= 500)%nat.
Proof. apply str_take_length. Qed.

(** X13. The summary of a story holds at most 500 characters, no match
    of [<[^>]+>] (no complete markup tag is left in it) and no leading
    white space. *)
Theorem clean_summary_properties (raw_text : string) :
  (String.length (clean_summary raw_text) <= 500)%nat
  /\ ~ has_tag (clean_summary raw_text)
  /\ ~ has_tag (Text.strip_tags raw_text)
  /\ Text.lstrip (clean_summary raw_text) = clean_summary raw_text.
Proof.
  split; [apply clean_summary_length|].
  split; [apply clean_summary_no_tag|]. split; [apply strip_tags_no_tag|].
  unfold clean_summary, Text.strip.
  destruct (lstrip_head (Text.strip_tags raw_text)) as [->|(c & r & -> & Hc)];
    [done|].
  destruct (rstrip_head c r Hc) as [r' ->]. unfold Str.take. simpl.
  by rewrite Hc.
Qed.

(** ** County detection and the entry loop *)

Section Feeds.

Context `{Runtime}.

Lemma omap_length_le {A B : Type} (f : A -> option B) (l : list A) :
  (length (omap f l) <= length l)%nat.
Proof.
  induction l as [|x l IH]; [done|]. cbn [omap list_omap length].
  destruct (f x); cbn [length]; lia.
Qed.

(** The loop of [detect_county] appends, in the order of the table, the
    county of each pattern that matches. *)
Lemma county_loop (text : string) (table : list (string * string))
  (matches : list string) :
  fold_left
    (fun matches '(county, pattern) =>
       if re_search pattern text then matches ++ [county] else matches)
    table matches
  = matches ++ (fst <$> List.filter (fun entry => re_search entry.2 text) table).
Proof.
  revert matches. induction table as [|[county pattern] table IH];
    intros matches; simpl.
  - by rewrite app_nil_r.
  - rewrite IH. destruct (re_search pattern text); [|done].
    simpl. by rewrite <- app_assoc.
Qed.

Lemma matching_counties_table (title summary county : string) :
  county ∈ matching_counties title summary -> county ∈ COUNTY_PATTERNS.*1.
Proof.
  unfold matching_counties. intros ([c p] & -> & Hin)%list_elem_of_fmap.
  apply list_elem_of_fmap. exists (c, p). split; [done|].
  apply list_elem_of_In. apply list_elem_of_In in Hin.
  by apply List.filter_In in Hin as [? _].
Qed.

Lemma detect_county_spec (title summary default_county : string) :
  detect_county title summary default_county
  = (if bool_decide (default_county ∈ matching_counties title summary)
     then default_county
     else default default_county (head (matching_counties title summary))).
Proof.
  unfold detect_county. rewrite county_loop. rewrite app_nil_l.
  fold (matching_counties title summary).
  destruct (matching_counties title summary) as [|c [|c' rest]];
    cbn [length head default Nat.eqb Nat.ltb Nat.leb andb].
  - by rewrite bool_decide_eq_false_2 by apply not_elem_of_nil.
  - case_bool_decide as Hin; [|done].
    by apply list_elem_of_singleton in Hin.
  - by case_bool_decide.
Qed.

Lemma detect_county_range (title summary default_county : string) :
  detect_county title summary default_county = default_county
  \/ detect_county title summary default_county ∈ COUNTY_PATTERNS.*1.
Proof.
  rewrite detect_county_spec. case_bool_decide as Hin; [by left|].
  destruct (matching_counties title summary) as [|c rest] eqn:Hm; [by left|].
  right. simpl. apply (matching_counties_table title summary).
  rewrite Hm. apply list_elem_of_here.
Qed.

(** X14. [detect_county] answers the county of the feed whenever the
    pattern of that county matches the text; otherwise the first county,
    in the order of [COUNTY_PATTERNS], whose pattern matches; and the
    county of the feed when no pattern matches.  So its answer is the
    county of the feed or a county of the table. *)
Theorem detect_county_result (title summary default_county : string) :
  let matches := matching_counties title summary in
  detect_county title summary default_county
  = (if bool_decide (default_county ∈ matches) then default_county
     else default default_county (head matches))
  /\ (detect_county title summary default_county = default_county
      \/ detect_county title summary default_county ∈ COUNTY_PATTERNS.*1).
Proof.
  split; [apply detect_county_spec|apply detect_county_range].
Qed.

(** What the loop of [fetch_one_feed] guarantees of a story it appends. *)
Lemma entry_story_inv (source_name default_county : string) (cutoff : Z)
  (e : entry) (s : story) :
  entry_story source_name default_county cutoff e = Some s ->
  s_source s = source_name
  /\ s_title s = Text.strip (default "" (e_title e))
  /\ s_title s <> ""
  /\ (s_summary s = ""
      \/ exists raw_text, s_summary s = clean_summary raw_text)
  /\ s_link s = default "" (e_link e)
  /\ s_county s = detect_county (s_title s) (s_summary s) default_county
  /\ s_published s = Text (e_date e)
  /\ before_cutoff cutoff (e_date e) = false.
Proof.
  unfold entry_story. case_bool_decide as Htitle; [done|].
  destruct (before_cutoff cutoff (e_date e)) eqn:Hcut; [done|].
  intros [= <-]. cbn [s_source s_title s_summary s_link s_county s_published].
  repeat split; try done.
  destruct (truthy (e_summary e)); [right; by eexists|].
  destruct (truthy (e_description e)); [right; by eexists|by left].
Qed.

(** X15. Every story [fetch_one_feed] returns carries the name of its
    source, a title that is not empty and has no white space around it,
    a summary of at most 500 characters with no markup tag, the county
    of the feed or a county of [COUNTY_PATTERNS], and a string under
    [published] which, where it reads as a date with offset, is not
    older than the cutoff. *)
Theorem fetch_one_feed_stories (source_name : string) (parsed : option feed)
  (default_county : string) (now cutoff_days : Z) :
  Forall
    (fun s =>
       s_source s = source_name
       /\ s_title s <> ""
       /\ Text.strip (s_title s) = s_title s
       /\ (String.length (s_summary s) <= 500)%nat
       /\ ~ has_tag (s_summary s)
       /\ (s_county s = default_county \/ s_county s ∈ COUNTY_PATTERNS.*1)
       /\ exists text,
            s_published s = Text text
            /\ match fromisoformat (Str.replace_Z text) with
               | Some (Aware t) => now - cutoff_days * 86400000000 <= t
               | _ => True
               end)
    (fetch_one_feed source_name parsed default_county now cutoff_days).
Proof.
  apply Forall_forall. intros s Hs. unfold fetch_one_feed in Hs.
  destruct parsed as [feed|]; [|by apply elem_of_nil in Hs].
  destruct (bozo feed && bool_decide (entries feed = []));
    [by apply elem_of_nil in Hs|].
  apply list_elem_of_omap in Hs as (e & _ & He).
  apply entry_story_inv in He
    as (Hsource & Htitle & Hne & Hsummary & _ & Hcounty & Hdate & Hcut).
  split; [done|]. split; [done|].
  split; [rewrite Htitle; apply strip_idem|].
  assert ((String.length (s_summary s) <= 500)%nat /\ ~ has_tag (s_summary s))
    as [Hlen Htag].
  { destruct Hsummary as [->|[raw_text ->]].
    - split; [simpl; lia|]. intros (a & m & c & Heq & _).
      by destruct a.
    - split; [apply clean_summary_length|apply clean_summary_no_tag]. }
  split; [done|]. split; [done|]. split.
  { rewrite Hcounty. apply detect_county_range. }
  exists (e_date e). split; [done|]. unfold before_cutoff in Hcut.
  destruct (fromisoformat (Str.replace_Z (e_date e))) as [[t|t]|]; [|done..].
  by apply Z.ltb_ge in Hcut.
Qed.

(** X16. [fetch_one_feed] reads the first 25 entries of the feed and
    nothing else of it: it returns at most 25 stories, their titles are
    titles of those entries in the order of the feed, and neither the
    [bozo] flag nor a later entry changes what it returns. *)
Theorem fetch_one_feed_entries (source_name : string) (feed : feed)
  (default_county : string) (now cutoff_days : Z) :
  let out :=
    fetch_one_feed source_name (Some feed) default_county now cutoff_days in
  (length out <= 25)%nat
  /\ s_title <$> out
       `sublist_of` (fun e => Text.strip (default "" (e_title e)))
                      <$> take 25 (entries feed)
  /\ out = fetch_one_feed source_name
             (Some {| bozo := false; entries := take 25 (entries feed) |})
             default_county now cutoff_days.
Proof.
  intros out.
  assert (out = omap (entry_story source_name default_county
                        (now - cutoff_days * 86400000000))
                  (take 25 (entries feed))) as Hout.
  { unfold out, fetch_one_feed. destruct (bozo feed); [|done]. simpl.
    case_bool_decide as Hnil; [by rewrite Hnil|done]. }
  split; [|split].
  - rewrite Hout. etrans; [apply omap_length_le|]. rewrite length_take. lia.
  - rewrite Hout. generalize (take 25 (entries feed)). intros l.
    induction l as [|e l IH]; simpl; [done|].
    destruct (entry_story _ _ _ e) as [s|] eqn:He; simpl.
    + apply entry_story_inv in He as (_ & -> & _). by apply sublist_skip.
    + by apply sublist_cons.
  - rewrite Hout. unfold fetch_one_feed. simpl. by rewrite take_take.
Qed.

(** X17. The digest engine accepts what the acquisition stage hands
    over: when no date of an entry reads as a date without offset,
    [process_stories] returns on the output of [fetch_all_feeds], for any
    number of feeds and stories. *)
Theorem pipeline_returns (fetched_at days now : Z)
  (feeds : list (string * option feed * string)) :
  Forall
    (fun '(_, parsed, _) =>
       Forall (fun e => reads_naive (e_date e) = false)
         (from_option entries [] parsed))
    feeds ->
  exists out,
    process_stories now
      (fetch_all_feeds
         ((fun '(source_name, parsed, default_county) =>
             fetch_one_feed source_name parsed default_county fetched_at days)
            <$> feeds))
    = Ok out.
Proof.
  intros Hfeeds. unfold fetch_all_feeds. set (results := _ <$> feeds).
  cut (Forall (fun s => datable s /\ holds_text s) (unique (concat results))).
  { intros Hkept. apply process_stories_total.
    - change (dedup_from ∅ (unique (concat results)))
        with (dedup (unique (concat results))).
      rewrite dedup_unique. eapply Forall_impl; [exact Hkept|]. by intros s [? ?].
    - right. change (dedup_from ∅ (unique (concat results)))
        with (dedup (unique (concat results))).
      rewrite dedup_unique. eapply Forall_impl; [exact Hkept|]. by intros s [? ?]. }
  assert (Forall (fun s => datable s /\ holds_text s) (concat results))
    as Hall.
  { apply Forall_concat, Forall_fmap, Forall_forall.
    intros [[source_name parsed] default_county] Hin.
    pose proof (proj1 (Forall_forall _ _) Hfeeds _ Hin) as Hdates.
    apply Forall_forall. intros s Hs. unfold fetch_one_feed in Hs.
    destruct parsed as [feed|]; [|by apply elem_of_nil in Hs].
    destruct (bozo feed && bool_decide (entries feed = []));
      [by apply elem_of_nil in Hs|].
    apply list_elem_of_omap in Hs as (e & He & Hs).
    apply entry_story_inv in Hs as (_ & _ & _ & _ & _ & _ & Hdate & _).
    split; [|by eexists]. unfold datable. rewrite Hdate. intros t Ht.
    assert (e ∈ entries feed) as Hin'
      by (eapply elem_of_sublist; [exact He|apply sublist_take]).
    pose proof (proj1 (Forall_forall _ _) Hdates e Hin') as Hnaive.
    unfold reads_naive in Hnaive. by rewrite Ht in Hnaive. }
  apply Forall_forall. intros s Hs.
  apply (proj1 (Forall_forall _ _) Hall).
  eapply elem_of_sublist; [exact Hs|]. apply unique_from_sublist.
Qed.

End Feeds.

Lemma pipeline_returns_witness :
  exists out,
    process_stories Sample.now
      (fetch_all_feeds
         ((fun '(source_name, parsed, default_county) =>
             fetch_one_feed source_name parsed default_county Sample.now 10)
            <$> [("Example Daily", Some Sample3.the_feed, "Bay Area");
                 ("Silent Weekly", None, "Marin")]))
    = Ok out.
Proof.
  apply (pipeline_returns Sample.now 10 Sample.now).
  constructor; [|constructor; constructor].
  repeat (constructor; [vm_compute; reflexivity|]). constructor.
Defined.

(** * The page updater *)

(** ** Searching and slicing *)

Lemma starts_spec (sub s : string) :
  Text.starts sub s = true <-> exists b, s = sub +:+ b.
Proof.
  unfold Text.starts. revert s.
  induction sub as [|x sub IH]; intros s; cbn [Str.strip].
  - split; [by exists s|done].
  - destruct s as [|d s].
    + split; [done|]. intros [b Hb]. by rewrite append_cons in Hb.
    + destruct (Ascii.eqb x d) eqn:Hxd.
      * apply Ascii.eqb_eq in Hxd as ->. rewrite IH.
        split; intros [b Hb]; exists b.
        -- rewrite append_cons. by rewrite Hb.
        -- rewrite append_cons in Hb. by injection Hb.
      * split; [done|]. intros [b Hb]. rewrite append_cons in Hb.
        injection Hb as -> _. by rewrite Ascii.eqb_refl in Hxd.
Qed.

Lemma occurs_at_0 (sub s : string) :
  occurs_at sub s 0 <-> Text.starts sub s = true.
Proof.
  rewrite starts_spec. split.
  - intros (a & b & -> & Ha). destruct a; [|done]. by exists b.
  - intros [b ->]. by exists "", b.
Qed.

Lemma occurs_at_S (sub : string) (c : ascii) (r : string) (n : nat) :
  occurs_at sub (String c r) (S n) <-> occurs_at sub r n.
Proof.
  split.
  - intros (a & b & Heq & Ha). destruct a as [|c' a]; [done|].
    rewrite append_cons in Heq. injection Heq as -> ->.
    exists a, b. split; [done|]. simpl in Ha. lia.
  - intros (a & b & -> & Ha). exists (String c a), b.
    split; [by rewrite append_cons|]. simpl. lia.
Qed.

Lemma occurs_at_nil (sub : string) (n : nat) :
  occurs_at sub "" n -> Text.starts sub "" = true.
Proof.
  intros (a & b & Heq & Ha). destruct a as [|c a]; [|done].
  apply starts_spec. exists b. by rewrite append_nil_l in Heq.
Qed.

(** [Text.index_of] finds the first place of [sub], and fails only where
    [sub] stands nowhere. *)
Lemma index_of_first_at (sub s : string) (n : nat) :
  Text.index_of sub s = Some n <-> first_at sub s n.
Proof.
  revert n. induction s as [|c r IH]; intros n; cbn [Text.index_of].
  - destruct (Text.starts sub "") eqn:Hstart.
    + split.
      * intros [= <-]. split; [by apply occurs_at_0|]. intros i _. lia.
      * intros [_ Hmin]. f_equal. apply occurs_at_0 in Hstart.
        specialize (Hmin _ Hstart). lia.
    + split; [done|]. intros [Hocc _]. apply occurs_at_nil in Hocc.
      by rewrite Hocc in Hstart.
  - destruct (Text.starts sub (String c r)) eqn:Hstart.
    + split.
      * intros [= <-]. split; [by apply occurs_at_0|]. intros i _. lia.
      * intros [_ Hmin]. f_equal. apply occurs_at_0 in Hstart.
        specialize (Hmin _ Hstart). lia.
    + assert (forall i, occurs_at sub (String c r) i -> exists j, i = S j)
        as Hpos.
      { intros [|j] Hocc; [|by exists j]. apply occurs_at_0 in Hocc.
        by rewrite Hocc in Hstart. }
      split.
      * destruct (Text.index_of sub r) as [m|]; [|done].
        intros [= <-]. destruct (proj1 (IH m) eq_refl) as [Hocc Hmin].
        split; [by apply occurs_at_S|]. intros i Hi.
        destruct (Hpos i Hi) as [j ->]. apply occurs_at_S in Hi.
        specialize (Hmin j Hi). lia.
      * intros [Hocc Hmin]. destruct (Hpos n Hocc) as [m ->].
        assert (Text.index_of sub r = Some m) as ->; [|done].
        apply IH. split; [by apply (occurs_at_S sub c)|]. intros i Hi.
        apply (occurs_at_S sub c) in Hi. specialize (Hmin _ Hi). lia.
Qed.

Lemma index_of_absent (sub s : string) :
  Text.index_of sub s = None <-> forall n, ~ occurs_at sub s n.
Proof.
  split.
  - intros Hnone n Hocc. revert n Hocc Hnone.
    induction s as [|c r IH]; intros n Hocc; cbn [Text.index_of].
    + apply occurs_at_nil in Hocc. by rewrite Hocc.
    + destruct (Text.starts sub (String c r)) eqn:Hstart; [done|].
      destruct n as [|n].
      * apply occurs_at_0 in Hocc. by rewrite Hocc in Hstart.
      * apply occurs_at_S in Hocc.
        destruct (Text.index_of sub r) eqn:Hr; [done|]. intros _.
        by apply (IH n).
  - intros Habsent. destruct (Text.index_of sub s) as [n|] eqn:Hs; [|done].
    apply index_of_first_at in Hs as [Hocc _]. by destruct (Habsent n).
Qed.

Lemma index_of_short (sub s : string) :
  (String.length s < String.length sub)%nat -> Text.index_of sub s = None.
Proof.
  intros Hlen. apply index_of_absent. intros n (a & b & -> & _).
  rewrite !append_length in Hlen. lia.
Qed.

Lemma take_app_length (a b : string) : Str.take (String.length a) (a +:+ b) = a.
Proof.
  unfold Str.take. induction a as [|c a IH].
  - rewrite append_nil_l. by destruct b.
  - rewrite append_cons. simpl. by rewrite IH.
Qed.

Lemma drop_app_length (a b : string) : Text.drop (String.length a) (a +:+ b) = b.
Proof.
  induction a as [|c a IH]; [done|]. rewrite append_cons. simpl. exact IH.
Qed.

Lemma drop_length (n : nat) (s : string) :
  String.length (Text.drop n s) = (String.length s - n)%nat.
Proof.
  revert n. induction s as [|c s IH]; intros [|n]; simpl; done.
Qed.

Lemma slice_to_app (a b : string) :
  Text.slice_to (a +:+ b) (Z.of_nat (String.length a)) = a.
Proof.
  unfold Text.slice_to, Text.bound. rewrite append_length.
  destruct (Z.ltb_spec (Z.of_nat (String.length a)) 0) as [?|_]; [lia|].
  rewrite Z.min_l by lia. rewrite Nat2Z.id. apply take_app_length.
Qed.

Lemma slice_from_app (a b : string) :
  Text.slice_from (a +:+ b) (Z.of_nat (String.length a)) = b.
Proof.
  unfold Text.slice_from, Text.bound. rewrite append_length.
  destruct (Z.ltb_spec (Z.of_nat (String.length a)) 0) as [?|_]; [lia|].
  rewrite Z.min_l by lia. rewrite Nat2Z.id. apply drop_app_length.
Qed.

(** [s.find(sub, k)] for a start [k] within [s]. *)
Lemma find_from (s sub : string) (k : nat) :
  (k <= String.length s)%nat ->
  Text.find s sub (Z.of_nat k)
  = match Text.index_of sub (Text.drop k s) with
    | Some i => Z.of_nat (k + i)
    | None => -1
    end.
Proof.
  intros Hk. unfold Text.find.
  destruct (Z.ltb_spec (Z.of_nat k) 0) as [?|_]; [lia|].
  destruct (Z.ltb_spec (Z.of_nat (String.length s)) (Z.of_nat k)) as [?|_];
    [lia|].
  rewrite Nat2Z.id. destruct (Text.index_of sub (Text.drop k s)); [lia|done].
Qed.

(** [s.find(sub, -1)] looks at the last character only. *)
Lemma find_from_last (s sub : string) :
  (2 <= String.length sub)%nat -> Text.find s sub (-1) = -1.
Proof.
  intros Hsub. unfold Text.find.
  change (-1 <? 0) with true. cbn match.
  set (len := Z.of_nat (String.length s)).
  destruct (Z.ltb_spec len (Z.max 0 (-1 + len))) as [?|_]; [done|].
  rewrite index_of_short; [done|]. rewrite drop_length. lia.
Qed.

(** The two searches of a replacement, on a page that holds the opening
    text first at the end of [pre] and, from there on, the closing text
    first after [old]. *)
Lemma find_both (pre opening old closing post : string) :
  let html := pre +:+ opening +:+ old +:+ closing +:+ post in
  first_at opening html (String.length pre) ->
  first_at closing (opening +:+ old +:+ closing +:+ post)
    (String.length (opening +:+ old)) ->
  Text.find html opening 0 = Z.of_nat (String.length pre)
  /\ Text.find html closing (Z.of_nat (String.length pre))
     = Z.of_nat (String.length (pre +:+ opening +:+ old)).
Proof.
  intros html Hopen Hclose.
  apply index_of_first_at in Hopen. apply index_of_first_at in Hclose. split.
  - change 0 with (Z.of_nat 0). rewrite find_from by lia.
    change (Text.drop 0 html) with html. by rewrite Hopen.
  - rewrite find_from by (unfold html; rewrite append_length; lia).
    unfold html. rewrite drop_app_length, Hclose.
    by rewrite (append_length pre).
Qed.

(** ** The two replacements *)

Lemma replace_stories_spec (pre old post stories_json : string) :
  first_at Page.stories_marker
    (pre +:+ Page.stories_marker +:+ old +:+ Page.stories_close +:+ post)
    (String.length pre) ->
  first_at Page.stories_close
    (Page.stories_marker +:+ old +:+ Page.stories_close +:+ post)
    (String.length (Page.stories_marker +:+ old)) ->
  Page.replace_stories
    (pre +:+ Page.stories_marker +:+ old +:+ Page.stories_close +:+ post)
    stories_json
  = pre +:+ "var STORIES = " +:+ stories_json +:+ ";" +:+ Text.newline
    +:+ post.
Proof.
  set (html := pre +:+ _). intros Hopen Hclose.
  destruct (find_both pre _ old _ post Hopen Hclose) as [Hstart Hend].
  unfold Page.replace_stories. cbv zeta. fold html in Hstart, Hend |- *.
  rewrite Hstart, Hend.
  unfold html at 1. rewrite slice_to_app.
  assert (html = (pre +:+ Page.stories_marker +:+ old +:+ "];")
                 +:+ Text.newline +:+ post) as ->.
  { unfold html, Page.stories_close. by rewrite !append_assoc. }
  assert (Z.of_nat (String.length (pre +:+ Page.stories_marker +:+ old)) + 2
          = Z.of_nat (String.length
                        (pre +:+ Page.stories_marker +:+ old +:+ "];")))
    as ->.
  { rewrite !append_length. simpl. lia. }
  rewrite slice_from_app. by rewrite !append_assoc.
Qed.

Lemma replace_generated_spec (pre old post generated_at : string) :
  first_at Page.generated_marker
    (pre +:+ Page.generated_marker +:+ old +:+ Page.generated_close +:+ post)
    (String.length pre) ->
  first_at Page.generated_close
    (Page.generated_marker +:+ old +:+ Page.generated_close +:+ post)
    (String.length (Page.generated_marker +:+ old)) ->
  Page.replace_generated
    (pre +:+ Page.generated_marker +:+ old +:+ Page.generated_close +:+ post)
    generated_at
  = pre +:+ Page.generated_marker +:+ generated_at +:+ Page.generated_close
    +:+ post.
Proof.
  set (html := pre +:+ _). intros Hopen Hclose.
  destruct (find_both pre _ old _ post Hopen Hclose) as [Hstart Hend].
  unfold Page.replace_generated. cbv zeta. fold html in Hstart, Hend |- *.
  rewrite Hstart, Hend.
  unfold html at 1. rewrite slice_to_app.
  assert (html = (pre +:+ Page.generated_marker +:+ old
                  +:+ Page.generated_close) +:+ post) as ->.
  { unfold html. by rewrite !append_assoc. }
  assert (Z.of_nat (String.length (pre +:+ Page.generated_marker +:+ old)) + 2
          = Z.of_nat (String.length
                        (pre +:+ Page.generated_marker +:+ old
                         +:+ Page.generated_close)))
    as ->.
  { rewrite !append_length. simpl. lia. }
  rewrite slice_from_app. by rewrite !append_assoc.
Qed.

(** The first search of a replacement on a page without the marker. *)
Lemma find_absent (html marker : string) :
  (forall n, ~ occurs_at marker html n) -> Text.find html marker 0 = -1.
Proof.
  intros Habsent%index_of_absent.
  change 0 with (Z.of_nat 0). rewrite find_from by lia.
  change (Text.drop 0 html) with html. by rewrite Habsent.
Qed.

(** X18. On a page where the text [Page.stories_marker] comes first at
    the end of [pre] and the first [Page.stories_close] from there on
    closes the array, the first replacement keeps [pre] and everything
    after the array, its newline included, and puts the new array in the
    place of the old one. *)
Theorem replace_stories_page (pre old post stories_json : string) :
  let html :=
    pre +:+ Page.stories_marker +:+ old +:+ Page.stories_close +:+ post in
  first_at Page.stories_marker html (String.length pre) ->
  first_at Page.stories_close
    (Page.stories_marker +:+ old +:+ Page.stories_close +:+ post)
    (String.length (Page.stories_marker +:+ old)) ->
  Page.replace_stories html stories_json
  = pre +:+ "var STORIES = " +:+ stories_json +:+ ";" +:+ Text.newline
    +:+ post.
Proof. intros html. apply replace_stories_spec. Qed.

(** X19. On a page where the text [Page.generated_marker] comes first
    at the end of [pre] and the first [Page.generated_close] from there
    on closes the timestamp, the second replacement changes the
    timestamp and nothing else. *)
Theorem replace_generated_page (pre old post generated_at : string) :
  let html :=
    pre +:+ Page.generated_marker +:+ old +:+ Page.generated_close +:+ post in
  first_at Page.generated_marker html (String.length pre) ->
  first_at Page.generated_close
    (Page.generated_marker +:+ old +:+ Page.generated_close +:+ post)
    (String.length (Page.generated_marker +:+ old)) ->
  Page.replace_generated html generated_at
  = pre +:+ Page.generated_marker +:+ generated_at +:+ Page.generated_close
    +:+ post.
Proof. intros html. apply replace_generated_spec. Qed.

(** X20. The two replacements together, on a page that holds the array
    and, after it, the timestamp: when each search finds the text it is
    meant to find (the second marker is searched in the page that
    already holds the new array), [update_html] changes the array and
    the timestamp and keeps every other character of the page. *)
Theorem update_html_page
  (pre old_stories mid old_generated post stories_json generated_at : string) :
  let rest :=
    mid +:+ Page.generated_marker +:+ old_generated +:+ Page.generated_close
    +:+ post in
  let html :=
    pre +:+ Page.stories_marker +:+ old_stories +:+ Page.stories_close
    +:+ rest in
  let new_start :=
    pre +:+ "var STORIES = " +:+ stories_json +:+ ";" +:+ Text.newline
    +:+ mid in
  first_at Page.stories_marker html (String.length pre) ->
  first_at Page.stories_close
    (Page.stories_marker +:+ old_stories +:+ Page.stories_close +:+ rest)
    (String.length (Page.stories_marker +:+ old_stories)) ->
  first_at Page.generated_marker
    (new_start +:+ Page.generated_marker +:+ old_generated
     +:+ Page.generated_close +:+ post)
    (String.length new_start) ->
  first_at Page.generated_close
    (Page.generated_marker +:+ old_generated +:+ Page.generated_close
     +:+ post)
    (String.length (Page.generated_marker +:+ old_generated)) ->
  Page.update_html html stories_json generated_at
  = new_start +:+ Page.generated_marker +:+ generated_at
    +:+ Page.generated_close +:+ post.
Proof.
  intros rest html new_start Hs1 Hs2 Hg1 Hg2. unfold Page.update_html.
  unfold html. rewrite replace_stories_spec by done.
  assert (pre +:+ "var STORIES = " +:+ stories_json +:+ ";" +:+ Text.newline
          +:+ rest
          = new_start +:+ Page.generated_marker +:+ old_generated
            +:+ Page.generated_close +:+ post) as ->.
  { unfold new_start, rest. by rewrite !append_assoc. }
  by apply replace_generated_spec.
Qed.

(** X21. On a page without the text [Page.stories_marker] the first
    replacement does not leave the page alone: both searches answer -1,
    and the new line is put between the page without its last character
    and the page without its first character. *)
Theorem replace_stories_without_marker (html stories_json : string) :
  (forall n, ~ occurs_at Page.stories_marker html n) ->
  Page.replace_stories html stories_json
  = Text.slice_to html (-1) +:+ ("var STORIES = " +:+ stories_json +:+ ";")
    +:+ Text.slice_from html 1.
Proof.
  intros Habsent. unfold Page.replace_stories.
  rewrite find_absent by done. by rewrite find_from_last by (simpl; lia).
Qed.

(** X22. The second replacement does the same on a page without the
    text [Page.generated_marker]: the new line is put between the page
    without its last character and the page without its first
    character. *)
Theorem replace_generated_without_marker (html generated_at : string) :
  (forall n, ~ occurs_at Page.generated_marker html n) ->
  Page.replace_generated html generated_at
  = Text.slice_to html (-1)
    +:+ (Page.generated_marker +:+ generated_at +:+ Page.generated_close)
    +:+ Text.slice_from html 1.
Proof.
  intros Habsent. unfold Page.replace_generated.
  rewrite find_absent by done. by rewrite find_from_last by (simpl; lia).
Qed.

Lemma replace_stories_page_witness :
  Page.replace_stories SamplePage.page "[]"
  = SamplePage.head_part +:+ "var STORIES = " +:+ "[]" +:+ ";" +:+ Text.newline
    +:+ Page.generated_marker +:+ "2024-03-09" +:+ Page.generated_close
    +:+ SamplePage.tail_part.
Proof.
  apply (replace_stories_page SamplePage.head_part SamplePage.old_stories
           (Page.generated_marker +:+ "2024-03-09" +:+ Page.generated_close
            +:+ SamplePage.tail_part) "[]").
  - apply index_of_first_at. vm_compute. reflexivity.
  - apply index_of_first_at. vm_compute. reflexivity.
Defined.

Lemma replace_generated_page_witness :
  Page.replace_generated
    ((SamplePage.head_part +:+ "var STORIES = [];" +:+ Text.newline)
     +:+ Page.generated_marker +:+ "2024-03-09" +:+ Page.generated_close
     +:+ SamplePage.tail_part) "2024-03-10"
  = (SamplePage.head_part +:+ "var STORIES = [];" +:+ Text.newline)
    +:+ Page.generated_marker +:+ "2024-03-10" +:+ Page.generated_close
    +:+ SamplePage.tail_part.
Proof.
  apply (replace_generated_page
           (SamplePage.head_part +:+ "var STORIES = [];" +:+ Text.newline)
           "2024-03-09" SamplePage.tail_part "2024-03-10").
  - apply index_of_first_at. vm_compute. reflexivity.
  - apply index_of_first_at. vm_compute. reflexivity.
Defined.

Lemma update_html_page_witness :
  Page.update_html SamplePage.page "[]" "2024-03-10" = SamplePage.page_updated.
Proof.
  transitivity
    ((SamplePage.head_part +:+ "var STORIES = " +:+ "[]" +:+ ";"
      +:+ Text.newline +:+ "")
     +:+ Page.generated_marker +:+ "2024-03-10" +:+ Page.generated_close
     +:+ SamplePage.tail_part); [|vm_compute; reflexivity].
  apply (update_html_page SamplePage.head_part SamplePage.old_stories ""
           "2024-03-09" SamplePage.tail_part "[]" "2024-03-10").
  - apply index_of_first_at. vm_compute. reflexivity.
  - apply index_of_first_at. vm_compute. reflexivity.
  - apply index_of_first_at. vm_compute. reflexivity.
  - apply index_of_first_at. vm_compute. reflexivity.
Defined.

Lemma replace_stories_without_marker_witness :
  Page.replace_stories SamplePage.bare_page "[]"
  = "<html></html" +:+ "var STORIES = [];" +:+ "html></html>".
Proof.
  rewrite (replace_stories_without_marker SamplePage.bare_page "[]").
  - vm_compute. reflexivity.
  - apply index_of_absent. vm_compute. reflexivity.
Defined.

Lemma replace_generated_without_marker_witness :
  Page.replace_generated SamplePage.bare_page "2024-03-10"
  = "<html></html" +:+ Page.generated_marker +:+ "2024-03-10"
    +:+ Page.generated_close +:+ "html></html>".
Proof.
  rewrite (replace_generated_without_marker SamplePage.bare_page "2024-03-10").
  - vm_compute. reflexivity.
  - apply index_of_absent. vm_compute. reflexivity.
Defined.
